(** * Plan-guided agent loop: plan generation, agent state, step orchestration

    A shallow embedding of [lib/ai/planning.ts], [lib/ai/state.ts] and
    [lib/ai/agent.ts], and the properties of the plan/state machine that
    they implement. *)

From Stdlib Require Import ZArith NArith Ascii String List Lia.
From stdpp Require Import base option list strings pretty gmap.

Local Open Scope Z_scope.

(** ** Text

    A JavaScript string is a sequence of UTF-16 code units; [length] is the
    [.length] property. *)

Module JS.

(** A text is the list of its code units. *)
Abbreviation text := (list N).

(** A literal of the source, written as an ASCII string. *)
Definition lit (s : string) : text :=
  map N_of_ascii (list_ascii_of_string s).

(** [String.prototype.slice(start)] with one argument: a negative start
    counts from the end, and both ends are clamped. *)
Definition slice_from (s : text) (start : Z) : text :=
  let len := Z.of_nat (length s) in
  let from := if start <? 0 then Z.max (len + start) 0 else Z.min start len in
  drop (Z.to_nat from) s.

(** [s.slice(0, n)] for a literal [n >= 0]. *)
Definition slice_to (s : text) (n : nat) : text := take n s.

(** [Array.prototype.join(sep)]. *)
Fixpoint join (sep : text) (parts : list text) : text :=
  match parts with
  | [] => []
  | [p] => p
  | p :: rest => p ++ sep ++ join sep rest
  end.

Fixpoint startsWith (s t : text) {struct t} : bool :=
  match t, s with
  | [], _ => true
  | _ :: _, [] => false
  | c :: t', d :: s' => if N.eqb c d then startsWith s' t' else false
  end.

(** [s.includes(t)]: [t] occurs in [s] as a contiguous run. *)
Fixpoint includes (s t : text) : bool :=
  startsWith s t ||
  match s with
  | [] => false
  | _ :: s' => includes s' t
  end.

(** Decimal rendering of a non-negative integer inside a template
    literal. *)
Definition decimal (n : nat) : text := lit (pretty (N.of_nat n)).

(** A JSON value, as read from or written to a [json] column. *)
#[local] Set Warnings "-register-all".
Inductive json :=
| JNull
| JBool (b : bool)
| JNum (z : Z)
| JStr (s : text)
| JArr (items : list json)
| JObj (fields : list (text * json)).

(** A plain object used as a record of findings: own keys in insertion
    order.  [{...o, [k]: v}] overwrites the value of an existing key where
    it stands and appends a new key at the end.  (The engine lists keys
    that look like array indices first; no result below depends on the
    order of the listing.) *)
Definition object := list (text * json).

Fixpoint obj_get (k : text) (o : object) : option json :=
  match o with
  | [] => None
  | (k', v') :: o' => if decide (k' = k) then Some v' else obj_get k o'
  end.

Fixpoint obj_set (k : text) (v : json) (o : object) : object :=
  match o with
  | [] => [(k, v)]
  | (k', v') :: o' =>
      if decide (k' = k) then (k, v) :: o' else (k', v') :: obj_set k v o'
  end.

(** Parts of the runtime whose tables are not in the source: Unicode
    lower-casing and JSON serialisation. *)
Class Runtime := {
  toLowerCase : text → text;
  JSON_stringify : json → text;
}.

End JS.
Import JS.

(** ** Data model ([lib/db/schema], table [AgentState]) *)

Inductive StepStatus := pending | done.

Record PlanStep := {
  id : text;
  description : text;
  tool : option text;
  step_status : StepStatus;
  step_result : option text;
}.

Record AgentPlan := {
  goal : text;
  steps : list PlanStep;
  reasoning : text;
}.

Record CompletedStep := {
  stepId : text;
  cs_description : text;
  cs_result : text;
  timestamp : text;
}.

Inductive AgentStateStatus := idle | planning | executing | completed.

#[global] Instance AgentStateStatus_eq_dec : EqDecision AgentStateStatus.
Proof. solve_decision. Defined.

(** The columns the core reads and writes; the nullable ones are options. *)
Record AgentState := {
  chatId : text;
  plan : option AgentPlan;
  currentStepIndex : option Z;
  completedSteps : option (list CompletedStep);
  context : option object;
  status : AgentStateStatus;
}.

(** ** Plan generation ([lib/ai/planning.ts]) *)

Module Planning.

(** The [z.enum] of [PlanStepSchema.tool]. *)
Definition PlanStepSchema_tools : list text :=
  [ lit "fetchUrl"; lit "webSearch"; lit "webExtract"; lit "analyzeContent";
    lit "createDocument"; lit "updateDocument"; lit "finalAnswer" ].

(** The object the structured-generation call hands to the schema. *)
Record StepOutput := {
  out_description : text;
  out_tool : option text;
}.

Record PlanOutput := {
  out_goal : text;
  out_steps : list StepOutput;
  out_reasoning : text;
}.

Definition PlanStepSchema (s : StepOutput) : bool :=
  match out_tool s with
  | None => true
  | Some t => bool_decide (t ∈ PlanStepSchema_tools)
  end.

(** [PlanSchema]: [steps] is an array of 1 to 7 valid steps. *)
Definition PlanSchema (o : PlanOutput) : bool :=
  forallb PlanStepSchema (out_steps o)
  && (1 <=? length (out_steps o))%nat
  && (length (out_steps o) <=? 7)%nat.

(** What [generateObject] does with the model's reply: it throws when the
    call fails or when the reply does not parse against the schema. *)
Inductive Generation :=
| GenError
| GenReply (o : PlanOutput).

Definition generateObject (g : Generation) : option PlanOutput :=
  match g with
  | GenError => None
  | GenReply o => if PlanSchema o then Some o else None
  end.

Section WithIds.

(** [generateUUID] of [lib/utils]: the n-th identifier handed out. *)
Variable generateUUID : nat → text.

(** [output.steps.map(...)], threading the number of identifiers
    handed out so far. *)
Fixpoint convertSteps (n : nat) (l : list StepOutput) : list PlanStep * nat :=
  match l with
  | [] => ([], n)
  | s :: l' =>
      let step := {| id := generateUUID n;
                     description := out_description s;
                     tool := out_tool s;
                     step_status := pending;
                     step_result := None |} in
      let '(rest, n') := convertSteps (S n) l' in
      (step :: rest, n')
  end.

Definition convertToPlan (n : nat) (output : PlanOutput) : AgentPlan * nat :=
  let '(steps, n') := convertSteps n (out_steps output) in
  ({| goal := out_goal output; steps := steps;
      reasoning := out_reasoning output |}, n').

Definition createFallbackPlan (n : nat) (task : text) : AgentPlan * nat :=
  ({| goal := task;
      steps :=
        [ {| id := generateUUID n;
             description := lit "Analyze the request and gather information";
             tool := None;
             step_status := pending;
             step_result := None |};
          {| id := generateUUID (S n);
             description := lit "Provide comprehensive response";
             tool := Some (lit "finalAnswer");
             step_status := pending;
             step_result := None |} ];
      reasoning := lit "Fallback plan due to planning error" |},
   S (S n)).

(** [createPlan]: the [try] branch converts the validated object, the
    [catch] branch builds the fallback plan.  The optional context only
    goes into the prompt of the call, whose outcome is [g]. *)
Definition createPlan (n : nat) (task : text) (g : Generation)
  : AgentPlan * nat :=
  match generateObject g with
  | Some o => convertToPlan n o
  | None => createFallbackPlan n task
  end.

End WithIds.

Definition complexIndicators : list text :=
  [ lit "research"; lit "analyze"; lit "compare"; lit "summarize";
    lit "find and"; lit "search for"; lit "look up"; lit "multiple";
    lit "step"; lit "then"; lit "after that"; lit "first"; lit "finally" ].

Definition shouldCreatePlan `{Runtime} (task : text) : bool :=
  if (length task <? 50)%nat then false
  else
    let lowerTask := toLowerCase task in
    existsb (fun indicator => includes lowerTask indicator) complexIndicators.

End Planning.

(** The tools the agent is given ([lib/ai/tools/index.ts]). *)
Definition agentTools : list text :=
  [ lit "webSearch"; lit "fetchUrl"; lit "analyzeContent"; lit "finalAnswer" ].

(** ** Agent state ([lib/ai/state.ts]) *)

Module State.

(** Modelled from the spec: the state store of [lib/db/queries], which is
    not part of the sources at hand.  It keeps at most one state per
    conversation; [load] returns it, [create] writes a row with the column
    defaults, [update] applies all the provided fields at once and returns
    the new state, or nothing when there is no row, and [delete] removes
    it.  [now] is what [new Date().toISOString()] returns. *)
Record World := {
  store : gmap text AgentState;
  now : text;
}.

Record Updates := {
  u_plan : option (option AgentPlan);
  u_currentStepIndex : option (option Z);
  u_completedSteps : option (option (list CompletedStep));
  u_context : option (option object);
  u_status : option AgentStateStatus;
}.

Definition no_updates : Updates :=
  {| u_plan := None; u_currentStepIndex := None; u_completedSteps := None;
     u_context := None; u_status := None |}.

Definition apply_updates (u : Updates) (st : AgentState) : AgentState :=
  {| chatId := chatId st;
     plan := default (plan st) (u_plan u);
     currentStepIndex := default (currentStepIndex st) (u_currentStepIndex u);
     completedSteps := default (completedSteps st) (u_completedSteps u);
     context := default (context st) (u_context u);
     status := default (status st) (u_status u) |}.

Definition set_store (m : gmap text AgentState) (w : World) : World :=
  {| store := m; now := now w |}.

Definition dbGetAgentState (chat : text) (w : World) : option AgentState :=
  store w !! chat.

Definition saveAgentState (chat : text) (s : AgentStateStatus) (w : World)
  : AgentState * World :=
  let st := {| chatId := chat; plan := None; currentStepIndex := Some 0;
               completedSteps := Some []; context := Some []; status := s |} in
  (st, set_store (<[chat := st]> (store w)) w).

Definition dbUpdateAgentState (chat : text) (u : Updates) (w : World)
  : option AgentState * World :=
  match store w !! chat with
  | None => (None, w)
  | Some st =>
      let st' := apply_updates u st in
      (Some st', set_store (<[chat := st']> (store w)) w)
  end.

Definition deleteAgentState (chat : text) (w : World) : World :=
  set_store (delete chat (store w)) w.

(** The functions of [lib/ai/state.ts] proper. *)

Definition MAX_CONTEXT_CHARS : Z := 16000.

Definition initializeAgentState (chat : text) (w : World)
  : option AgentState * World :=
  match dbGetAgentState chat w with
  | Some _ =>
      dbUpdateAgentState chat
        {| u_plan := Some None; u_currentStepIndex := Some (Some 0);
           u_completedSteps := Some (Some []); u_context := Some (Some []);
           u_status := Some idle |} w
  | None =>
      let '(st, w') := saveAgentState chat idle w in (Some st, w')
  end.

Definition getAgentState (chat : text) (w : World) : option AgentState :=
  dbGetAgentState chat w.

Definition updateAgentState (chat : text) (u : Updates) (w : World)
  : option AgentState * World :=
  dbUpdateAgentState chat u w.

Definition updatePlan (chat : text) (p : AgentPlan) (w : World)
  : option AgentState * World :=
  dbUpdateAgentState chat
    {| u_plan := Some (Some p); u_currentStepIndex := Some (Some 0);
       u_completedSteps := None; u_context := None;
       u_status := Some executing |} w.

Definition clearAgentState (chat : text) (w : World) : World :=
  deleteAgentState chat w.

Definition truncation_header : text :=
  lit "<agent_state>" ++ [10%N] ++ lit "  [Context truncated due to length]"
  ++ [10%N].

Definition truncation_footer : text := [10%N] ++ lit "</agent_state>".

Definition truncateContext (context : text) (maxChars : Z) : text :=
  if Z.of_nat (length context) <=? maxChars then context
  else
    let header := truncation_header in
    let footer := truncation_footer in
    let availableChars :=
      maxChars - Z.of_nat (length header) - Z.of_nat (length footer) in
    let truncated := slice_from context (- availableChars) in
    header ++ truncated ++ footer.

(** A string is truthy when it is not empty. *)
Definition truthy (r : option text) : option text :=
  match r with
  | Some (c :: s) => Some (c :: s)
  | _ => None
  end.

Section Formatting.

Context `{Runtime}.

(** The line pushed for one step by the [forEach] of the plan section. *)
Definition stepLine (currentIdx : Z) (idx : nat) (step : PlanStep) : text :=
  let statusMarker :=
    if Z.of_nat idx <? currentIdx then lit "[DONE]"
    else if Z.of_nat idx =? currentIdx then lit "[IN PROGRESS]"
    else lit "[PENDING]" in
  let resultSuffix :=
    match truthy (step_result step) with
    | Some r =>
        if Z.of_nat idx <? currentIdx then lit " - Result: " ++ r else []
    | None => []
    end in
  lit "    " ++ decimal (idx + 1) ++ lit ". " ++ statusMarker ++ lit " "
  ++ description step ++ resultSuffix.

Definition planSection (state : AgentState) : list text :=
  match plan state with
  | Some p =>
      [ lit "  <current_plan>"; lit "    Goal: " ++ goal p; lit "    Steps:" ]
      ++ imap (stepLine (default 0 (currentStepIndex state))) (steps p)
      ++ [ lit "  </current_plan>" ]
  | None => []
  end.

Definition contextLine (entry : text * json) : text :=
  let '(key, value) := entry in
  let valueStr :=
    match value with
    | JStr s => s
    | _ => JSON_stringify value
    end in
  lit "    " ++ key ++ lit ": " ++ valueStr.

Definition contextSection (state : AgentState) : list text :=
  match context state with
  | Some (e :: o) =>
      [ lit "  <accumulated_context>" ] ++ map contextLine (e :: o)
      ++ [ lit "  </accumulated_context>" ]
  | _ => []
  end.

Definition completedLine (step : CompletedStep) : text :=
  lit "    - " ++ cs_description step ++ lit ": " ++ cs_result step.

Definition completedSection (state : AgentState) : list text :=
  match completedSteps state with
  | Some (c :: l) =>
      [ lit "  <completed_steps>" ] ++ map completedLine (c :: l)
      ++ [ lit "  </completed_steps>" ]
  | _ => []
  end.

(** The array [parts] when the closing tag has been pushed. *)
Definition parts (state : AgentState) : list text :=
  [ lit "<agent_state>" ] ++ planSection state ++ contextSection state
  ++ completedSection state ++ [ lit "</agent_state>" ].

(** The local [formatted]: [parts.join("\n")]. *)
Definition formatted (state : AgentState) : text :=
  join [10%N] (parts state).

Definition formatStateContext (state : option AgentState) : text :=
  match state with
  | None => []
  | Some st =>
      match status st with
      | idle => []
      | _ =>
          if MAX_CONTEXT_CHARS <? Z.of_nat (length (formatted st))
          then truncateContext (formatted st) MAX_CONTEXT_CHARS
          else formatted st
      end
  end.

End Formatting.

(** [steps[i]] for a numeric index: nothing outside the array. *)
Definition at_index {A} (l : list A) (i : Z) : option A :=
  if i <? 0 then None else l !! Z.to_nat i.

Definition addToContext (chat key : text) (value : json) (w : World)
  : option AgentState * World :=
  match dbGetAgentState chat w with
  | None => (None, w)
  | Some state =>
      let currentContext := default [] (context state) in
      let updatedContext := obj_set key value currentContext in
      dbUpdateAgentState chat
        {| u_plan := None; u_currentStepIndex := None;
           u_completedSteps := None; u_context := Some (Some updatedContext);
           u_status := None |} w
  end.

Definition completeStep (result : text) (step : PlanStep) : PlanStep :=
  {| id := id step; description := description step; tool := tool step;
     step_status := done; step_result := Some result |}.

Definition completeCurrentStep (chat result : text) (w : World)
  : option AgentState * World :=
  match dbGetAgentState chat w with
  | None => (None, w)
  | Some state =>
      match plan state with
      | None => (None, w)
      | Some p =>
          let currentIdx := default 0 (currentStepIndex state) in
          match at_index (steps p) currentIdx with
          | None => (None, w)
          | Some currentStep =>
              let completedStep :=
                {| stepId := id currentStep;
                   cs_description := description currentStep;
                   cs_result := result;
                   timestamp := now w |} in
              let completedSteps :=
                default [] (completedSteps state) ++ [completedStep] in
              let updatedPlan :=
                {| goal := goal p;
                   steps :=
                     imap (fun idx step =>
                             if Z.of_nat idx =? currentIdx
                             then completeStep result step else step)
                          (steps p);
                   reasoning := reasoning p |} in
              let allComplete :=
                Z.of_nat (length (steps p)) - 1 <=? currentIdx in
              let newStatus := if allComplete then completed else executing in
              dbUpdateAgentState chat
                {| u_plan := Some (Some updatedPlan);
                   u_currentStepIndex := Some (Some (currentIdx + 1));
                   u_completedSteps := Some (Some completedSteps);
                   u_context := None;
                   u_status := Some newStatus |} w
          end
      end
  end.

End State.

(** ** The tool loop of the [ai] package, as far as the agent uses it *)

Module Sdk.

Record ToolCall := {
  call_toolName : text;
}.

(** A tool result: its [toolName], its [result] property when it has one,
    and the object itself as [JSON.stringify] sees it. *)
Record ToolResult := {
  toolName : text;
  result : option json;
  asJson : json;
}.

Inductive Role := system | user | assistant | toolRole.

Record Message := {
  role : Role;
  content : text;
}.

(** One round: a call of the model and the tool executions it asked for. *)
Record StepResult := {
  toolCalls : list ToolCall;
  toolResults : list ToolResult;
  response : list Message;
}.

(** [stepCountIs(n)]: the number of rounds is exactly [n]. *)
Definition stepCountIs (n : Z) (steps : list StepResult) : bool :=
  Z.of_nat (length steps) =? n.

(** [toolCalls.some(call => call.toolName === name)]. *)
Definition callsTool (name : text) (s : StepResult) : bool :=
  existsb (fun c => bool_decide (call_toolName c = name)) (toolCalls s).

(** [hasToolCall(name)]: the last round called the tool [name]. *)
Definition hasToolCall (name : text) (steps : list StepResult) : bool :=
  match last steps with
  | Some s => callsTool name s
  | None => false
  end.

Inductive ToolChoice := auto | none.

(** The settings given to [new ToolLoopAgent(...)]; [St] is the state the
    [prepareStep] closure captures. *)
Record Settings (St : Type) := {
  instructions : text;
  tools : option (list text);
  toolChoice : ToolChoice;
  stopWhen : list StepResult → bool;
  prepareStep :
    nat → list StepResult → list Message → St → option (list Message) * St;
}.
Arguments instructions {St}.
Arguments tools {St}.
Arguments toolChoice {St}.
Arguments stopWhen {St}.
Arguments prepareStep {St}.

(** After a round the loop goes on only if the round made tool calls and
    the stop condition does not hold (the documented behaviour of the
    package). *)
Definition halts {St} (cfg : Settings St) (steps : list StepResult) : bool :=
  match last steps with
  | Some s =>
      match toolCalls s with
      | [] => true
      | _ => stopWhen cfg steps
      end
  | None => false
  end.

Section Loop.

Context {St : Type}.
Variable cfg : Settings St.

(** The reasoning engine with its tools: from the messages of a round to
    what the round produced. *)
Variable engine : list Message → StepResult.

Variable initial : list Message.

Definition stepInput (steps : list StepResult) : list Message :=
  initial ++ concat (map response steps).

(** One round: prepare, call the engine, record the round. *)
Definition round (steps : list StepResult) (s : St) : list StepResult * St :=
  let '(prepared, s') :=
    prepareStep cfg (length steps) steps (stepInput steps) s in
  let r := engine (default (stepInput steps) prepared) in
  (steps ++ [r], s').

(** The loop, with a bound on the number of rounds the model follows. *)
Fixpoint run (fuel : nat) (steps : list StepResult) (s : St)
  : option (list StepResult * St) :=
  match fuel with
  | O => None
  | S fuel' =>
      let '(steps', s') := round steps s in
      if halts cfg steps' then Some (steps', s') else run fuel' steps' s'
  end.

End Loop.

End Sdk.
Import Sdk.

(** ** The agent ([lib/ai/agent.ts]) *)

Module Agent.

Record CreateAgentOptions := {
  systemPrompt : text;
  opt_chatId : option text;
  isReasoningModel : option bool;
  maxSteps : option Z;
}.

(** The calls the orchestrator makes to the step completion tracker. *)
Inductive Call :=
| CallAddToContext (chat key : text) (value : json)
| CallCompleteCurrentStep (chat result : text).

(** What is written to the data stream. *)
Inductive StreamPart :=
| DataAgentStatus (s : AgentStateStatus)
| DataAgentPlan (p : AgentPlan).

(** Whether the awaited calls of the store to come throw, one entry for
    each call of [getAgentState], [addToContext], [completeCurrentStep] or
    [updatePlan] in the order in which the code awaits them; a call beyond
    the list does not throw. *)
Definition Faults := list bool.

Definition throwsNext (fs : Faults) : bool := default false (head fs).

(** None of the calls to come throws. *)
Definition noThrow (fs : Faults) : bool := forallb negb fs.

(** What [prepareStep] works on: the store, the counter
    [lastProcessedStepCount] of the closure, the calls made to the tracker
    so far, the parts written to the stream so far, and the faults of the
    store calls to come. *)
Record Orchestrator := {
  world : State.World;
  lastProcessedStepCount : nat;
  calls : list Call;
  written : list StreamPart;
  faults : Faults;
}.

Definition start (w : State.World) : Orchestrator :=
  {| world := w; lastProcessedStepCount := 0; calls := []; written := [];
     faults := [] |}.

(** The same, with a store whose calls throw as [fs] says. *)
Definition startWith (fs : Faults) (w : State.World) : Orchestrator :=
  {| world := w; lastProcessedStepCount := 0; calls := []; written := [];
     faults := fs |}.

Definition set_world (w : State.World) (o : Orchestrator) : Orchestrator :=
  {| world := w; lastProcessedStepCount := lastProcessedStepCount o;
     calls := calls o; written := written o; faults := faults o |}.

Definition set_lastProcessedStepCount (n : nat) (o : Orchestrator)
  : Orchestrator :=
  {| world := world o; lastProcessedStepCount := n; calls := calls o;
     written := written o; faults := faults o |}.

Definition called (c : Call) (o : Orchestrator) : Orchestrator :=
  {| world := world o; lastProcessedStepCount := lastProcessedStepCount o;
     calls := calls o ++ [c]; written := written o; faults := faults o |}.

Definition write (p : StreamPart) (o : Orchestrator) : Orchestrator :=
  {| world := world o; lastProcessedStepCount := lastProcessedStepCount o;
     calls := calls o; written := written o ++ [p]; faults := faults o |}.

Definition set_faults (fs : Faults) (o : Orchestrator) : Orchestrator :=
  {| world := world o; lastProcessedStepCount := lastProcessedStepCount o;
     calls := calls o; written := written o; faults := fs |}.

(** How awaited code inside the [try] of [prepareStep] ends: it returns a
    value or it throws; either way the orchestrator is as the code left
    it. *)
Inductive Outcome (A : Type) : Type :=
| Returns (a : A) (o : Orchestrator)
| Throws (o : Orchestrator).
Arguments Returns {A}.
Arguments Throws {A}.

Definition returned {A} (r : Outcome A) : bool :=
  match r with Returns _ _ => true | Throws _ => false end.

Definition after {A} (r : Outcome A) : Orchestrator :=
  match r with Returns _ o | Throws o => o end.

(** The statements after an awaited call run only if it returned. *)
Definition andThen {A B} (r : Outcome A) (k : A → Orchestrator → Outcome B)
  : Outcome B :=
  match r with
  | Returns a o => k a o
  | Throws o => Throws o
  end.

(** An awaited call [f] of the store: it throws when the next fault says
    so, and the store is then as it was (the write of a tracker call is the
    last thing it does); otherwise it does what [f] does. *)
Definition await {A} (f : State.World → A * State.World) (o : Orchestrator)
  : Outcome A :=
  let o1 := set_faults (tail (faults o)) o in
  if throwsNext (faults o) then Throws o1
  else Returns (fst (f (world o))) (set_world (snd (f (world o))) o1).

Section WithRuntime.

Context `{Runtime}.

(** [resultSummary]: a string result is cut at 500; otherwise the result,
    or the whole tool result when it has none, is serialised and cut. *)
Definition resultSummary (toolResult : ToolResult) : text :=
  match result toolResult with
  | Some (JStr s) => slice_to s 500
  | Some JNull | None => slice_to (JSON_stringify (asJson toolResult)) 500
  | Some resultValue => slice_to (JSON_stringify resultValue) 500
  end.

Definition contextKey (i : nat) (toolResult : ToolResult) : text :=
  lit "step_" ++ decimal (i + 1) ++ lit "_" ++ toolName toolResult.

Definition call_addToContext (chat key : text) (value : json)
  (o : Orchestrator) : Outcome (option AgentState) :=
  await (State.addToContext chat key value)
    (called (CallAddToContext chat key value) o).

Definition call_completeCurrentStep (chat result : text)
  (o : Orchestrator) : Outcome (option AgentState) :=
  await (State.completeCurrentStep chat result)
    (called (CallCompleteCurrentStep chat result) o).

Definition call_getAgentState (chat : text) (o : Orchestrator)
  : Outcome (option AgentState) :=
  await (fun w => (State.getAgentState chat w, w)) o.

(** The inner [for ... of completedStep.toolResults]. *)
Fixpoint recordToolResults (chat : text) (i : nat)
  (results : list ToolResult) (o : Orchestrator) : Outcome unit :=
  match results with
  | [] => Returns tt o
  | toolResult :: rest =>
      andThen
        (call_addToContext chat (contextKey i toolResult)
           (JStr (resultSummary toolResult)) o)
        (fun _ o1 => recordToolResults chat i rest o1)
  end.

Definition executedSummary (results : list ToolResult) : text :=
  lit "Executed: " ++ join (lit ", ") (map toolName results).

(** The body of the outer [for] at index [i].  A state read from the
    store always has its [currentStepIndex] property, so the second half
    of the test [state?.plan && state.currentStepIndex !== undefined]
    holds for every state. *)
Definition processStep (chat : text) (i : nat) (completedStep : StepResult)
  (o : Orchestrator) : Outcome unit :=
  match toolResults completedStep with
  | [] => Returns tt o
  | _ :: _ =>
      andThen (recordToolResults chat i (toolResults completedStep) o)
        (fun _ o1 =>
           andThen (call_getAgentState chat o1)
             (fun state o2 =>
                match state with
                | Some state =>
                    match plan state with
                    | Some _ =>
                        andThen
                          (call_completeCurrentStep chat
                             (executedSummary (toolResults completedStep)) o2)
                          (fun _ o3 => Returns tt o3)
                    | None => Returns tt o2
                    end
                | None => Returns tt o2
                end))
  end.

(** The outer [for (let i = lastProcessedStepCount; i < steps.length; i++)],
    on the rounds from index [i] on. *)
Fixpoint processFrom (chat : text) (i : nat) (rest : list StepResult)
  (o : Orchestrator) : Outcome unit :=
  match rest with
  | [] => Returns tt o
  | completedStep :: rest' =>
      andThen (processStep chat i completedStep o)
        (fun _ o1 => processFrom chat (S i) rest' o1)
  end.

(** The [if (steps.length > lastProcessedStepCount)] block.  The counter
    is set after the loop, so not when a call in the loop throws. *)
Definition recordNewSteps (chat : text) (steps : list StepResult)
  (o : Orchestrator) : Outcome unit :=
  if (lastProcessedStepCount o <? length steps)%nat then
    andThen
      (processFrom chat (lastProcessedStepCount o)
         (drop (lastProcessedStepCount o) steps) o)
      (fun _ o1 => Returns tt (set_lastProcessedStepCount (length steps) o1))
  else Returns tt o.

(** The [try] block up to [const state = await getAgentState(chatId)]: the
    new rounds are recorded, then the state is read. *)
Definition loadState (chat : text) (steps : list StepResult)
  (o : Orchestrator) : Outcome (option AgentState) :=
  andThen (recordNewSteps chat steps o)
    (fun _ o1 => call_getAgentState chat o1).

Definition stateMessage (stepNumber : nat) (stateContext : text) : Message :=
  {| role := system;
     content := lit "[Step " ++ decimal stepNumber
                ++ lit "] Current agent state:" ++ [10%N] ++ stateContext |}.

(** [prepareStep] of the agent with tools.  [None] is the result [{}].
    What can throw inside the [try] are the awaited calls of the tracker
    and of the store; the [catch] then returns [{}], and what the calls
    before the throw did stays done. *)
Definition prepareStep (chatId : option text) (stepNumber : nat)
  (steps : list StepResult) (messages : list Message) (o : Orchestrator)
  : option (list Message) * Orchestrator :=
  match State.truthy chatId with
  | None => (None, o)
  | Some chat =>
      match loadState chat steps o with
      | Throws o1 => (None, o1)
      | Returns None o1 => (None, o1)
      | Returns (Some state) o1 =>
          match status state with
          | idle => (None, o1)
          | _ =>
              match State.formatStateContext (Some state) with
              | [] => (None, o1)
              | stateContext =>
                  let o2 := write (DataAgentStatus (status state)) o1 in
                  let o3 :=
                    match plan state with
                    | Some p => write (DataAgentPlan p) o2
                    | None => o2
                    end in
                  (Some (messages ++ [stateMessage stepNumber stateContext]),
                   o3)
              end
          end
      end
  end.

Definition createAgent (opts : CreateAgentOptions) : Settings Orchestrator :=
  let maxSteps := default 5 (maxSteps opts) in
  if default false (isReasoningModel opts) then
    {| instructions := systemPrompt opts;
       tools := None;
       toolChoice := none;
       stopWhen := stepCountIs maxSteps;
       Sdk.prepareStep := fun _ _ _ o => (None, o) |}
  else
    {| instructions := systemPrompt opts;
       tools := Some agentTools;
       toolChoice := auto;
       stopWhen := fun event =>
         hasToolCall (lit "finalAnswer") event || stepCountIs maxSteps event;
       Sdk.prepareStep := prepareStep (opt_chatId opts) |}.

End WithRuntime.

End Agent.

(** A runtime for plain ASCII text: letters A to Z are lowered, and a JSON
    value is serialised without white space. *)
Module AsciiRuntime.

Definition lowerUnit (c : N) : N :=
  if ((65 <=? c) && (c <=? 90))%N then (c + 32)%N else c.

Definition quote (s : text) : text := [34%N] ++ s ++ [34%N].

Fixpoint stringify (j : json) : text :=
  match j with
  | JNull => lit "null"
  | JBool true => lit "true"
  | JBool false => lit "false"
  | JNum z => lit (pretty z)
  | JStr s => quote s
  | JArr items => lit "[" ++ join (lit ",") (map stringify items) ++ lit "]"
  | JObj fields =>
      lit "{"
      ++ join (lit ",")
           (map (fun kv => quote (fst kv) ++ lit ":" ++ stringify (snd kv))
                fields)
      ++ lit "}"
  end.

Definition runtime : Runtime :=
  {| toLowerCase := map lowerUnit; JSON_stringify := stringify |}.

End AsciiRuntime.

(** ** Notions used to state the properties *)

Module Notions.

Import State Agent.

(** The tail that [slice(-availableChars)] keeps of an over-long text. *)
Definition kept_tail (context : text) : text :=
  drop (Z.to_nat (Z.of_nat (length context) - 15935)) context.

(** The cursor of a state: [state.currentStepIndex ?? 0]. *)
Definition cursor (st : AgentState) : Z := default 0 (currentStepIndex st).

(** The bound on the number of rounds: [maxSteps = 5] by default. *)
Definition roundLimit (opts : CreateAgentOptions) : Z :=
  default 5 (maxSteps opts).

Definition reasoningOnly (opts : CreateAgentOptions) : bool :=
  default false (isReasoningModel opts).

Section WithRuntime.

Context `{Runtime}.

(** Whether the stored state of the conversation has a plan. *)
Definition hasPlan (chat : text) (w : World) : bool :=
  match store w !! chat with
  | Some st => match plan st with Some _ => true | None => false end
  | None => false
  end.

(** The calls the specification asks for in one round at index [i]: one
    [addToContext] per tool result and then, when the round has a result
    (and the state has a plan), one [completeCurrentStep]. *)
Definition spec_roundCalls (planned : bool) (chat : text) (i : nat)
  (r : StepResult) : list Call :=
  match toolResults r with
  | [] => []
  | results =>
      map (λ tr, CallAddToContext chat (contextKey i tr)
                   (JStr (resultSummary tr))) results
      ++ (if planned
          then [CallCompleteCurrentStep chat (executedSummary results)]
          else [])
  end.

Fixpoint spec_trackerCalls (planned : bool) (chat : text) (i : nat)
  (rounds : list StepResult) : list Call :=
  match rounds with
  | [] => []
  | r :: rest =>
      spec_roundCalls planned chat i r
      ++ spec_trackerCalls planned chat (S i) rest
  end.

Definition isCompletion (c : Call) : bool :=
  match c with
  | CallCompleteCurrentStep _ _ => true
  | CallAddToContext _ _ _ => false
  end.

Definition hasResults (r : StepResult) : bool :=
  match toolResults r with [] => false | _ => true end.

End WithRuntime.

End Notions.
Import Notions.

(** ** Sample data *)

Module PlanningExamples.

Import Planning.

Definition sample_uuid (n : nat) : text := lit "uuid-" ++ decimal n.

(** A reply that passes the schema and names a tool the agent does not
    have. *)
Definition reply_webExtract : Generation :=
  GenReply
    {| out_goal := lit "Collect the pages";
       out_steps :=
         [ {| out_description := lit "Extract the pages";
              out_tool := Some (lit "webExtract") |} ];
       out_reasoning := lit "One extraction is enough" |}.

(** A reply with a tool name outside the schema's enumeration. *)
Definition output_getWeather : PlanOutput :=
  {| out_goal := lit "Tell the weather";
     out_steps :=
       [ {| out_description := lit "Ask the weather service";
            out_tool := Some (lit "getWeather") |} ];
     out_reasoning := lit "One call is enough" |}.

Definition reply_getWeather : Generation := GenReply output_getWeather.

End PlanningExamples.

Module StateExamples.

(** The plan of the test script: three steps, none done. *)
Definition testPlan : AgentPlan :=
  {| goal := lit "Research and summarize AI trends";
     steps :=
       [ {| id := lit "s1"; description := lit "Search for information";
            tool := None; step_status := pending; step_result := None |};
         {| id := lit "s2"; description := lit "Analyze findings";
            tool := None; step_status := pending; step_result := None |};
         {| id := lit "s3"; description := lit "Create summary";
            tool := Some (lit "finalAnswer"); step_status := pending;
            step_result := None |} ];
     reasoning :=
       lit "Multi-step research task requires web search and analysis" |}.

Definition singleStepPlan : AgentPlan :=
  {| goal := lit "Answer the question";
     steps :=
       [ {| id := lit "s1"; description := lit "Answer";
            tool := Some (lit "finalAnswer"); step_status := pending;
            step_result := None |} ];
     reasoning := lit "One step is enough" |}.

Definition stateWith (p : option AgentPlan) (s : AgentStateStatus)
  (c : object) : AgentState :=
  {| chatId := lit "chat-1"; plan := p; currentStepIndex := Some 0;
     completedSteps := Some []; context := Some c; status := s |}.

Definition worldWith (st : AgentState) : State.World :=
  {| State.store := {[ lit "chat-1" := st ]};
     State.now := lit "2025-01-01T00:00:00.000Z" |}.

Definition emptyWorld : State.World :=
  {| State.store := ∅; State.now := lit "2025-01-01T00:00:00.000Z" |}.

(** An idle state that still carries a plan and a finding. *)
Definition idleState : AgentState :=
  stateWith (Some testPlan) idle [(lit "searchResults", JStr (lit "AI trend 1"))].

(** A state whose single finding has 17,000 characters. *)
Definition longState : AgentState :=
  stateWith None executing
    [(lit "notes", JStr (repeat 97%N (N.to_nat 17000)))].

End StateExamples.

Module AgentExamples.

(** A round that searches the web and fetches a page. *)
Definition searchRound : StepResult :=
  {| toolCalls :=
       [ {| call_toolName := lit "webSearch" |};
         {| call_toolName := lit "fetchUrl" |} ];
     toolResults :=
       [ {| toolName := lit "webSearch";
            result := Some (JStr (lit "found 5 articles"));
            asJson := JObj [(lit "toolName", JStr (lit "webSearch"))] |};
         {| toolName := lit "fetchUrl";
            result := Some (JObj [(lit "status", JNum 200)]);
            asJson := JObj [(lit "toolName", JStr (lit "fetchUrl"))] |} ];
     response := [] |}.

(** An engine that searches in every round and never gives a final
    answer. *)
Definition searchForever (_ : list Message) : StepResult := searchRound.

Definition defaults : Agent.CreateAgentOptions :=
  {| Agent.systemPrompt := lit "You are a helpful agent.";
     Agent.opt_chatId := None;
     Agent.isReasoningModel := None;
     Agent.maxSteps := None |}.

Definition plannedStart : Agent.Orchestrator :=
  Agent.start
    (StateExamples.worldWith
       (StateExamples.stateWith (Some StateExamples.testPlan) executing [])).

Definition unplannedStart : Agent.Orchestrator :=
  Agent.start
    (StateExamples.worldWith (StateExamples.stateWith None executing [])).


End AgentExamples.

(** ** Replanning ([lib/ai/planning.ts], continued) *)

Module Replanning.

Definition failureIndicators : list text :=
  [ lit "error"; lit "failed"; lit "not found"; lit "unable to";
    lit "could not" ].

Definition isPending (s : PlanStep) : bool :=
  match step_status s with
  | pending => true
  | done => false
  end.

Definition shouldReplan `{Runtime} (currentPlan : AgentPlan)
  (stepResult : text) : bool :=
  let lowerResult := toLowerCase stepResult in
  let hasFailed :=
    existsb (fun indicator => includes lowerResult indicator)
      failureIndicators in
  if hasFailed then
    let pendingSteps := List.filter isPending (steps currentPlan) in
    (0 <? length pendingSteps)%nat
  else false.

End Replanning.

(** ** The tools ([lib/ai/tools]) *)

Module Tools.

(** What a [catch] clause receives: an [Error] with its name and message,
    or some other value. *)
Inductive Thrown :=
| Err (name message : text)
| NotAnError.

(** [new URL(s)]: the parsed URL, of which only the path is used, or the
    message of the [TypeError] it throws. *)
Record URL := {
  pathname : text;
}.

Class Platform := {
  newURL : text → text + URL;
}.

Definition validURL `{Platform} (s : text) : bool :=
  match newURL s with
  | inr _ => true
  | inl _ => false
  end.

Module FinalAnswer.

Inductive Confidence := high | medium | low.

Record Output := {
  answer : text;
  sources : option (list text);
  confidence : Confidence;
  completed : bool;
}.

(** The [forEach] that appends one numbered line per source. *)
Fixpoint appendSources (index : nat) (formattedAnswer : text)
  (l : list text) : text :=
  match l with
  | [] => formattedAnswer
  | source :: l' =>
      appendSources (S index)
        (formattedAnswer ++ decimal (index + 1) ++ lit ". " ++ source
         ++ [10%N])
        l'
  end.

Definition execute `{Platform} (answer : text) (sources : option (list text))
  (confidence : option Confidence) : Output :=
  let confidence := default high confidence in
  let validatedSources :=
    match sources with
    | Some l => List.filter validURL l
    | None => []
    end in
  let formattedAnswer := answer in
  let formattedAnswer :=
    match validatedSources with
    | [] => formattedAnswer
    | _ :: _ =>
        appendSources 0
          (formattedAnswer ++ [10%N; 10%N] ++ lit "**Sources:**" ++ [10%N])
          validatedSources
    end in
  let formattedAnswer :=
    match confidence with
    | medium =>
        formattedAnswer ++ [10%N; 10%N]
        ++ lit "*Note: This answer is based on partially available information.*"
    | low =>
        formattedAnswer ++ [10%N; 10%N]
        ++ lit "*Note: This answer is based on limited available information. Further research may be needed.*"
    | high => formattedAnswer
    end in
  {| answer := formattedAnswer;
     sources :=
       match validatedSources with
       | [] => None
       | _ :: _ => Some validatedSources
       end;
     confidence := confidence;
     completed := true |}.

End FinalAnswer.

Module FetchUrl.

(** The response of [fetch], as far as [execute] reads it; reading the
    body may throw. *)
Record Response := {
  ok : bool;
  status : nat;
  statusText : text;
  contentType : option text;
  body : Thrown + text;
}.

(** The network, and the three extraction helpers of the file. The helpers
    work by regular expressions, which are not modelled: [execute] is
    given them, and its guards and limits hold whatever they return. *)
Class Net := {
  fetch : text → Thrown + Response;
  htmlToText : text → text;
  extractMainContent : text → text;
  extractTitle : text → text;
}.

Inductive Result :=
| Failure (error code : text) (statusCode : option nat)
| Success (title content url extractedAt : text) (contentLength : nat).

Definition suspiciousPaths : list text :=
  [ lit "/admin"; lit "/login"; lit "/.env"; lit "/config" ].

Definition maxLength : nat := Z.to_nat 10000.

Definition truncationNote : text := [10%N; 10%N] ++ lit "[Content truncated...]".

(** The codes of the failures, for reference in the properties. *)
Definition fetchCodes : list text :=
  [ lit "FORBIDDEN_PATH"; lit "NOT_FOUND"; lit "HTTP_ERROR";
    lit "UNSUPPORTED_CONTENT_TYPE"; lit "TIMEOUT"; lit "FETCH_FAILED";
    lit "UNKNOWN_ERROR" ].

(** The [catch] clause. *)
Definition caught (error : Thrown) : Result :=
  match error with
  | Err name message =>
      if bool_decide (name = lit "AbortError") then
        Failure
          (lit "Request timeout - the URL took too long to respond (max 10 seconds)")
          (lit "TIMEOUT") None
      else
        Failure (lit "Failed to fetch URL: " ++ message) (lit "FETCH_FAILED")
          None
  | NotAnError =>
      Failure (lit "Failed to fetch URL: Unknown error") (lit "UNKNOWN_ERROR")
        None
  end.

Definition execute `{Platform} `{Net} (url : text)
  (shouldExtractMain : option bool) (now : text) : Result :=
  match newURL url with
  | inl message => caught (Err (lit "TypeError") message)
  | inr urlObj =>
      if existsb (fun path => includes (pathname urlObj) path) suspiciousPaths
      then
        Failure (lit "Cannot fetch URLs from potentially sensitive paths")
          (lit "FORBIDDEN_PATH") None
      else
        match fetch url with
        | inl error => caught error
        | inr response =>
            if negb (ok response) then
              Failure
                (lit "Failed to fetch URL: " ++ decimal (status response)
                 ++ lit " " ++ statusText response)
                (if (status response =? 404)%nat then lit "NOT_FOUND"
                 else lit "HTTP_ERROR")
                (Some (status response))
            else
              let contentType := default [] (contentType response) in
              if negb (includes contentType (lit "text/html"))
                 && negb (includes contentType (lit "text/plain"))
              then
                Failure
                  (lit "Unsupported content type: " ++ contentType
                   ++ lit ". Only HTML and plain text are supported.")
                  (lit "UNSUPPORTED_CONTENT_TYPE") None
              else
                match body response with
                | inl error => caught error
                | inr html =>
                    let title := extractTitle html in
                    let content :=
                      if default true shouldExtractMain
                      then extractMainContent html
                      else htmlToText html in
                    let content :=
                      if (maxLength <? length content)%nat
                      then take maxLength content ++ truncationNote
                      else content in
                    Success title content url now (length content)
                end
        end
  end.

End FetchUrl.

Module WebSearch.

Record TavilySearchResult := {
  title : text;
  url : text;
  content : text;
  published_date : option text;
}.

(** The body of the request to the search API. *)
Record Request := {
  api_key : text;
  query : text;
  max_results : Z;
}.

(** The response of the search API: reading its text or its JSON may
    throw, and the JSON may lack [results]. *)
Record Response := {
  ok : bool;
  status : nat;
  statusText : text;
  responseText : Thrown + text;
  json : Thrown + option (list TavilySearchResult);
}.

Class Net := {
  fetch : Request → Thrown + Response;
}.

Record Hit := {
  hit_title : text;
  hit_url : text;
  snippet : text;
  publishedDate : option text;
}.

Inductive Result :=
| Failure (error code : text) (details : option text)
| NoResults (message : text)
| Found (results : list Hit) (query : text) (count : nat).

Definition caught (error : Thrown) : Result :=
  Failure
    (lit "Failed to perform web search: "
     ++ match error with
        | Err _ message => message
        | NotAnError => lit "Unknown error"
        end)
    (lit "SEARCH_FAILED") None.

Definition request (apiKey query : text) (maxResults : Z) : Request :=
  {| api_key := apiKey; query := query; max_results := Z.min maxResults 10 |}.

Definition execute `{Net} (env_TAVILY_API_KEY : option text) (query : text)
  (maxResults : option Z) : Result :=
  let maxResults := default 5 maxResults in
  match State.truthy env_TAVILY_API_KEY with
  | None =>
      Failure
        (lit "Web search is not configured. Please set TAVILY_API_KEY in your environment variables.")
        (lit "MISSING_API_KEY") None
  | Some apiKey =>
      match fetch (request apiKey query maxResults) with
      | inl error => caught error
      | inr response =>
          if negb (ok response) then
            match responseText response with
            | inl error => caught error
            | inr errorText =>
                Failure
                  (lit "Search API returned error: "
                   ++ decimal (status response) ++ lit " "
                   ++ statusText response)
                  (lit "API_ERROR") (Some errorText)
            end
          else
            match json response with
            | inl error => caught error
            | inr None | inr (Some []) =>
                NoResults
                  (lit "No results found for query: " ++ [34%N] ++ query
                   ++ [34%N])
            | inr (Some data_results) =>
                let results :=
                  map (fun result =>
                         {| hit_title := title result;
                            hit_url := url result;
                            snippet := content result;
                            publishedDate := published_date result |})
                      data_results in
                Found results query (length results)
            end
      end
  end.

End WebSearch.

Module AnalyzeContent.

Inductive AnalysisType := summarize | extract_facts | find_answers.

(** The white space and line terminators that [trim] removes. *)
Definition isWhiteSpace (c : N) : bool :=
  ((c =? 9) || (c =? 10) || (c =? 11) || (c =? 12) || (c =? 13) || (c =? 32)
   || (c =? 160) || (c =? 5760) || ((8192 <=? c) && (c <=? 8202))
   || (c =? 8232) || (c =? 8233) || (c =? 8239) || (c =? 8287)
   || (c =? 12288) || (c =? 65279))%N.

Fixpoint trimStart (s : text) : text :=
  match s with
  | c :: s' => if isWhiteSpace c then trimStart s' else s
  | [] => []
  end.

Definition trim (s : text) : text := rev (trimStart (rev (trimStart s))).

(** [s.split("\n")]: always at least one piece. *)
Fixpoint splitLines (s : text) : list text :=
  match s with
  | [] => [[]]
  | c :: s' =>
      if (c =? 10)%N then [] :: splitLines s'
      else
        match splitLines s' with
        | line :: rest => (c :: line) :: rest
        | [] => [[c]]
        end
  end.

Class Model := {
  generateText : text → text → Thrown + text;
}.

Record Analysis := {
  analysis : text;
  keyPoints : option (list text);
  analysisType : AnalysisType;
  query : option text;
  confidence : text;
}.

Inductive Result :=
| Failure (error code : text)
| Done (a : Analysis).

Definition systemPrompt (t : AnalysisType) : text :=
  match t with
  | summarize =>
      lit "You are a helpful assistant that creates concise, accurate summaries. Focus on the main points and key information."
  | extract_facts =>
      lit "You are a helpful assistant that extracts key facts, data points, and important information from text. Present information in a structured, easy-to-read format."
  | find_answers =>
      lit "You are a helpful assistant that finds specific information in text to answer questions. Be precise and cite relevant information from the content."
  end.

Definition userPrompt (t : AnalysisType) (content query : text) : text :=
  match t with
  | summarize =>
      lit "Please provide a clear, concise summary of the following content:"
      ++ [10%N; 10%N] ++ content
  | extract_facts =>
      lit "Please extract the key facts, data points, and important information from the following content. Present them in a clear, structured format:"
      ++ [10%N; 10%N] ++ content
  | find_answers =>
      lit "Based on the following content, please answer this question: "
      ++ [34%N] ++ query ++ [34%N] ++ [10%N; 10%N] ++ lit "Content:"
      ++ [10%N] ++ content ++ [10%N; 10%N]
      ++ lit "If the content doesn't contain information to answer the question, clearly state that."
  end.

Definition execute `{Model} (content : text) (analysisType : AnalysisType)
  (query : option text) : Result :=
  match analysisType, State.truthy query with
  | find_answers, None =>
      Failure
        (lit "Query parameter is required when analysisType is 'find_answers'")
        (lit "MISSING_QUERY")
  | _, _ =>
      match generateText (systemPrompt analysisType)
              (userPrompt analysisType content
                 (default (lit "undefined") query)) with
      | inl error =>
          Failure
            (lit "Failed to analyze content: "
             ++ match error with
                | Err _ message => message
                | NotAnError => lit "Unknown error"
                end)
            (lit "ANALYSIS_FAILED")
      | inr result_text =>
          let keyPoints :=
            take 5
              (List.filter (fun line => (0 <? length (trim line))%nat)
                 (splitLines result_text)) in
          Done {| analysis := result_text;
                  keyPoints :=
                    match keyPoints with
                    | [] => None
                    | _ :: _ => Some keyPoints
                    end;
                  analysisType := analysisType;
                  query := State.truthy query;
                  confidence := lit "high" |}
      end
  end.

End AnalyzeContent.

End Tools.

(** ** The chat route ([app/(chat)/api/chat/route.ts], planning part) *)

Module Route.

Import State Agent.

Inductive MessageRole := userRole | otherRole.

(** A part of a message: text, or anything else. *)
Inductive Part :=
| TextPart (t : text)
| OtherPart.

Record UserMessage := {
  message_role : MessageRole;
  parts : list Part;
}.

Definition isReasoningModel (selectedChatModel : text) : bool :=
  includes selectedChatModel (lit "reasoning")
  || includes selectedChatModel (lit "thinking").

(** The texts of the text parts, joined by a space. *)
Definition userContent (m : UserMessage) : text :=
  join (lit " ")
    (omap (fun p => match p with TextPart t => Some t | OtherPart => None end)
       (parts m)).

(** What the planning part works on: the store, the stream, the number of
    identifiers handed out, and the faults of the store calls to come. *)
Record Server := {
  server_world : World;
  server_written : list StreamPart;
  server_ids : nat;
  server_faults : Faults;
}.

Definition server_write (p : StreamPart) (sv : Server) : Server :=
  {| server_world := server_world sv;
     server_written := server_written sv ++ [p];
     server_ids := server_ids sv;
     server_faults := server_faults sv |}.

Section WithRuntime.

Context `{Runtime}.
Variable generateUUID : nat → text.

(** The [try] block of the planning part, and what it leaves behind when
    it throws.  [createPlan] catches what its generation call throws, so
    what can throw here is the awaited [updatePlan]: the store is then as
    it was, and the two writes after it are not reached. *)
Definition tryPlan (id userContent : text) (g : Planning.Generation)
  (sv : Server) : Server :=
  let sv1 := server_write (DataAgentStatus planning) sv in
  let '(plan, ids) :=
    Planning.createPlan generateUUID (server_ids sv1) userContent g in
  if throwsNext (server_faults sv1) then
    {| server_world := server_world sv1;
       server_written := server_written sv1;
       server_ids := ids;
       server_faults := tail (server_faults sv1) |}
  else
    server_write (DataAgentStatus executing)
      (server_write (DataAgentPlan plan)
         {| server_world := snd (updatePlan id plan (server_world sv1));
            server_written := server_written sv1;
            server_ids := ids;
            server_faults := tail (server_faults sv1) |}).

(** The block "For non-reasoning models, check if we need to create a
    plan" of [POST]; [g] is the outcome of the generation call of
    [createPlan].  The [catch] logs and goes on without a plan, so the
    block ends with the server as the [try] block left it. *)
Definition planIfNeeded (id selectedChatModel : text)
  (message : option UserMessage) (isToolApprovalFlow : bool)
  (g : Planning.Generation) (sv : Server) : Server :=
  match message with
  | Some m =>
      if negb (isReasoningModel selectedChatModel)
         && match message_role m with userRole => true | otherRole => false end
         && negb isToolApprovalFlow
      then
        if Planning.shouldCreatePlan (userContent m) then
          tryPlan id (userContent m) g sv
        else sv
      else sv
  | None => sv
  end.

(** The options [POST] creates the agent with. *)
Definition agentOptions (id selectedChatModel systemPrompt : text)
  : CreateAgentOptions :=
  {| Agent.systemPrompt := systemPrompt;
     opt_chatId := Some id;
     Agent.isReasoningModel := Some (isReasoningModel selectedChatModel);
     maxSteps := Some 5 |}.

(** The orchestrator of the agent [POST] then creates: the counter of the
    new closure is 0, and the store is the one the planning part left. *)
Definition agentStart (sv : Server) : Orchestrator :=
  startWith (server_faults sv) (server_world sv).

End WithRuntime.

End Route.

(** ** Further notions *)

Module Lifecycle.

Import State.

(** The code units of the decimal digits. *)
Definition digit (c : N) : Prop := (48 ≤ c ≤ 57)%N.

(** [x] occurs in [s] as a contiguous run. *)
Definition occurs_in (x s : text) : Prop := ∃ pre post, s = pre ++ x ++ post.

(** The conversation [chat] is the only one whose state differs between
    the two worlds, and it has a state in both or in neither. *)
Definition only_touches (chat : text) (w w' : World) : Prop :=
  (∀ c, c ≠ chat → store w' !! c = store w !! c)
  ∧ (store w' !! chat = None ↔ store w !! chat = None)
  ∧ now w' = now w.

(** The cursor of a state with a plan lies between 0 and the number of
    steps. *)
Definition cursor_in_plan (st : AgentState) : Prop :=
  match plan st with
  | Some p => 0 ≤ cursor st ≤ Z.of_nat (length (steps p))
  | None => True
  end.

(** From [st] to [st']: the plan, if any, keeps its goal, its reasoning and
    the ids and descriptions of its steps in order; the cursor does not go
    back, and stays within the plan if it was. *)
Definition advances (st st' : AgentState) : Prop :=
  match plan st, plan st' with
  | None, None => True
  | Some p, Some p' =>
      goal p' = goal p ∧ reasoning p' = reasoning p
      ∧ map id (steps p') = map id (steps p)
      ∧ map description (steps p') = map description (steps p)
      ∧ cursor st ≤ cursor st'
      ∧ (cursor_in_plan st → cursor_in_plan st')
  | _, _ => False
  end.

(** From [w] to [w']: only [chat] is touched, and its state advances. *)
Definition progresses (chat : text) (w w' : World) : Prop :=
  only_touches chat w w'
  ∧ ∀ st, store w !! chat = Some st →
      ∃ st', store w' !! chat = Some st' ∧ advances st st'.

(** Calling [completeCurrentStep] once per result, in order. *)
Definition completeEach (chat : text) (results : list text) (w : World)
  : World :=
  foldl (λ w result, snd (completeCurrentStep chat result w)) w results.

(** The log entry written for a step and its result at time [t]. *)
Definition logEntry (t : text) (step : PlanStep) (result : text)
  : CompletedStep :=
  {| stepId := id step; cs_description := description step;
     cs_result := result; timestamp := t |}.

End Lifecycle.
Import Lifecycle.

Module RunNotions.

Import State Agent.

(** What every call inside [prepareStep] keeps, whether it returns or
    throws: the stores are in step, nothing is written to the stream, the
    counter stays, a store without faults to come stays so, and the calls
    made so far stay in the record. *)
Definition keeps (chat : text) (o o' : Orchestrator) : Prop :=
  progresses chat (world o) (world o')
  ∧ written o' = written o
  ∧ lastProcessedStepCount o' = lastProcessedStepCount o
  ∧ (noThrow (faults o) = true → noThrow (faults o') = true)
  ∧ calls o `prefix_of` calls o'.

Section WithRuntime.

Context `{Runtime}.

(** What holds of the orchestrator between two rounds of the agent with
    tools: every round but the last one has been recorded. *)
Definition recorded (chat : text) (w0 : World) (steps : list StepResult)
  (o : Orchestrator) : Prop :=
  lastProcessedStepCount o = pred (length steps)
  ∧ calls o
    = spec_trackerCalls (hasPlan chat w0) chat 0 (take (pred (length steps)) steps)
  ∧ hasPlan chat (world o) = hasPlan chat w0
  ∧ progresses chat w0 (world o).

End WithRuntime.

End RunNotions.
Import RunNotions.

Module ToolExamples.

Import Tools.

(** A platform that accepts the URLs of one host. *)
Definition platform : Platform :=
  {| newURL := fun s =>
       if startsWith s (lit "https://example.com")
       then inr {| pathname := drop 19 s |}
       else inl (lit "Invalid URL") |}.

(** A network that answers every request with one small HTML page, and
    extraction helpers that leave the text as it is. *)
Definition pages : FetchUrl.Net :=
  {| FetchUrl.fetch := fun _ =>
       inr {| FetchUrl.ok := true; FetchUrl.status := 200;
              FetchUrl.statusText := lit "OK";
              FetchUrl.contentType := Some (lit "text/html; charset=utf-8");
              FetchUrl.body := inr (lit "Hello") |};
     FetchUrl.htmlToText := fun html => html;
     FetchUrl.extractMainContent := fun html => html;
     FetchUrl.extractTitle := fun _ => lit "Untitled" |}.

(** A search API with one result for every query. *)
Definition search : WebSearch.Net :=
  {| WebSearch.fetch := fun _ =>
       inr {| WebSearch.ok := true; WebSearch.status := 200;
              WebSearch.statusText := lit "OK";
              WebSearch.responseText := inr [];
              WebSearch.json :=
                inr (Some [ {| WebSearch.title := lit "Rocq";
                               WebSearch.url := lit "https://example.com/rocq";
                               WebSearch.content := lit "A proof assistant";
                               WebSearch.published_date := None |} ]) |} |}.

(** A model that answers with two lines separated by an empty one. *)
Definition model : AnalyzeContent.Model :=
  {| AnalyzeContent.generateText := fun _ _ =>
       inr (lit "First point" ++ [10%N; 10%N] ++ lit "Second point") |}.

End ToolExamples.

Module RouteExamples.

Definition longRequest : Route.UserMessage :=
  {| Route.message_role := Route.userRole;
     Route.parts :=
       [ Route.TextPart
           (lit "Please research the history of proof assistants");
         Route.OtherPart;
         Route.TextPart (lit "and then report") ] |}.

Definition server : Route.Server :=
  {| Route.server_world := StateExamples.worldWith StateExamples.idleState;
     Route.server_written := [];
     Route.server_ids := 0;
     Route.server_faults := [] |}.

(** The same server with a store whose next call throws. *)
Definition failingServer : Route.Server :=
  {| Route.server_world := StateExamples.worldWith StateExamples.idleState;
     Route.server_written := [];
     Route.server_ids := 0;
     Route.server_faults := [true] |}.

End RouteExamples.

(** * Properties *)

(** ** Text *)

Section TextFacts.

Lemma startsWith_prefix (s t : text) :
  startsWith s t = true ↔ t `prefix_of` s.
Proof.
  revert s; induction t as [|c t IH]; intros s; simpl.
  - split; [intros _; apply prefix_nil | done].
  - destruct s as [|d s].
    + split; [done | intros Hp; by apply prefix_nil_inv in Hp].
    + destruct (N.eqb_spec c d) as [->|Hne].
      * rewrite IH. split; [apply prefix_cons | apply prefix_cons_inv_2].
      * split; [done | intros Hp; by apply prefix_cons_inv_1 in Hp].
Qed.

(** [includes] finds exactly the contiguous occurrences. *)
Lemma includes_occurs (s t : text) :
  includes s t = true ↔ ∃ pre post, s = pre ++ t ++ post.
Proof.
  induction s as [|d s IH].
  - simpl. rewrite orb_false_r, startsWith_prefix. split.
    + intros [post ->]. by exists [], post.
    + intros (pre & post & Heq). symmetry in Heq.
      apply app_eq_nil in Heq as [-> Heq].
      apply app_eq_nil in Heq as [-> ->]. apply prefix_nil.
  - cbn [includes]. rewrite orb_true_iff, startsWith_prefix, IH. split.
    + intros [[post ->] | (pre & post & ->)].
      * by exists [], post.
      * by exists (d :: pre), post.
    + intros (pre & post & Heq). destruct pre as [|e pre].
      * left. exists post. exact Heq.
      * right. injection Heq as -> ->. by exists pre, post.
Qed.

Lemma join_cons_cons (sep p q : text) (l : list text) :
  join sep (p :: q :: l) = p ++ sep ++ join sep (q :: l).
Proof. reflexivity. Qed.

(** A joined list starts with its first part and ends with its last. *)
Lemma join_prefix (sep p : text) (l : list text) :
  p `prefix_of` join sep (p :: l).
Proof. destruct l; simpl; [done | by apply prefix_app_r]. Qed.

Lemma join_suffix (sep : text) (l : list text) (q : text) :
  q `suffix_of` join sep (l ++ [q]).
Proof.
  induction l as [|p l IH]; [done|].
  change ((p :: l) ++ [q]) with (p :: (l ++ [q])).
  destruct (l ++ [q]) as [|r m] eqn:E; [by destruct l|].
  rewrite join_cons_cons. by do 2 apply suffix_app_r.
Qed.

End TextFacts.

(** ** Plan trigger heuristic and plan generator *)

Section PlanningFacts.

Import Planning.

Variable generateUUID : nat → text.

Lemma convertSteps_tools (n : nat) (l : list StepOutput) :
  map tool (fst (convertSteps generateUUID n l)) = map out_tool l.
Proof.
  revert n; induction l as [|s l IH]; intros n; [done|].
  cbn [convertSteps]. specialize (IH (S n)).
  destruct (convertSteps generateUUID (S n) l) as [rest n'].
  simpl in *. by rewrite IH.
Qed.

Lemma convertSteps_length (n : nat) (l : list StepOutput) :
  length (fst (convertSteps generateUUID n l)) = length l.
Proof.
  rewrite <- (length_map tool), convertSteps_tools. apply length_map.
Qed.

Lemma convertToPlan_steps (n : nat) (o : PlanOutput) :
  steps (fst (convertToPlan generateUUID n o))
  = fst (convertSteps generateUUID n (out_steps o)).
Proof.
  unfold convertToPlan. by destruct (convertSteps generateUUID n (out_steps o)).
Qed.

Lemma PlanSchema_inv (o : PlanOutput) :
  PlanSchema o = true →
  (1 ≤ length (out_steps o) ≤ 7)%nat
  ∧ ∀ s, s ∈ out_steps o → PlanStepSchema s = true.
Proof.
  unfold PlanSchema. rewrite !andb_true_iff, forallb_forall.
  intros [[Hall Hmin] Hmax].
  apply Nat.leb_le in Hmin. apply Nat.leb_le in Hmax.
  split; [lia|]. intros s Hs. apply Hall. by apply list_elem_of_In.
Qed.

(** C7. When the structured-generation call fails (the call itself, or the
    parse of its reply against the schema), [createPlan] returns the
    fallback plan: two pending steps, the first without a tool, the second
    with the tool finalAnswer, and a reasoning that says it is a fallback.
    Every plan [createPlan] returns has from 1 to 7 steps. *)
Theorem createPlan_fallback_and_size (n : nat) (task : text) (g : Generation) :
  (generateObject g = None →
   fst (createPlan generateUUID n task g)
   = {| goal := task;
        steps :=
          [ {| id := generateUUID n;
               description := lit "Analyze the request and gather information";
               tool := None; step_status := pending; step_result := None |};
            {| id := generateUUID (S n);
               description := lit "Provide comprehensive response";
               tool := Some (lit "finalAnswer");
               step_status := pending; step_result := None |} ];
        reasoning := lit "Fallback plan due to planning error" |})
  ∧ (1 ≤ length (steps (fst (createPlan generateUUID n task g))) ≤ 7)%nat.
Proof.
  unfold createPlan. split.
  - intros ->. reflexivity.
  - destruct g as [|o]; simpl; [lia|].
    destruct (PlanSchema o) eqn:Hs; [|simpl; lia].
    rewrite convertToPlan_steps, convertSteps_length.
    by apply PlanSchema_inv in Hs as [? _].
Qed.

(** C5, as the code has it. Every step of a plan returned by [createPlan]
    has no tool or one of the seven names of the schema's enumeration
    (fetchUrl, webSearch, webExtract, analyzeContent, createDocument,
    updateDocument, finalAnswer); a reply that carries any other tool name
    fails the schema, and [createPlan] returns the fallback plan. *)
Theorem createPlan_tools_in_schema (n : nat) (task : text) (g : Generation) :
  (∀ step, step ∈ steps (fst (createPlan generateUUID n task g)) →
     tool step = None
     ∨ ∃ t, tool step = Some t ∧ t ∈ PlanStepSchema_tools)
  ∧ (∀ o s t, g = GenReply o → s ∈ out_steps o → out_tool s = Some t →
       t ∉ PlanStepSchema_tools →
       createPlan generateUUID n task g
       = createFallbackPlan generateUUID n task).
Proof.
  split.
  - intros step Hstep. unfold createPlan in Hstep.
    destruct (generateObject g) as [o|] eqn:Hg.
    + destruct g as [|o']; [done|]. simpl in Hg.
      destruct (PlanSchema o') eqn:Hs; [|done]. injection Hg as <-.
      apply PlanSchema_inv in Hs as [_ Hall].
      rewrite convertToPlan_steps in Hstep.
      assert (tool step ∈ map out_tool (out_steps o')) as Hin.
      { rewrite <- (convertSteps_tools n). by apply list_elem_of_fmap_2. }
      apply list_elem_of_fmap in Hin as (s & Heq & Hs).
      specialize (Hall s Hs). unfold PlanStepSchema in Hall.
      rewrite Heq. destruct (out_tool s) as [t|]; [|by left].
      right. exists t. split; [done|]. by apply bool_decide_eq_true in Hall.
    + simpl in Hstep. apply elem_of_cons in Hstep as [-> | Hstep]; [by left|].
      apply list_elem_of_singleton in Hstep as ->. simpl.
      right. eexists. split; [done|]. unfold PlanStepSchema_tools. set_solver.
  - intros o s t -> Hs Ht Hnot. unfold createPlan. simpl.
    destruct (PlanSchema o) eqn:Hok; [|done].
    apply PlanSchema_inv in Hok as [_ Hall].
    specialize (Hall s Hs). unfold PlanStepSchema in Hall. rewrite Ht in Hall.
    by apply bool_decide_eq_true in Hall.
Qed.

End PlanningFacts.

Lemma createPlan_fallback_and_size_witness :
  Planning.generateObject Planning.GenError = None
  ∧ reasoning
      (fst (Planning.createPlan PlanningExamples.sample_uuid 0
              (lit "plan a trip") Planning.GenError))
    = lit "Fallback plan due to planning error".
Proof.
  split; [reflexivity|].
  rewrite (proj1 (createPlan_fallback_and_size PlanningExamples.sample_uuid 0
                    (lit "plan a trip") Planning.GenError));
    reflexivity.
Defined.

(** C5, as stated, fails: the schema accepts the tool name webExtract, which
    is not among the agent's tools, and [convertToPlan] keeps it. *)
Lemma createPlan_keeps_webExtract :
  ¬ (∀ step,
       step ∈ steps (fst (Planning.createPlan PlanningExamples.sample_uuid 0
                            (lit "collect the pages")
                            PlanningExamples.reply_webExtract)) →
       tool step = None ∨ ∃ t, tool step = Some t ∧ t ∈ agentTools).
Proof.
  intros Hall.
  destruct (Hall {| id := PlanningExamples.sample_uuid 0;
                    description := lit "Extract the pages";
                    tool := Some (lit "webExtract");
                    step_status := pending; step_result := None |})
    as [Hnone | (t & Ht & Hin)].
  - vm_compute. apply list_elem_of_here.
  - discriminate Hnone.
  - injection Ht as <-. revert Hin. apply (bool_decide_unpack _). by vm_compute.
Qed.

Lemma createPlan_tools_in_schema_witness :
  (tool {| id := PlanningExamples.sample_uuid 0;
           description := lit "Extract the pages";
           tool := Some (lit "webExtract");
           step_status := pending; step_result := None |} = None
   ∨ ∃ t, Some (lit "webExtract") = Some t ∧ t ∈ Planning.PlanStepSchema_tools)
  ∧ Planning.createPlan PlanningExamples.sample_uuid 0 (lit "weather")
      PlanningExamples.reply_getWeather
    = Planning.createFallbackPlan PlanningExamples.sample_uuid 0 (lit "weather").
Proof.
  split.
  - apply (proj1 (createPlan_tools_in_schema PlanningExamples.sample_uuid 0
                    (lit "collect the pages")
                    PlanningExamples.reply_webExtract)).
    vm_compute. apply list_elem_of_here.
  - apply (proj2 (createPlan_tools_in_schema PlanningExamples.sample_uuid 0
                    (lit "weather") PlanningExamples.reply_getWeather)
             PlanningExamples.output_getWeather
             {| Planning.out_description := lit "Ask the weather service";
                  Planning.out_tool := Some (lit "getWeather") |}
             (lit "getWeather")).
    + reflexivity.
    + vm_compute. apply list_elem_of_here.
    + reflexivity.
    + apply (bool_decide_unpack _). by vm_compute.
Defined.

Section HeuristicFacts.

Import Planning.
Context `{Runtime}.

(** C6, as the code has it. [shouldCreatePlan] is a function of the task
    alone; it is false for every task shorter than 50 characters; for a task
    of 50 characters or more it is true exactly when the lower-cased task
    contains one of the fixed indicators. It is false for the task
    "research and summarize AI trends", which has 32 characters, and false
    for "hi". *)
Theorem shouldCreatePlan_policy (task : text) :
  ((length task < 50)%nat → shouldCreatePlan task = false)
  ∧ ((50 ≤ length task)%nat →
     (shouldCreatePlan task = true ↔
      ∃ indicator pre post,
        indicator ∈ complexIndicators
        ∧ toLowerCase task = pre ++ indicator ++ post))
  ∧ length (lit "research and summarize AI trends") = 32%nat
  ∧ shouldCreatePlan (lit "research and summarize AI trends") = false
  ∧ shouldCreatePlan (lit "hi") = false.
Proof.
  unfold shouldCreatePlan. split; [|split; [|done]].
  - intros Hlt. apply Nat.ltb_lt in Hlt. by rewrite Hlt.
  - intros Hge. apply Nat.ltb_ge in Hge as ->. rewrite existsb_exists. split.
    + intros (indicator & Hin & Hinc).
      apply includes_occurs in Hinc as (pre & post & Heq).
      exists indicator, pre, post. split; [by apply list_elem_of_In | done].
    + intros (indicator & pre & post & Hin & Heq). exists indicator.
      split; [by apply list_elem_of_In|]. apply includes_occurs. eauto.
Qed.

End HeuristicFacts.

(** C6, as stated, fails: "research and summarize AI trends" is under the
    length threshold, so no plan is made for it. *)
Lemma shouldCreatePlan_scenario_A :
  @Planning.shouldCreatePlan AsciiRuntime.runtime
    (lit "research and summarize AI trends") ≠ true.
Proof. by vm_compute. Qed.

Lemma shouldCreatePlan_policy_witness :
  (length (lit "hi") < 50)%nat
  ∧ (50 ≤ length (lit "Please Research the history of proof assistants and THEN report"))%nat
  ∧ @Planning.shouldCreatePlan AsciiRuntime.runtime (lit "hi") = false
  ∧ ∃ indicator pre post,
      indicator ∈ Planning.complexIndicators
      ∧ @toLowerCase AsciiRuntime.runtime
          (lit "Please Research the history of proof assistants and THEN report")
        = pre ++ indicator ++ post.
Proof.
  assert (length (lit "hi") < 50)%nat as Hshort by (vm_compute; lia).
  assert (50 ≤ length (lit "Please Research the history of proof assistants and THEN report"))%nat
    as Hlong by (vm_compute; lia).
  split; [exact Hshort|]. split; [exact Hlong|]. split.
  - exact (proj1 (@shouldCreatePlan_policy AsciiRuntime.runtime (lit "hi")) Hshort).
  - apply (proj1 (proj2 (@shouldCreatePlan_policy AsciiRuntime.runtime
                           (lit "Please Research the history of proof assistants and THEN report")))
             Hlong).
    by vm_compute.
Defined.

(** ** State context formatter *)

Section FormatterFacts.

Import State.
Context `{Runtime}.

Lemma truncation_header_length : Z.of_nat (length truncation_header) = 50.
Proof. reflexivity. Qed.

Lemma truncation_footer_length : Z.of_nat (length truncation_footer) = 15.
Proof. reflexivity. Qed.

Lemma truncation_header_tag :
  lit "<agent_state>" `prefix_of` truncation_header.
Proof. unfold truncation_header. by apply prefix_app_r. Qed.

Lemma truncation_footer_tag :
  lit "</agent_state>" `suffix_of` truncation_footer.
Proof. by exists [10%N]. Qed.

Lemma parts_snoc (st : AgentState) :
  parts st
  = (lit "<agent_state>"
       :: planSection st ++ contextSection st ++ completedSection st)
    ++ [lit "</agent_state>"].
Proof. unfold parts. simpl. by rewrite <- !app_assoc. Qed.

Lemma formatted_prefix (st : AgentState) :
  lit "<agent_state>" `prefix_of` formatted st.
Proof. unfold formatted, parts. apply join_prefix. Qed.

Lemma formatted_suffix (st : AgentState) :
  lit "</agent_state>" `suffix_of` formatted st.
Proof. unfold formatted. rewrite parts_snoc. apply join_suffix. Qed.

Lemma truncateContext_over (context : text) :
  MAX_CONTEXT_CHARS < Z.of_nat (length context) →
  truncateContext context MAX_CONTEXT_CHARS
  = truncation_header ++ kept_tail context ++ truncation_footer.
Proof.
  unfold MAX_CONTEXT_CHARS, truncateContext, kept_tail. intros Hlong.
  destruct (Z.leb_spec (Z.of_nat (length context)) 16000) as [?|_]; [lia|].
  rewrite truncation_header_length, truncation_footer_length.
  cbv zeta. do 2 f_equal. unfold slice_from.
  change (- (16000 - 50 - 15)) with (-15935).
  change (-15935 <? 0) with true. cbv iota.
  f_equal. lia.
Qed.

Lemma kept_tail_length (context : text) :
  MAX_CONTEXT_CHARS < Z.of_nat (length context) →
  Z.of_nat (length (kept_tail context)) = 15935.
Proof.
  unfold MAX_CONTEXT_CHARS, kept_tail. intros Hlong. rewrite length_drop. lia.
Qed.

Lemma kept_tail_closing_tag (context tag : text) :
  MAX_CONTEXT_CHARS < Z.of_nat (length context) →
  Z.of_nat (length tag) ≤ 15935 →
  tag `suffix_of` context → tag `suffix_of` kept_tail context.
Proof.
  unfold MAX_CONTEXT_CHARS, kept_tail. intros Hlong Htag [k ->].
  rewrite length_app in *. rewrite drop_app_le by lia. by apply suffix_app_r.
Qed.

Lemma formatStateContext_active (st : AgentState) :
  status st ≠ idle →
  formatStateContext (Some st)
  = if MAX_CONTEXT_CHARS <? Z.of_nat (length (formatted st))
    then truncateContext (formatted st) MAX_CONTEXT_CHARS
    else formatted st.
Proof. unfold formatStateContext. by destruct (status st). Qed.

(** C8. [formatStateContext] returns the empty text for an absent state and
    for every state whose status is idle, whatever its plan, context and
    completed steps. *)
Theorem formatStateContext_idle_or_absent :
  formatStateContext None = []
  ∧ ∀ st : AgentState, status st = idle → formatStateContext (Some st) = [].
Proof. split; [done|]. intros st Hidle. simpl. by rewrite Hidle. Qed.

(** C2. The text [formatStateContext] returns has at most 16,000
    characters. When the rendered text is longer, the result is the
    truncation header (the opening tag and the marker), then the last
    15,935 characters of the rendered text, which end with its closing tag,
    then a closing tag: the tail of the text is kept, not its head. *)
Theorem formatStateContext_bounded (state : option AgentState) :
  Z.of_nat (length (formatStateContext state)) ≤ 16000
  ∧ ∀ st, state = Some st → status st ≠ idle →
      16000 < Z.of_nat (length (formatted st)) →
      formatStateContext state
      = truncation_header ++ kept_tail (formatted st) ++ truncation_footer
      ∧ Z.of_nat (length (formatStateContext state)) = 16000
      ∧ Z.of_nat (length (kept_tail (formatted st))) = 15935
      ∧ kept_tail (formatted st) `suffix_of` formatted st
      ∧ lit "</agent_state>" `suffix_of` kept_tail (formatted st)
      ∧ lit "<agent_state>" `prefix_of` formatStateContext state
      ∧ lit "</agent_state>" `suffix_of` formatStateContext state
      ∧ includes (formatStateContext state)
          (lit "[Context truncated due to length]") = true.
Proof.
  assert (∀ st, status st ≠ idle →
            16000 < Z.of_nat (length (formatted st)) →
            formatStateContext (Some st)
            = truncation_header ++ kept_tail (formatted st)
              ++ truncation_footer) as Hcut.
  { intros st Hst Hlong. rewrite formatStateContext_active by done.
    unfold MAX_CONTEXT_CHARS at 1.
    destruct (Z.ltb_spec 16000 (Z.of_nat (length (formatted st)))); [|lia].
    by apply truncateContext_over. }
  assert (∀ st, 16000 < Z.of_nat (length (formatted st)) →
            Z.of_nat (length (truncation_header ++ kept_tail (formatted st)
                              ++ truncation_footer)) = 16000) as Hlen.
  { intros st Hlong. rewrite !length_app, !Nat2Z.inj_add.
    rewrite truncation_header_length, truncation_footer_length.
    rewrite kept_tail_length by done. reflexivity. }
  split.
  - destruct state as [st|]; [|simpl; lia].
    destruct (decide (status st = idle)) as [Hidle|Hact].
    { simpl. rewrite Hidle. simpl. lia. }
    destruct (Z.ltb_spec 16000 (Z.of_nat (length (formatted st)))) as [Hlong|Hok].
    + rewrite Hcut, Hlen by done. lia.
    + rewrite formatStateContext_active by done. unfold MAX_CONTEXT_CHARS.
      destruct (Z.ltb_spec 16000 (Z.of_nat (length (formatted st)))); [lia|done].
  - intros st -> Hact Hlong. rewrite Hcut by done.
    split; [done|]. split; [by apply Hlen|].
    split; [by apply kept_tail_length|].
    split; [apply suffix_drop|].
    split; [apply kept_tail_closing_tag; [done | by vm_compute
                                         | apply formatted_suffix]|].
    split; [apply prefix_app_r, truncation_header_tag|].
    split; [do 2 apply suffix_app_r; apply truncation_footer_tag|].
    apply includes_occurs.
    exists (lit "<agent_state>" ++ [10%N] ++ lit "  "),
           ([10%N] ++ kept_tail (formatted st) ++ truncation_footer).
    reflexivity.
Qed.

(** The formatted text of a state that is not idle is enclosed in the
    tags. *)
Lemma formatStateContext_tags (st : AgentState) :
  status st ≠ idle →
  lit "<agent_state>" `prefix_of` formatStateContext (Some st)
  ∧ lit "</agent_state>" `suffix_of` formatStateContext (Some st).
Proof.
  intros Hact. rewrite formatStateContext_active by done.
  destruct (Z.ltb_spec MAX_CONTEXT_CHARS (Z.of_nat (length (formatted st)))).
  - rewrite truncateContext_over by done. split.
    + apply prefix_app_r, truncation_header_tag.
    + do 2 apply suffix_app_r. apply truncation_footer_tag.
  - split; [apply formatted_prefix | apply formatted_suffix].
Qed.

Lemma formatStateContext_nonempty (st : AgentState) :
  status st ≠ idle → formatStateContext (Some st) ≠ [].
Proof.
  intros Hact Hnil. destruct (formatStateContext_tags st Hact) as [[k Hk] _].
  rewrite Hnil in Hk. discriminate Hk.
Qed.

End FormatterFacts.

Lemma formatStateContext_idle_or_absent_witness :
  status StateExamples.idleState = idle
  ∧ @State.formatStateContext AsciiRuntime.runtime
      (Some StateExamples.idleState) = [].
Proof.
  split; [reflexivity|].
  apply (proj2 (@formatStateContext_idle_or_absent AsciiRuntime.runtime)).
  reflexivity.
Defined.

Lemma formatStateContext_bounded_witness :
  16000 < Z.of_nat (length (@State.formatted AsciiRuntime.runtime
                              StateExamples.longState))
  ∧ Z.of_nat (length (@State.formatStateContext AsciiRuntime.runtime
                        (Some StateExamples.longState))) = 16000.
Proof.
  assert (16000 < Z.of_nat (length (@State.formatted AsciiRuntime.runtime
                                      StateExamples.longState))) as Hlong
    by (vm_compute; reflexivity).
  split; [exact Hlong|].
  assert (status StateExamples.longState ≠ idle) as Hact by discriminate.
  exact (proj1 (proj2 (proj2 (@formatStateContext_bounded AsciiRuntime.runtime
                                (Some StateExamples.longState))
                         StateExamples.longState eq_refl Hact Hlong))).
Defined.

(** ** Step completion tracker *)

Section TrackerFacts.

Import State.

Lemma obj_get_set_eq (k : text) (v : json) (o : object) :
  obj_get k (obj_set k v o) = Some v.
Proof.
  induction o as [|[k' v'] o IH]; simpl.
  - by rewrite decide_True.
  - destruct (decide (k' = k)) as [->|Hne]; simpl.
    + by rewrite decide_True.
    + by rewrite decide_False.
Qed.

Lemma obj_get_set_ne (k k0 : text) (v : json) (o : object) :
  k0 ≠ k → obj_get k0 (obj_set k v o) = obj_get k0 o.
Proof.
  intros Hne. induction o as [|[k' v'] o IH]; simpl.
  - by rewrite decide_False.
  - destruct (decide (k' = k)) as [->|Hne']; simpl.
    + by rewrite !decide_False.
    + by rewrite IH.
Qed.

(** Writing a key twice leaves the object that the second write alone
    gives. *)
Lemma obj_set_set (k : text) (v1 v2 : json) (o : object) :
  obj_set k v2 (obj_set k v1 o) = obj_set k v2 o.
Proof.
  induction o as [|[k' v'] o IH]; simpl.
  - by rewrite decide_True.
  - destruct (decide (k' = k)) as [->|Hne]; simpl.
    + by rewrite decide_True.
    + by rewrite decide_False, IH.
Qed.

Lemma set_store_set_store (m1 m2 : gmap text AgentState) (w : World) :
  set_store m2 (set_store m1 w) = set_store m2 w.
Proof. done. Qed.

Lemma addToContext_present (chat key : text) (value : json) (w : World)
  (st : AgentState) :
  store w !! chat = Some st →
  addToContext chat key value w
  = (Some {| chatId := chatId st; plan := plan st;
             currentStepIndex := currentStepIndex st;
             completedSteps := completedSteps st;
             context := Some (obj_set key value (default [] (context st)));
             status := status st |},
     set_store
       (<[chat := {| chatId := chatId st; plan := plan st;
                     currentStepIndex := currentStepIndex st;
                     completedSteps := completedSteps st;
                     context :=
                       Some (obj_set key value (default [] (context st)));
                     status := status st |}]> (store w)) w).
Proof.
  intros Hst. unfold addToContext, dbGetAgentState, dbUpdateAgentState.
  by rewrite Hst.
Qed.

(** C9. Without a state for the conversation, [addToContext] returns
    nothing and leaves the store as it is. With a state, it writes the value
    under the key in the state's context and touches nothing else; a second
    call with the same key and another value gives exactly what that second
    call alone gives, so only the second value remains. *)
Theorem addToContext_last_write_wins (chat key : text) (v1 v2 : json)
  (w : World) :
  (store w !! chat = None → addToContext chat key v1 w = (None, w))
  ∧ ∀ st, store w !! chat = Some st →
      ∃ st' w',
        addToContext chat key v1 w = (Some st', w')
        ∧ store w' = <[chat := st']> (store w)
        ∧ obj_get key (default [] (context st')) = Some v1
        ∧ (∀ k, k ≠ key →
             obj_get k (default [] (context st'))
             = obj_get k (default [] (context st)))
        ∧ plan st' = plan st
        ∧ currentStepIndex st' = currentStepIndex st
        ∧ completedSteps st' = completedSteps st
        ∧ status st' = status st
        ∧ addToContext chat key v2 w' = addToContext chat key v2 w
        ∧ ∃ st'' w'',
            addToContext chat key v2 w' = (Some st'', w'')
            ∧ store w'' !! chat = Some st''
            ∧ obj_get key (default [] (context st'')) = Some v2.
Proof.
  split.
  - intros Hnone. unfold addToContext, dbGetAgentState. by rewrite Hnone.
  - intros st Hst. rewrite (addToContext_present _ _ _ _ _ Hst).
    eexists _, _. split; [reflexivity|]. simpl.
    split; [done|]. split; [apply obj_get_set_eq|].
    split; [by intros; apply obj_get_set_ne|].
    do 4 (split; [done|]).
    rewrite (addToContext_present chat key v2 w st Hst).
    erewrite addToContext_present by (simpl; apply lookup_insert_eq).
    simpl. rewrite obj_set_set, set_store_set_store, insert_insert_eq.
    split; [done|]. eexists _, _. split; [reflexivity|]. simpl.
    split; [apply lookup_insert_eq | apply obj_get_set_eq].
Qed.

End TrackerFacts.

Section CompletionFacts.

Import State.

Lemma at_index_in_range {A} (l : list A) (i : Z) :
  0 ≤ i < Z.of_nat (length l) → ∃ x, at_index l i = Some x.
Proof.
  intros Hi. unfold at_index.
  destruct (Z.ltb_spec i 0); [lia|]. apply lookup_lt_is_Some. lia.
Qed.

Lemma at_index_out_of_range {A} (l : list A) (i : Z) :
  ¬ (0 ≤ i < Z.of_nat (length l)) → at_index l i = None.
Proof.
  intros Hi. unfold at_index.
  destruct (Z.ltb_spec i 0); [done|]. apply lookup_ge_None. lia.
Qed.

(** C1. For a stored state with a plan and a cursor within the plan's
    steps, [completeCurrentStep] appends one completed step with the id and
    description of the step under the cursor, the given result and the
    current time; marks that step done with the result and leaves every
    other step as it was; moves the cursor on by one; and sets the status to
    completed when the cursor was on the last step, to executing otherwise.
    Without a state, without a plan, or with the cursor outside the steps,
    it returns nothing and changes nothing. *)
Theorem completeCurrentStep_spec (chat result : text) (w : World) :
  (∀ st p,
     store w !! chat = Some st → plan st = Some p →
     0 ≤ cursor st < Z.of_nat (length (steps p)) →
     ∃ step st' p' w',
       steps p !! Z.to_nat (cursor st) = Some step
       ∧ completeCurrentStep chat result w = (Some st', w')
       ∧ store w' = <[chat := st']> (store w)
       ∧ completedSteps st'
         = Some (default [] (completedSteps st)
                 ++ [ {| stepId := id step;
                         cs_description := description step;
                         cs_result := result;
                         timestamp := now w |} ])
       ∧ plan st' = Some p'
       ∧ goal p' = goal p ∧ reasoning p' = reasoning p
       ∧ length (steps p') = length (steps p)
       ∧ steps p' !! Z.to_nat (cursor st)
         = Some {| id := id step; description := description step;
                   tool := tool step; step_status := done;
                   step_result := Some result |}
       ∧ (∀ j, j ≠ Z.to_nat (cursor st) → steps p' !! j = steps p !! j)
       ∧ currentStepIndex st' = Some (cursor st + 1)
       ∧ status st'
         = (if decide (cursor st = Z.of_nat (length (steps p)) - 1)
            then completed else executing)
       ∧ context st' = context st)
  ∧ (store w !! chat = None
     ∨ (∃ st, store w !! chat = Some st
          ∧ (plan st = None
             ∨ ∃ p, plan st = Some p
                 ∧ ¬ (0 ≤ cursor st < Z.of_nat (length (steps p))))) →
     completeCurrentStep chat result w = (None, w)).
Proof.
  unfold cursor. split.
  - intros st p Hst Hp Hrange.
    destruct (at_index_in_range (steps p) _ Hrange) as [step Hstep].
    unfold completeCurrentStep, dbGetAgentState, dbUpdateAgentState.
    rewrite Hst, Hp, Hstep.
    unfold at_index in Hstep.
    destruct (Z.ltb_spec (default 0 (currentStepIndex st)) 0); [lia|].
    eexists step, _, _, _. split; [exact Hstep|].
    split; [reflexivity|]. cbn -[imap].
    split; [done|]. split; [done|]. split; [done|].
    split; [done|]. split; [done|]. cbn [steps].
    split; [apply length_imap|].
    split.
    { rewrite list_lookup_imap, Hstep. simpl.
      rewrite Z2Nat.id, Z.eqb_refl by lia. done. }
    split.
    { intros j Hj. rewrite list_lookup_imap.
      destruct (steps p !! j) as [s|]; [|done]. simpl.
      destruct (Z.eqb_spec (Z.of_nat j) (default 0 (currentStepIndex st)));
        [lia|done]. }
    split; [done|]. split; [|done].
    destruct (decide _) as [Heq|Hne];
      destruct (Z.leb_spec (Z.of_nat (length (steps p)) - 1)
                  (default 0 (currentStepIndex st))); done || lia.
  - unfold completeCurrentStep, dbGetAgentState.
    intros [Hnone | (st & Hst & [Hp | (p & Hp & Hout)])].
    + by rewrite Hnone.
    + by rewrite Hst, Hp.
    + rewrite Hst, Hp. by rewrite (at_index_out_of_range _ _ Hout).
Qed.

End CompletionFacts.

(** Scenario C: three steps, cursor at 0. *)
Lemma completeCurrentStep_spec_witness :
  ∃ st' w',
    State.completeCurrentStep (lit "chat-1") (lit "found 5 articles")
      (StateExamples.worldWith
         (StateExamples.stateWith (Some StateExamples.testPlan) executing []))
    = (Some st', w')
    ∧ currentStepIndex st' = Some 1
    ∧ (length <$> completedSteps st') = Some 1%nat
    ∧ status st' = executing.
Proof.
  destruct (proj1 (completeCurrentStep_spec (lit "chat-1")
                     (lit "found 5 articles")
                     (StateExamples.worldWith
                        (StateExamples.stateWith
                           (Some StateExamples.testPlan) executing [])))
              (StateExamples.stateWith (Some StateExamples.testPlan)
                 executing [])
              StateExamples.testPlan)
    as (step & st' & p' & w' & _ & Hrun & _ & Hdone & _ & _ & _ & _ & _ & _
        & Hidx & Hstatus & _).
  - apply lookup_singleton_eq.
  - reflexivity.
  - vm_compute. split; [discriminate | reflexivity].
  - exists st', w'. split; [exact Hrun|]. split; [exact Hidx|].
    split; [by rewrite Hdone | exact Hstatus].
Defined.

(** Scenario D: a single step; completing it completes the plan. *)
Example completeCurrentStep_single_step :
  let w := StateExamples.worldWith
             (StateExamples.stateWith (Some StateExamples.singleStepPlan)
                executing []) in
  (λ r, (currentStepIndex <$> r, status <$> r))
    (fst (State.completeCurrentStep (lit "chat-1") (lit "answered") w))
  = (Some (Some 1), Some completed).
Proof. by vm_compute. Qed.

(** ** The loop and its stop policy *)

Section LoopFacts.

Context {St : Type}.
Variable cfg : Settings St.
Variable engine : list Message → StepResult.
Variable initial : list Message.

Lemma round_snoc (steps : list StepResult) (s : St) :
  ∃ r, fst (round cfg engine initial steps s) = steps ++ [r].
Proof.
  unfold round.
  destruct (prepareStep cfg (length steps) steps (stepInput initial steps) s).
  eauto.
Qed.

Lemma halts_stopWhen (steps : list StepResult) (r : StepResult) :
  stopWhen cfg (steps ++ [r]) = true → halts cfg (steps ++ [r]) = true.
Proof.
  intros Hstop. unfold halts. rewrite last_snoc, Hstop. by destruct (toolCalls r).
Qed.

Lemma halts_false (steps : list StepResult) (r : StepResult) :
  last steps = Some r → halts cfg steps = false → stopWhen cfg steps = false.
Proof. unfold halts. intros ->. by destruct (toolCalls r). Qed.

Lemma last_take_S (rs : list StepResult) (i : nat) (r : StepResult) :
  rs !! i = Some r → last (take (S i) rs) = Some r.
Proof.
  intros Hi. pose proof (lookup_lt_Some _ _ _ Hi) as Hlt.
  rewrite last_lookup, length_take, Nat.min_l by lia. simpl.
  by rewrite lookup_take_lt by lia.
Qed.

(** When the stop condition holds at [n] rounds, the loop started with
    fewer rounds ends with at most [n] of them, at the first round after
    which it halts. *)
Lemma run_bounded (n : nat) :
  (∀ steps, length steps = n → stopWhen cfg steps = true) →
  ∀ k steps s fuel,
    (length steps + k = n)%nat → (1 ≤ k)%nat → (k ≤ fuel)%nat →
    ∃ rs s',
      run cfg engine initial fuel steps s = Some (rs, s')
      ∧ steps `prefix_of` rs
      ∧ (length steps < length rs ≤ n)%nat
      ∧ halts cfg rs = true
      ∧ ∀ m, (length steps < m < length rs)%nat →
             halts cfg (take m rs) = false.
Proof.
  intros Hstop k. induction k as [|k IH]; intros steps s fuel Hlen Hk Hfuel;
    [lia|].
  destruct fuel as [|fuel]; [lia|]. cbn [run].
  destruct (round_snoc steps s) as [r Hr].
  destruct (round cfg engine initial steps s) as [steps' s'].
  simpl in Hr. subst steps'.
  destruct (halts cfg (steps ++ [r])) eqn:Hh.
  - exists (steps ++ [r]), s'. rewrite length_app. simpl.
    split; [done|]. split; [by apply prefix_app_r|]. split; [lia|].
    split; [done|]. intros m Hm. lia.
  - destruct (decide (k = 0%nat)) as [->|Hk'].
    { rewrite halts_stopWhen in Hh; [done|]. apply Hstop.
      rewrite length_app. simpl. lia. }
    destruct (IH (steps ++ [r]) s' fuel) as (rs & s'' & Hrun & Hpre & Hb & Hhalt & Hmin).
    { rewrite length_app. simpl. lia. }
    { lia. }
    { lia. }
    rewrite length_app in Hb, Hmin. simpl in Hb, Hmin.
    exists rs, s''. split; [done|].
    split; [by eapply prefix_app_l|]. split; [lia|]. split; [done|].
    intros m Hm. destruct (decide (m = S (length steps))) as [->|Hne].
    + destruct Hpre as [tl ->].
      rewrite take_app_length' by (rewrite length_app; simpl; lia). done.
    + apply Hmin. lia.
Qed.

End LoopFacts.

Section StopPolicy.

Import Agent.
Context `{Runtime}.

Lemma stepCountIs_true (n : Z) (steps : list StepResult) :
  stepCountIs n steps = true ↔ Z.of_nat (length steps) = n.
Proof. unfold stepCountIs. apply Z.eqb_eq. Qed.

Lemma createAgent_stops_at_limit (opts : CreateAgentOptions)
  (steps : list StepResult) :
  length steps = Z.to_nat (roundLimit opts) → 1 ≤ roundLimit opts →
  stopWhen (createAgent opts) steps = true.
Proof.
  intros Hlen Hpos. unfold createAgent. fold (roundLimit opts).
  assert (stepCountIs (roundLimit opts) steps = true) as Hcount
    by (apply stepCountIs_true; lia).
  destruct (default false (isReasoningModel opts)); simpl.
  - done.
  - rewrite Hcount. apply orb_true_r.
Qed.

(** C3. The bound on the rounds is [maxSteps], 5 when not given. For the
    agent with tools the stop condition holds exactly when the last round
    called finalAnswer or the number of rounds is the bound; for a
    reasoning-only model no tools are offered and the stop condition is the
    round count alone. With a bound of at least 1 the loop ends, whatever
    the engine does, after at most that many rounds, and no round before the
    last one satisfied the stop condition: it ends at the first round that
    reaches the bound or calls finalAnswer (or makes no tool call at
    all). *)
Theorem loop_stop_policy (opts : CreateAgentOptions)
  (engine : list Message → StepResult) (initial : list Message)
  (o : Orchestrator) :
  (maxSteps opts = None → roundLimit opts = 5)
  ∧ (reasoningOnly opts = false →
     tools (createAgent opts) = Some agentTools
     ∧ ∀ steps,
         stopWhen (createAgent opts) steps = true ↔
         hasToolCall (lit "finalAnswer") steps = true
         ∨ Z.of_nat (length steps) = roundLimit opts)
  ∧ (reasoningOnly opts = true →
     tools (createAgent opts) = None
     ∧ toolChoice (createAgent opts) = none
     ∧ ∀ steps,
         stopWhen (createAgent opts) steps = true ↔
         Z.of_nat (length steps) = roundLimit opts)
  ∧ (1 ≤ roundLimit opts →
     ∀ fuel, (Z.to_nat (roundLimit opts) ≤ fuel)%nat →
     ∃ rs o',
       run (createAgent opts) engine initial fuel [] o = Some (rs, o')
       ∧ 1 ≤ Z.of_nat (length rs) ≤ roundLimit opts
       ∧ halts (createAgent opts) rs = true
       ∧ (∀ m, (1 ≤ m < length rs)%nat →
            stopWhen (createAgent opts) (take m rs) = false)
       ∧ (reasoningOnly opts = false →
          ∀ i r, rs !! i = Some r →
            callsTool (lit "finalAnswer") r = true → S i = length rs)).
Proof.
  split; [by unfold roundLimit; intros ->|].
  split; [|split].
  - unfold reasoningOnly, createAgent. fold (roundLimit opts). intros ->.
    split; [done|]. intros steps. simpl.
    by rewrite orb_true_iff, stepCountIs_true.
  - unfold reasoningOnly, createAgent. fold (roundLimit opts). intros ->.
    split; [done|]. split; [done|]. intros steps. simpl.
    apply stepCountIs_true.
  - intros Hpos fuel Hfuel.
    destruct (run_bounded (createAgent opts) engine initial
                (Z.to_nat (roundLimit opts))
                (λ steps Hlen, createAgent_stops_at_limit opts steps Hlen Hpos)
                (Z.to_nat (roundLimit opts)) [] o fuel)
      as (rs & o' & Hrun & _ & Hb & Hhalt & Hmin); [done | lia | done |].
    simpl in Hb, Hmin.
    assert (∀ m, (1 ≤ m < length rs)%nat →
              stopWhen (createAgent opts) (take m rs) = false) as Hnostop.
    { intros m Hm. destruct m as [|i]; [lia|].
      destruct (lookup_lt_is_Some_2 rs i) as [r Hr]; [lia|].
      eapply halts_false; [by apply last_take_S|]. apply Hmin. lia. }
    exists rs, o'. split; [done|]. split; [lia|]. split; [done|].
    split; [done|].
    intros Htools i r Hr Hcall.
    pose proof (lookup_lt_Some _ _ _ Hr) as Hlt.
    destruct (decide (S i = length rs)) as [|Hne]; [done|].
    specialize (Hnostop (S i) ltac:(lia)). exfalso. revert Hnostop.
    unfold reasoningOnly in Htools. unfold createAgent. rewrite Htools. simpl.
    unfold hasToolCall. by rewrite (last_take_S _ _ _ Hr), Hcall.
Qed.

End StopPolicy.

(** ** The orchestrator *)

Section OrchestratorFacts.

Import State Agent.
Context `{Runtime}.

Lemma hasPlan_addToContext (chat key : text) (value : json) (w : World) :
  hasPlan chat (snd (addToContext chat key value w)) = hasPlan chat w.
Proof.
  unfold hasPlan. destruct (store w !! chat) as [st|] eqn:Hst.
  - rewrite (addToContext_present _ _ _ _ _ Hst). simpl.
    by rewrite lookup_insert_eq.
  - unfold addToContext, dbGetAgentState. rewrite Hst. simpl. by rewrite Hst.
Qed.

Lemma hasPlan_completeCurrentStep (chat result : text) (w : World) :
  hasPlan chat w = true →
  hasPlan chat (snd (completeCurrentStep chat result w)) = true.
Proof.
  unfold hasPlan, completeCurrentStep, dbGetAgentState, dbUpdateAgentState.
  destruct (store w !! chat) as [st|] eqn:Hst; [|done].
  destruct (plan st) as [p|] eqn:Hp; [|done]. intros _.
  destruct (at_index (steps p) (default 0 (currentStepIndex st))).
  - simpl. by rewrite lookup_insert_eq.
  - simpl. by rewrite Hst, Hp.
Qed.

(** What an awaited call leaves when it returns. *)
Lemma await_returns {A} (f : World → A * World) (o o1 : Orchestrator) (a : A) :
  await f o = Returns a o1 →
  a = fst (f (world o))
  ∧ world o1 = snd (f (world o))
  ∧ calls o1 = calls o
  ∧ lastProcessedStepCount o1 = lastProcessedStepCount o
  ∧ written o1 = written o
  ∧ faults o1 = tail (faults o).
Proof.
  unfold await. destruct (throwsNext (faults o)); [done|].
  by intros [= <- <-].
Qed.


Lemma call_getAgentState_returns (chat : text) (o o1 : Orchestrator)
  (state : option AgentState) :
  call_getAgentState chat o = Returns state o1 →
  state = getAgentState chat (world o1)
  ∧ world o1 = world o
  ∧ calls o1 = calls o
  ∧ lastProcessedStepCount o1 = lastProcessedStepCount o
  ∧ written o1 = written o.
Proof.
  intros Hr. apply await_returns in Hr as (-> & Hw & Hc & Hn & Hwr & _).
  cbn [fst snd] in *. by rewrite Hw.
Qed.

Lemma recordToolResults_calls (chat : text) (i : nat)
  (results : list ToolResult) :
  ∀ (o o1 : Orchestrator) (u : unit),
    recordToolResults chat i results o = Returns u o1 →
    calls o1
    = calls o ++ map (λ tr, CallAddToContext chat (contextKey i tr)
                              (JStr (resultSummary tr))) results
    ∧ hasPlan chat (world o1) = hasPlan chat (world o)
    ∧ lastProcessedStepCount o1 = lastProcessedStepCount o.
Proof.
  induction results as [|tr results IH]; intros o o1 u Hr;
    cbn [recordToolResults] in Hr.
  - injection Hr as _ <-. by rewrite app_nil_r.
  - destruct (call_addToContext chat (contextKey i tr)
                (JStr (resultSummary tr)) o) as [a o2|o2] eqn:Hadd;
      cbn [andThen] in Hr; [|done].
    apply await_returns in Hadd as (_ & Hw & Hc & Hn & _).
    apply IH in Hr as (-> & -> & ->).
    rewrite Hw, Hc, Hn. cbn [called world calls lastProcessedStepCount map].
    by rewrite hasPlan_addToContext, <- app_assoc.
Qed.

Lemma getAgentState_hasPlan (chat : text) (w : World) :
  match getAgentState chat w with
  | Some st =>
      match plan st with
      | Some _ => hasPlan chat w = true
      | None => hasPlan chat w = false
      end
  | None => hasPlan chat w = false
  end.
Proof.
  unfold getAgentState, dbGetAgentState, hasPlan.
  destruct (store w !! chat) as [st|]; [|done]. by destruct (plan st).
Qed.

Lemma processStep_calls (chat : text) (i : nat) (r : StepResult)
  (o o1 : Orchestrator) (u : unit) :
  processStep chat i r o = Returns u o1 →
  calls o1 = calls o ++ spec_roundCalls (hasPlan chat (world o)) chat i r
  ∧ hasPlan chat (world o1) = hasPlan chat (world o)
  ∧ lastProcessedStepCount o1 = lastProcessedStepCount o.
Proof.
  unfold processStep, spec_roundCalls.
  destruct (toolResults r) as [|tr results].
  { intros [= _ <-]. by rewrite app_nil_r. }
  destruct (recordToolResults chat i (tr :: results) o) as [u2 o2|o2] eqn:Hrec;
    cbn [andThen]; [|done].
  apply recordToolResults_calls in Hrec as (Hc2 & Hp2 & Hn2).
  destruct (call_getAgentState chat o2) as [state o3|o3] eqn:Hget;
    cbn [andThen]; [|done].
  apply call_getAgentState_returns in Hget as (-> & Hw3 & Hc3 & Hn3 & _).
  rewrite Hw3. pose proof (getAgentState_hasPlan chat (world o2)) as Hg.
  rewrite Hp2 in Hg.
  destruct (getAgentState chat (world o2)) as [st|];
    [destruct (plan st)|]; rewrite Hg.
  - destruct (call_completeCurrentStep chat
                (executedSummary (tr :: results)) o3) as [a4 o4|o4] eqn:Hdone;
      cbn [andThen]; [|done].
    intros [= _ <-].
    apply await_returns in Hdone as (_ & Hw4 & Hc4 & Hn4 & _).
    cbn [called world calls lastProcessedStepCount] in Hw4, Hc4, Hn4.
    rewrite Hw4, Hc4, Hn4, Hc3, Hn3, Hc2, Hn2, <- app_assoc.
    split; [done|]. split; [|done].
    apply hasPlan_completeCurrentStep. by rewrite Hw3, Hp2.
  - intros [= _ <-]. by rewrite Hw3, Hc3, Hn3, Hc2, Hp2, Hn2, app_nil_r.
  - intros [= _ <-]. by rewrite Hw3, Hc3, Hn3, Hc2, Hp2, Hn2, app_nil_r.
Qed.

Lemma processFrom_calls (chat : text) (rest : list StepResult) :
  ∀ (i : nat) (o o1 : Orchestrator) (u : unit),
    processFrom chat i rest o = Returns u o1 →
    calls o1 = calls o ++ spec_trackerCalls (hasPlan chat (world o)) chat i rest
    ∧ hasPlan chat (world o1) = hasPlan chat (world o)
    ∧ lastProcessedStepCount o1 = lastProcessedStepCount o.
Proof.
  induction rest as [|r rest IH]; intros i o o1 u Hr;
    cbn [processFrom spec_trackerCalls] in *.
  - injection Hr as _ <-. by rewrite app_nil_r.
  - destruct (processStep chat i r o) as [u2 o2|o2] eqn:Hstep;
      cbn [andThen] in Hr; [|done].
    apply processStep_calls in Hstep as (Hc2 & Hp2 & Hn2).
    apply IH in Hr as (-> & -> & ->).
    by rewrite Hc2, Hp2, Hn2, <- app_assoc.
Qed.

Lemma recordNewSteps_calls (chat : text) (steps : list StepResult)
  (o o1 : Orchestrator) (u : unit) :
  recordNewSteps chat steps o = Returns u o1 →
  calls o1
  = calls o
    ++ spec_trackerCalls (hasPlan chat (world o)) chat
         (lastProcessedStepCount o) (drop (lastProcessedStepCount o) steps)
  ∧ hasPlan chat (world o1) = hasPlan chat (world o)
  ∧ lastProcessedStepCount o1
    = Nat.max (lastProcessedStepCount o) (length steps).
Proof.
  unfold recordNewSteps.
  destruct (Nat.ltb_spec (lastProcessedStepCount o) (length steps)) as [Hlt|Hge].
  - destruct (processFrom chat (lastProcessedStepCount o)
                (drop (lastProcessedStepCount o) steps) o) as [u2 o2|o2] eqn:Hfrom;
      cbn [andThen]; [|done].
    intros [= _ <-]. apply processFrom_calls in Hfrom as (Hc & Hp & _).
    cbn [set_lastProcessedStepCount calls world lastProcessedStepCount].
    split; [done|]. split; [done|]. lia.
  - intros [= _ <-]. rewrite drop_ge by lia. simpl. rewrite app_nil_r.
    split; [done|]. split; [done|]. lia.
Qed.

(** With no new round, nothing is recorded and no store call is made. *)
Lemma recordNewSteps_nothing_new (chat : text) (steps : list StepResult)
  (o : Orchestrator) :
  (length steps ≤ lastProcessedStepCount o)%nat →
  recordNewSteps chat steps o = Returns tt o.
Proof.
  intros Hle. unfold recordNewSteps.
  by destruct (Nat.ltb_spec (lastProcessedStepCount o) (length steps)); [lia|].
Qed.

Lemma loadState_calls (chat : text) (steps : list StepResult)
  (o o1 : Orchestrator) (state : option AgentState) :
  loadState chat steps o = Returns state o1 →
  calls o1
  = calls o
    ++ spec_trackerCalls (hasPlan chat (world o)) chat
         (lastProcessedStepCount o) (drop (lastProcessedStepCount o) steps)
  ∧ hasPlan chat (world o1) = hasPlan chat (world o)
  ∧ lastProcessedStepCount o1
    = Nat.max (lastProcessedStepCount o) (length steps)
  ∧ state = getAgentState chat (world o1).
Proof.
  unfold loadState.
  destruct (recordNewSteps chat steps o) as [u2 o2|o2] eqn:Hrec;
    cbn [andThen]; [|done].
  intros Hget. apply recordNewSteps_calls in Hrec as (Hc & Hp & Hn).
  apply call_getAgentState_returns in Hget as (-> & Hw & Hc' & Hn' & _).
  by rewrite Hw, Hc', Hn'.
Qed.

(** The calls of the store and of the tracker in [prepareStep] are those of
    [loadState]; the rest only writes to the stream. *)
Lemma prepareStep_tracker (chat : text) (stepNumber : nat)
  (steps : list StepResult) (messages : list Message) (o : Orchestrator) :
  chat ≠ [] →
  let o' := snd (prepareStep (Some chat) stepNumber steps messages o) in
  let o1 := after (loadState chat steps o) in
  calls o' = calls o1
  ∧ world o' = world o1
  ∧ lastProcessedStepCount o' = lastProcessedStepCount o1
  ∧ faults o' = faults o1.
Proof.
  intros Hchat. unfold prepareStep.
  destruct chat as [|c chat]; [done|]. cbn [truthy]. cbv zeta.
  destruct (loadState (c :: chat) steps o) as [[st|] o1|o1]; cbn [after];
    [|done|done].
  destruct (status st); [done| | |];
    (destruct (formatStateContext (Some st)); [done|];
     destruct (plan st); done).
Qed.

(** The state read at the end changes neither the record of the calls, nor
    the store, nor the counter, whether it throws or not. *)
Lemma loadState_after (chat : text) (steps : list StepResult)
  (o o2 : Orchestrator) (u : unit) :
  recordNewSteps chat steps o = Returns u o2 →
  calls (after (loadState chat steps o)) = calls o2
  ∧ world (after (loadState chat steps o)) = world o2
  ∧ lastProcessedStepCount (after (loadState chat steps o))
    = lastProcessedStepCount o2.
Proof.
  intros Hrec. unfold loadState. rewrite Hrec. cbn [andThen].
  unfold call_getAgentState, await. by destruct (throwsNext (faults o2)).
Qed.

Lemma returned_Returns {A} (r : Outcome A) :
  returned r = true → ∃ a o1, r = Returns a o1.
Proof. destruct r as [a o1|o1]; [eauto | done]. Qed.

Lemma spec_trackerCalls_app (planned : bool) (chat : text)
  (l1 l2 : list StepResult) :
  ∀ i, spec_trackerCalls planned chat i (l1 ++ l2)
       = spec_trackerCalls planned chat i l1
         ++ spec_trackerCalls planned chat (i + length l1) l2.
Proof.
  induction l1 as [|r l1 IH]; intros i; simpl.
  - by rewrite Nat.add_0_r.
  - by rewrite IH, <- app_assoc, Nat.add_succ_r.
Qed.

Lemma additions_not_completions (chat : text) (i : nat)
  (results : list ToolResult) :
  filter (λ c, isCompletion c = true)
    (map (λ tr, CallAddToContext chat (contextKey i tr)
                  (JStr (resultSummary tr))) results) = [].
Proof.
  induction results as [|tr results IH]; [done|].
  cbn [map]. by rewrite filter_cons_False.
Qed.

Lemma spec_trackerCalls_completions (planned : bool) (chat : text)
  (rounds : list StepResult) :
  ∀ i, length (filter (λ c, isCompletion c = true)
                 (spec_trackerCalls planned chat i rounds))
       = if planned
         then length (filter (λ r, hasResults r = true) rounds)
         else 0%nat.
Proof.
  induction rounds as [|r rounds IH]; intros i; cbn [spec_trackerCalls].
  - by destruct planned.
  - rewrite filter_app, length_app, IH. unfold spec_roundCalls.
    destruct (toolResults r) as [|tr results] eqn:E.
    + rewrite (filter_cons_False _ r) by (unfold hasResults; by rewrite E).
      done.
    + rewrite (filter_cons_True _ r) by (unfold hasResults; by rewrite E).
      rewrite filter_app, length_app, additions_not_completions.
      destruct planned; [|done].
      by rewrite filter_cons_True.
Qed.

End OrchestratorFacts.

Section OrchestratorTheorems.

Import State Agent.
Context `{Runtime}.

Lemma resultSummary_length (tr : ToolResult) :
  (length (resultSummary tr) ≤ 500)%nat.
Proof.
  unfold resultSummary, slice_to.
  destruct (result tr) as [[]|]; rewrite length_take; lia.
Qed.

(** C4, as the code has it. Take an iteration of [prepareStep] with a
    conversation bound in which no call of the store throws while the new
    rounds are recorded. It makes, for every round at or after the counter,
    one [addToContext] call per tool result of the round, under the key
    step_<round index + 1>_<tool name> and with the result cut at 500
    characters (a string as it is, anything else serialised); then, if the
    round has a result and the stored state has a plan, one
    [completeCurrentStep] call for the round, with the tool names of the
    round; without a plan no such call is made. The counter becomes the
    number of rounds, so a second call with the same rounds makes no call,
    and a later call with more rounds, in which again no call throws while
    they are recorded, handles exactly the new ones. *)
Theorem prepareStep_records_each_round (chat : text) (n n' : nat)
  (steps more : list StepResult) (messages messages' : list Message)
  (o : Orchestrator) :
  chat ≠ [] →
  returned (recordNewSteps chat steps o) = true →
  let planned := hasPlan chat (world o) in
  let seen := lastProcessedStepCount o in
  let o1 := snd (prepareStep (Some chat) n steps messages o) in
  calls o1 = calls o ++ spec_trackerCalls planned chat seen (drop seen steps)
  ∧ length (filter (λ c, isCompletion c = true)
              (drop (length (calls o)) (calls o1)))
    = (if planned
       then length (filter (λ r, hasResults r = true) (drop seen steps))
       else 0%nat)
  ∧ lastProcessedStepCount o1 = Nat.max seen (length steps)
  ∧ calls (snd (prepareStep (Some chat) n' steps messages' o1)) = calls o1
  ∧ ((seen ≤ length steps)%nat →
     returned (recordNewSteps chat (steps ++ more) o1) = true →
     calls (snd (prepareStep (Some chat) n' (steps ++ more) messages' o1))
     = calls o
       ++ spec_trackerCalls planned chat seen (drop seen (steps ++ more)))
  ∧ ∀ tr : ToolResult,
      (length (resultSummary tr) ≤ 500)%nat
      ∧ (∀ s, result tr = Some (JStr s) → resultSummary tr = take 500 s)
      ∧ (∀ v, result tr = Some v → v ≠ JNull → (∀ s, v ≠ JStr s) →
           resultSummary tr = take 500 (JSON_stringify v))
      ∧ (result tr = None ∨ result tr = Some JNull →
           resultSummary tr = take 500 (JSON_stringify (asJson tr))).
Proof.
  intros Hchat Hret planned seen o1.
  destruct (returned_Returns _ Hret) as (u & o0 & Hrec).
  destruct (prepareStep_tracker chat n steps messages o Hchat)
    as (Hc1 & Hw1 & Hn1 & _).
  destruct (loadState_after chat steps o o0 u Hrec) as (Hc0 & Hw0 & Hn0).
  rewrite Hc0 in Hc1. rewrite Hw0 in Hw1. rewrite Hn0 in Hn1.
  destruct (recordNewSteps_calls chat steps o o0 u Hrec) as (Hc & Hp & Hn).
  fold o1 in Hc1, Hw1, Hn1. fold planned seen in Hc, Hp, Hn.
  assert (calls o1
          = calls o ++ spec_trackerCalls planned chat seen (drop seen steps))
    as Hcalls by (by rewrite Hc1).
  assert (lastProcessedStepCount o1 = Nat.max seen (length steps)) as Hseen
    by (by rewrite Hn1).
  assert (hasPlan chat (world o1) = planned) as Hplanned
    by (by rewrite Hw1).
  split; [exact Hcalls|].
  split.
  { rewrite Hcalls, drop_app_length. apply spec_trackerCalls_completions. }
  split; [exact Hseen|].
  split.
  { destruct (prepareStep_tracker chat n' steps messages' o1 Hchat)
      as (-> & _).
    apply (loadState_after chat steps o1 o1 tt).
    apply recordNewSteps_nothing_new. lia. }
  split.
  { intros Hle Hret'.
    destruct (returned_Returns _ Hret') as (u' & o2 & Hrec').
    destruct (prepareStep_tracker chat n' (steps ++ more) messages' o1 Hchat)
      as (-> & _).
    rewrite (proj1 (loadState_after chat (steps ++ more) o1 o2 u' Hrec')).
    destruct (recordNewSteps_calls chat (steps ++ more) o1 o2 u' Hrec')
      as (-> & _).
    rewrite Hplanned, Hseen, Hcalls, Nat.max_r by done.
    rewrite drop_app_length, <- app_assoc. f_equal.
    rewrite (drop_app_le steps more seen) by done.
    rewrite spec_trackerCalls_app. do 2 f_equal.
    rewrite length_drop. lia. }
  intros tr. split; [apply resultSummary_length|].
  unfold resultSummary, slice_to. split; [by intros s ->|]. split.
  - intros v -> Hnull Hstr. destruct v; try done. by destruct (Hstr s).
  - by intros [-> | ->].
Qed.

(** C10. A state that is not idle formats to a text that is not empty, begins
    with the opening tag and ends with the closing tag; with no plan, no
    finding and no completed step it is the two tags alone. So when the
    state read by [prepareStep] is not idle, the state message is always
    appended: the test for an empty text never succeeds. *)
Theorem active_state_is_injected (st : AgentState) :
  status st ≠ idle →
  formatStateContext (Some st) ≠ []
  ∧ lit "<agent_state>" `prefix_of` formatStateContext (Some st)
  ∧ lit "</agent_state>" `suffix_of` formatStateContext (Some st)
  ∧ (plan st = None → default [] (context st) = [] →
     default [] (completedSteps st) = [] →
     formatStateContext (Some st)
     = lit "<agent_state>" ++ [10%N] ++ lit "</agent_state>")
  ∧ ∀ chat n steps messages o o1,
      chat ≠ [] →
      loadState chat steps o = Returns (Some st) o1 →
      fst (prepareStep (Some chat) n steps messages o)
      = Some (messages ++ [stateMessage n (formatStateContext (Some st))]).
Proof.
  intros Hact.
  pose proof (formatStateContext_nonempty st Hact) as Hne.
  destruct (formatStateContext_tags st Hact) as [Hopen Hclose].
  split; [done|]. split; [done|]. split; [done|]. split.
  - intros Hplan Hctx Hdone. rewrite formatStateContext_active by done.
    assert (formatted st = lit "<agent_state>" ++ [10%N] ++ lit "</agent_state>")
      as ->.
    { unfold formatted, parts, planSection, contextSection, completedSection.
      rewrite Hplan.
      destruct (context st) as [[|]|]; [|done|];
        destruct (completedSteps st) as [[|]|]; done. }
    reflexivity.
  - intros chat n steps messages o o1 Hchat Hload. unfold prepareStep.
    destruct chat as [|c chat]; [done|]. cbn [truthy].
    rewrite Hload. cbv zeta.
    destruct (formatStateContext (Some st)) as [|u t] eqn:Hfmt; [done|].
    destruct (status st); [done| | |]; by destruct (plan st).
Qed.

End OrchestratorTheorems.

Lemma loop_stop_policy_witness :
  Agent.maxSteps AgentExamples.defaults = None
  ∧ 1 ≤ roundLimit AgentExamples.defaults
  ∧ ∃ rs o',
      run (@Agent.createAgent AsciiRuntime.runtime AgentExamples.defaults)
        AgentExamples.searchForever [] 5 []
        (Agent.start StateExamples.emptyWorld) = Some (rs, o')
      ∧ 1 ≤ Z.of_nat (length rs) ≤ 5.
Proof.
  assert (1 ≤ roundLimit AgentExamples.defaults) as Hpos by (vm_compute; discriminate).
  split; [reflexivity|]. split; [exact Hpos|].
  destruct (proj2 (proj2 (proj2
              (@loop_stop_policy AsciiRuntime.runtime AgentExamples.defaults
                 AgentExamples.searchForever []
                 (Agent.start StateExamples.emptyWorld)))) Hpos 5%nat)
    as (rs & o' & Hrun & Hlen & _).
  - vm_compute. lia.
  - exists rs, o'. split; [exact Hrun|]. exact Hlen.
Defined.

Lemma prepareStep_records_each_round_witness :
  lit "chat-1" ≠ []
  ∧ Agent.returned
      (@Agent.recordNewSteps AsciiRuntime.runtime (lit "chat-1")
         [AgentExamples.searchRound] AgentExamples.plannedStart) = true
  ∧ Agent.calls
      (snd (@Agent.prepareStep AsciiRuntime.runtime (Some (lit "chat-1")) 1
              [AgentExamples.searchRound] [] AgentExamples.plannedStart))
    = [ Agent.CallAddToContext (lit "chat-1") (lit "step_1_webSearch")
          (JStr (lit "found 5 articles"));
        Agent.CallAddToContext (lit "chat-1") (lit "step_1_fetchUrl")
          (JStr (lit "{" ++ AsciiRuntime.quote (lit "status") ++ lit ":200"
                 ++ lit "}"));
        Agent.CallCompleteCurrentStep (lit "chat-1")
          (lit "Executed: webSearch, fetchUrl") ].
Proof.
  assert (lit "chat-1" ≠ []) as Hchat by discriminate.
  assert (Agent.returned
            (@Agent.recordNewSteps AsciiRuntime.runtime (lit "chat-1")
               [AgentExamples.searchRound] AgentExamples.plannedStart) = true)
    as Hret by (by vm_compute).
  split; [exact Hchat|]. split; [exact Hret|].
  rewrite (proj1 (@prepareStep_records_each_round AsciiRuntime.runtime
                    (lit "chat-1") 1 1 [AgentExamples.searchRound] [] [] []
                    AgentExamples.plannedStart Hchat Hret)).
  assert (hasPlan (lit "chat-1") (Agent.world AgentExamples.plannedStart)
          = true) as ->.
  { unfold hasPlan. simpl. by rewrite lookup_singleton_eq. }
  reflexivity.
Defined.

(** C4, as stated, fails: the round has a tool result, but the stored state
    has no plan, so [completeCurrentStep] is not called for it. *)
Lemma prepareStep_without_plan :
  Agent.calls
    (snd (@Agent.prepareStep AsciiRuntime.runtime (Some (lit "chat-1")) 1
            [AgentExamples.searchRound] [] AgentExamples.unplannedStart))
  = [ Agent.CallAddToContext (lit "chat-1") (lit "step_1_webSearch")
        (JStr (lit "found 5 articles"));
      Agent.CallAddToContext (lit "chat-1") (lit "step_1_fetchUrl")
        (JStr (lit "{" ++ AsciiRuntime.quote (lit "status") ++ lit ":200"
               ++ lit "}")) ].
Proof. by vm_compute. Qed.

Lemma active_state_is_injected_witness :
  status (StateExamples.stateWith None executing []) ≠ idle
  ∧ @State.formatStateContext AsciiRuntime.runtime
      (Some (StateExamples.stateWith None executing []))
    = lit "<agent_state>" ++ [10%N] ++ lit "</agent_state>".
Proof.
  assert (status (StateExamples.stateWith None executing []) ≠ idle) as Hact
    by discriminate.
  split; [exact Hact|].
  apply (proj1 (proj2 (proj2 (proj2
           (@active_state_is_injected AsciiRuntime.runtime
              (StateExamples.stateWith None executing []) Hact)))));
    reflexivity.
Defined.

Lemma addToContext_last_write_wins_witness :
  State.store StateExamples.emptyWorld !! lit "chat-1" = None
  ∧ State.addToContext (lit "chat-1") (lit "topic") (JStr (lit "first"))
      StateExamples.emptyWorld
    = (None, StateExamples.emptyWorld)
  ∧ ∃ st'' w'',
      State.addToContext (lit "chat-1") (lit "topic") (JStr (lit "second"))
        (snd (State.addToContext (lit "chat-1") (lit "topic")
                (JStr (lit "first"))
                (StateExamples.worldWith StateExamples.idleState)))
      = (Some st'', w'')
      ∧ obj_get (lit "topic") (default [] (context st''))
        = Some (JStr (lit "second")).
Proof.
  assert (State.store StateExamples.emptyWorld !! lit "chat-1" = None)
    as Hnone by apply lookup_empty.
  split; [exact Hnone|]. split.
  - exact (proj1 (addToContext_last_write_wins (lit "chat-1") (lit "topic")
                    (JStr (lit "first")) (JStr (lit "second"))
                    StateExamples.emptyWorld) Hnone).
  - destruct (proj2 (addToContext_last_write_wins (lit "chat-1") (lit "topic")
                       (JStr (lit "first")) (JStr (lit "second"))
                       (StateExamples.worldWith StateExamples.idleState))
                StateExamples.idleState)
      as (st' & w' & Hfirst & _ & _ & _ & _ & _ & _ & _ & _
          & st'' & w'' & Hsecond & _ & Hget).
    + apply lookup_singleton_eq.
    + rewrite Hfirst. simpl. exists st'', w''. split; [exact Hsecond|exact Hget].
Defined.

(** * Further properties *)

(** ** Truncation for any ceiling *)

Section TruncationFacts.

Import State.

(** X1. For every ceiling above the 65 characters of header and footer,
    [truncateContext] returns at most that many characters, returns a text
    within the ceiling unchanged, and truncating its result again changes
    nothing. At a ceiling of exactly 65 nothing is cut: [slice(-0)] keeps
    the whole text, which comes back between header and footer. *)
Theorem truncateContext_any_ceiling (context : text) (maxChars : Z) :
  (65 < maxChars →
   Z.of_nat (length (truncateContext context maxChars)) ≤ maxChars
   ∧ (Z.of_nat (length context) ≤ maxChars →
      truncateContext context maxChars = context)
   ∧ (maxChars < Z.of_nat (length context) →
      Z.of_nat (length (truncateContext context maxChars)) = maxChars)
   ∧ truncateContext (truncateContext context maxChars) maxChars
     = truncateContext context maxChars)
  ∧ (65 < Z.of_nat (length context) →
     truncateContext context 65
     = truncation_header ++ context ++ truncation_footer).
Proof.
  split.
  - intros Hmax.
    assert (Z.of_nat (length context) ≤ maxChars →
            truncateContext context maxChars = context) as Hid.
    { intros Hle. unfold truncateContext.
      by destruct (Z.leb_spec (Z.of_nat (length context)) maxChars); [|lia]. }
    assert (maxChars < Z.of_nat (length context) →
            Z.of_nat (length (truncateContext context maxChars)) = maxChars)
      as Hcut.
    { intros Hlong. unfold truncateContext.
      destruct (Z.leb_spec (Z.of_nat (length context)) maxChars); [lia|].
      rewrite truncation_header_length, truncation_footer_length.
      cbv zeta. unfold slice_from.
      destruct (Z.ltb_spec (- (maxChars - 50 - 15)) 0); [|lia].
      rewrite !length_app, !Nat2Z.inj_add, length_drop.
      rewrite truncation_header_length, truncation_footer_length. lia. }
    assert (Z.of_nat (length (truncateContext context maxChars)) ≤ maxChars)
      as Hbound.
    { destruct (Z.le_gt_cases (Z.of_nat (length context)) maxChars).
      - by rewrite Hid.
      - rewrite Hcut; lia. }
    split; [done|]. split; [done|]. split; [done|].
    unfold truncateContext at 1.
    by destruct (Z.leb_spec
                   (Z.of_nat (length (truncateContext context maxChars)))
                   maxChars); [|lia].
  - intros Hlong. unfold truncateContext.
    destruct (Z.leb_spec (Z.of_nat (length context)) 65); [lia|].
    rewrite truncation_header_length, truncation_footer_length.
    cbv zeta. unfold slice_from. change (- (65 - 50 - 15) <? 0) with false.
    cbv iota. change (- (65 - 50 - 15)) with 0. by rewrite Z.min_l by lia.
Qed.

End TruncationFacts.

Lemma truncateContext_any_ceiling_witness :
  65 < 70
  ∧ 70 < Z.of_nat (length (repeat 97%N 100))
  ∧ Z.of_nat (length (State.truncateContext (repeat 97%N 100) 70)) = 70
  ∧ State.truncateContext (repeat 97%N 100) 65
    = State.truncation_header ++ repeat 97%N 100 ++ State.truncation_footer.
Proof.
  assert (65 < 70) as Hmax by lia.
  assert (70 < Z.of_nat (length (repeat 97%N 100))) as Hlong
    by (vm_compute; reflexivity).
  assert (65 < Z.of_nat (length (repeat 97%N 100))) as Hlong'
    by (vm_compute; reflexivity).
  split; [exact Hmax|]. split; [exact Hlong|]. split.
  - exact (proj1 (proj2 (proj2 (proj1 (truncateContext_any_ceiling
                                         (repeat 97%N 100) 70) Hmax)))
             Hlong).
  - exact (proj2 (truncateContext_any_ceiling (repeat 97%N 100) 70) Hlong').
Defined.

(** ** What the tracker keeps *)

Section ProgressFacts.

Import State.

Lemma advances_refl (st : AgentState) : advances st st.
Proof.
  unfold advances. destruct (plan st) eqn:Hp; [|done].
  do 4 (split; [done|]). split; [lia | done].
Qed.

Lemma advances_trans (st1 st2 st3 : AgentState) :
  advances st1 st2 → advances st2 st3 → advances st1 st3.
Proof.
  unfold advances.
  destruct (plan st1), (plan st2), (plan st3); try done.
  intros (Hg & Hr & Hi & Hd & Hc & Hin) (Hg' & Hr' & Hi' & Hd' & Hc' & Hin').
  split; [congruence|]. split; [congruence|]. split; [congruence|].
  split; [congruence|]. split; [lia | auto].
Qed.

Lemma progresses_refl (chat : text) (w : World) : progresses chat w w.
Proof.
  split; [by repeat split|]. intros st Hst. exists st.
  split; [done | apply advances_refl].
Qed.

Lemma progresses_trans (chat : text) (w1 w2 w3 : World) :
  progresses chat w1 w2 → progresses chat w2 w3 → progresses chat w1 w3.
Proof.
  intros [(Ho & Hn & Ht) Ha] [(Ho' & Hn' & Ht') Ha']. split.
  - split; [|split].
    + intros c Hc. by rewrite Ho', Ho.
    + by rewrite Hn', Hn.
    + by rewrite Ht', Ht.
  - intros st Hst. destruct (Ha st Hst) as (st2 & Hst2 & H12).
    destruct (Ha' st2 Hst2) as (st3 & Hst3 & H23).
    exists st3. split; [done|]. by eapply advances_trans.
Qed.

Lemma update_only_touches (chat : text) (u : Updates) (w : World) :
  only_touches chat w (snd (dbUpdateAgentState chat u w)).
Proof.
  unfold dbUpdateAgentState. destruct (store w !! chat) as [st|] eqn:Hst.
  - unfold only_touches. cbn [snd set_store store now].
    split; [|split; [|done]].
    + intros c Hc. by rewrite lookup_insert_ne.
    + rewrite lookup_insert_eq, Hst. split; intros; discriminate.
  - by unfold only_touches.
Qed.

Lemma addToContext_progresses (chat key : text) (value : json) (w : World) :
  progresses chat w (snd (addToContext chat key value w)).
Proof.
  destruct (store w !! chat) as [st|] eqn:Hst.
  - split.
    + unfold addToContext, dbGetAgentState. rewrite Hst.
      apply update_only_touches.
    + intros st0 Hst0. rewrite (addToContext_present _ _ _ _ _ Hst).
      simpl. rewrite lookup_insert_eq. eexists. split; [done|].
      assert (st0 = st) as -> by congruence.
      unfold advances, cursor_in_plan, cursor. simpl.
      destruct (plan st); [|done]. do 4 (split; [done|]). split; [lia|done].
  - unfold addToContext, dbGetAgentState. rewrite Hst. apply progresses_refl.
Qed.

Lemma map_imap_keep {A B} (proj : A → B) (f : nat → A → A) (l : list A) :
  (∀ i x, proj (f i x) = proj x) → map proj (imap f l) = map proj l.
Proof.
  intros Hf. apply list_eq. intros i.
  change (map proj) with (fmap (M:=list) proj).
  rewrite !list_lookup_fmap, list_lookup_imap.
  destruct (l !! i); simpl; [by rewrite Hf | done].
Qed.

Lemma completeCurrentStep_progresses (chat result : text) (w : World) :
  progresses chat w (snd (completeCurrentStep chat result w)).
Proof.
  unfold completeCurrentStep, dbGetAgentState.
  destruct (store w !! chat) as [st|] eqn:Hst; [|apply progresses_refl].
  destruct (plan st) as [p|] eqn:Hp; [|apply progresses_refl].
  destruct (at_index (steps p) (default 0 (currentStepIndex st)))
    as [step|] eqn:Hstep; [|apply progresses_refl].
  split; [apply update_only_touches|].
  intros st0 Hst0. assert (st0 = st) as -> by congruence.
  unfold dbUpdateAgentState. rewrite Hst. simpl. rewrite lookup_insert_eq.
  eexists. split; [done|].
  unfold at_index in Hstep.
  destruct (Z.ltb_spec (default 0 (currentStepIndex st)) 0); [done|].
  apply lookup_lt_Some in Hstep.
  unfold advances, cursor_in_plan, cursor. rewrite Hp. cbn -[imap].
  split; [done|]. split; [done|].
  split; [apply map_imap_keep; intros; by destruct (_ =? _)|].
  split; [apply map_imap_keep; intros; by destruct (_ =? _)|].
  rewrite length_imap. lia.
Qed.

End ProgressFacts.

(** ** What [prepareStep] keeps and what it writes *)

Section PrepareFacts.

Import State Agent.
Context `{Runtime}.

Lemma keeps_refl (chat : text) (o : Orchestrator) : keeps chat o o.
Proof. split; [apply progresses_refl | done]. Qed.

Lemma called_keeps (chat : text) (c : Call) (o : Orchestrator) :
  keeps chat o (called c o).
Proof.
  split; [apply progresses_refl|]. do 3 (split; [done|]).
  by apply prefix_app_r.
Qed.

Lemma keeps_trans (chat : text) (o1 o2 o3 : Orchestrator) :
  keeps chat o1 o2 → keeps chat o2 o3 → keeps chat o1 o3.
Proof.
  intros (Hp & Hw & Hn & Hf & Hc) (Hp' & Hw' & Hn' & Hf' & Hc').
  split; [by eapply progresses_trans|].
  split; [congruence|]. split; [congruence|]. split; [auto|].
  by etrans.
Qed.

Lemma noThrow_tail (fs : Faults) :
  noThrow fs = true → throwsNext fs = false ∧ noThrow (tail fs) = true.
Proof.
  destruct fs as [|[] fs]; cbn; [done | done | by intros ->].
Qed.

(** An awaited call that keeps the stores in step keeps the orchestrator in
    step, whether it returns or throws. *)
Lemma await_keeps {A} (chat : text) (f : World → A * World)
  (o : Orchestrator) :
  (∀ w, progresses chat w (snd (f w))) → keeps chat o (after (await f o)).
Proof.
  intros Hf. unfold await.
  destruct (throwsNext (faults o)); cbn [after set_world set_faults];
    (split; [first [apply Hf | apply progresses_refl]|]);
    (split; [done|]); (split; [done|]); (split; [|done]);
    cbn [faults]; intros Hq; by apply noThrow_tail.
Qed.

Lemma await_returned {A} (f : World → A * World) (o : Orchestrator) :
  noThrow (faults o) = true → returned (await f o) = true.
Proof.
  intros Hq. unfold await.
  by rewrite (proj1 (noThrow_tail _ Hq)).
Qed.

Lemma andThen_keeps {A B} (chat : text) (r : Outcome A)
  (k : A → Orchestrator → Outcome B) (o : Orchestrator) :
  keeps chat o (after r) →
  (∀ a o1, r = Returns a o1 → keeps chat o1 (after (k a o1))) →
  keeps chat o (after (andThen r k)).
Proof.
  intros Hr Hk. destruct r as [a o1|o1]; cbn [andThen after] in *; [|done].
  eapply keeps_trans; [exact Hr | by apply Hk].
Qed.

Lemma andThen_returned {A B} (chat : text) (r : Outcome A)
  (k : A → Orchestrator → Outcome B) (o : Orchestrator) :
  noThrow (faults o) = true → keeps chat o (after r) → returned r = true →
  (∀ a o1, noThrow (faults o1) = true → returned (k a o1) = true) →
  returned (andThen r k) = true.
Proof.
  intros Hq (_ & _ & _ & Hf & _) Hr Hk.
  destruct r as [a o1|o1]; cbn [andThen after returned] in *; [|done].
  apply Hk. by apply Hf.
Qed.

Lemma call_addToContext_keeps (chat key : text) (value : json)
  (o : Orchestrator) :
  keeps chat o (after (call_addToContext chat key value o)).
Proof.
  unfold call_addToContext.
  eapply keeps_trans; [|apply await_keeps; intros w;
                         apply addToContext_progresses].
  apply called_keeps.
Qed.

Lemma call_completeCurrentStep_keeps (chat result : text)
  (o : Orchestrator) :
  keeps chat o (after (call_completeCurrentStep chat result o)).
Proof.
  unfold call_completeCurrentStep.
  eapply keeps_trans; [|apply await_keeps; intros w;
                         apply completeCurrentStep_progresses].
  apply called_keeps.
Qed.

Lemma call_getAgentState_keeps (chat : text) (o : Orchestrator) :
  keeps chat o (after (call_getAgentState chat o)).
Proof.
  unfold call_getAgentState. apply await_keeps. intros w.
  apply progresses_refl.
Qed.

Lemma recordToolResults_keeps (chat : text) (i : nat)
  (results : list ToolResult) :
  ∀ o, keeps chat o (after (recordToolResults chat i results o)).
Proof.
  induction results as [|tr results IH]; intros o; cbn [recordToolResults].
  - apply keeps_refl.
  - apply andThen_keeps; [apply call_addToContext_keeps|].
    intros a o1 _. apply IH.
Qed.

Lemma recordToolResults_returned (chat : text) (i : nat)
  (results : list ToolResult) :
  ∀ o, noThrow (faults o) = true →
       returned (recordToolResults chat i results o) = true.
Proof.
  induction results as [|tr results IH]; intros o Hq; cbn [recordToolResults].
  - done.
  - eapply andThen_returned;
      [exact Hq | apply call_addToContext_keeps | by apply await_returned|].
    intros a o1 Hq1. by apply IH.
Qed.

Lemma processStep_keeps (chat : text) (i : nat) (r : StepResult)
  (o : Orchestrator) :
  keeps chat o (after (processStep chat i r o)).
Proof.
  unfold processStep. destruct (toolResults r) as [|tr results].
  { apply keeps_refl. }
  apply andThen_keeps; [apply recordToolResults_keeps|]. intros _ o1 _.
  apply andThen_keeps; [apply call_getAgentState_keeps|]. intros state o2 _.
  destruct state as [st|]; [destruct (plan st)|]; try apply keeps_refl.
  apply andThen_keeps; [apply call_completeCurrentStep_keeps|].
  intros _ o3 _. apply keeps_refl.
Qed.

Lemma processStep_returned (chat : text) (i : nat) (r : StepResult)
  (o : Orchestrator) :
  noThrow (faults o) = true → returned (processStep chat i r o) = true.
Proof.
  intros Hq. unfold processStep. destruct (toolResults r) as [|tr results].
  { done. }
  eapply andThen_returned;
    [exact Hq | apply recordToolResults_keeps
     | by apply recordToolResults_returned|].
  intros _ o1 Hq1.
  eapply andThen_returned;
    [exact Hq1 | apply call_getAgentState_keeps | by apply await_returned|].
  intros state o2 Hq2.
  destruct state as [st|]; [destruct (plan st)|]; try done.
  eapply andThen_returned;
    [exact Hq2 | apply call_completeCurrentStep_keeps
     | by apply await_returned|].
  done.
Qed.

Lemma processFrom_keeps (chat : text) (rest : list StepResult) :
  ∀ i o, keeps chat o (after (processFrom chat i rest o)).
Proof.
  induction rest as [|r rest IH]; intros i o; cbn [processFrom].
  - apply keeps_refl.
  - apply andThen_keeps; [apply processStep_keeps|].
    intros _ o1 _. apply IH.
Qed.

Lemma processFrom_returned (chat : text) (rest : list StepResult) :
  ∀ i o, noThrow (faults o) = true →
         returned (processFrom chat i rest o) = true.
Proof.
  induction rest as [|r rest IH]; intros i o Hq; cbn [processFrom].
  - done.
  - eapply andThen_returned;
      [exact Hq | apply processStep_keeps | by apply processStep_returned|].
    intros _ o1 Hq1. by apply IH.
Qed.

(** The recording block keeps everything but the counter, and when a call
    in it throws, the counter too. *)
Lemma recordNewSteps_keeps (chat : text) (steps : list StepResult)
  (o : Orchestrator) :
  let r := recordNewSteps chat steps o in
  progresses chat (world o) (world (after r))
  ∧ written (after r) = written o
  ∧ (noThrow (faults o) = true →
     noThrow (faults (after r)) = true ∧ returned r = true)
  ∧ calls o `prefix_of` calls (after r)
  ∧ (returned r = false → keeps chat o (after r)).
Proof.
  unfold recordNewSteps.
  destruct (_ <? _)%nat.
  - pose proof (processFrom_keeps chat (drop (lastProcessedStepCount o) steps)
                  (lastProcessedStepCount o) o) as Hk.
    pose proof (processFrom_returned chat
                  (drop (lastProcessedStepCount o) steps)
                  (lastProcessedStepCount o) o) as Hret.
    destruct (processFrom chat (lastProcessedStepCount o)
                (drop (lastProcessedStepCount o) steps) o) as [u o1|o1];
      cbn [andThen after returned set_lastProcessedStepCount world written
             faults calls] in *.
    + destruct Hk as (Hp & Hw & _ & Hf & Hc).
      split; [done|]. split; [done|]. split; [|done].
      intros Hq. split; [by apply Hf | done].
    + destruct Hk as (Hp & Hw & Hn & Hf & Hc).
      split; [done|]. split; [done|]. split; [|done].
      intros Hq. specialize (Hret Hq). done.
  - cbn [after returned]. split; [apply progresses_refl|].
    split; [done|]. split; [done|]. done.
Qed.

(** What the [try] block keeps up to the state read at its end; the state
    it reads is the stored one. *)
Lemma loadState_keeps (chat : text) (steps : list StepResult)
  (o : Orchestrator) :
  let r := loadState chat steps o in
  progresses chat (world o) (world (after r))
  ∧ written (after r) = written o
  ∧ (noThrow (faults o) = true →
     noThrow (faults (after r)) = true ∧ returned r = true)
  ∧ calls o `prefix_of` calls (after r)
  ∧ (returned (recordNewSteps chat steps o) = false →
     keeps chat o (after r)).
Proof.
  unfold loadState.
  destruct (recordNewSteps_keeps chat steps o)
    as (Hp & Hw & Hq & Hc & Hthrow).
  destruct (recordNewSteps chat steps o) as [u o1|o1];
    cbn [andThen after returned] in *.
  - pose proof (call_getAgentState_keeps chat o1)
      as (Hp' & Hw' & _ & Hf' & Hc').
    split; [by eapply progresses_trans|]. split; [congruence|].
    split; [|split; [by etrans | done]].
    intros Hq0. destruct (Hq Hq0) as [Hq1 _].
    split; [by apply Hf'|]. by apply await_returned.
  - split; [done|]. split; [done|]. split; [done|]. split; [done|]. done.
Qed.

(** X5. Whatever the rounds, [prepareStep] touches the state of its own
    conversation only, and neither creates nor deletes a state. The plan of
    that state keeps its goal, its reasoning and the ids and descriptions of
    its steps; the cursor never moves back and, if it was within the plan,
    stays within it. Without a conversation (absent or empty identifier)
    nothing changes at all. *)
Theorem prepareStep_keeps (chatId : option text) (n : nat)
  (steps : list StepResult) (messages : list Message) (o : Orchestrator) :
  (∀ chat, chatId = Some chat → chat ≠ [] →
     progresses chat (world o)
       (world (snd (prepareStep chatId n steps messages o))))
  ∧ (chatId = None ∨ chatId = Some [] →
     prepareStep chatId n steps messages o = (None, o)).
Proof.
  split.
  - intros chat -> Hchat.
    destruct (prepareStep_tracker chat n steps messages o Hchat)
      as (_ & -> & _).
    exact (proj1 (loadState_keeps chat steps o)).
  - by intros [-> | ->].
Qed.

(** X6. [prepareStep] writes to the stream exactly when it appends the state
    message: then the status of a state that is not idle is written, followed
    by the plan if there is one, and the messages come back with one system
    message added at the end; otherwise nothing is written. *)
Theorem prepareStep_writes_when_injecting (chatId : option text) (n : nat)
  (steps : list StepResult) (messages : list Message) (o : Orchestrator) :
  (fst (prepareStep chatId n steps messages o) = None →
   written (snd (prepareStep chatId n steps messages o)) = written o)
  ∧ ∀ prepared,
      fst (prepareStep chatId n steps messages o) = Some prepared →
      ∃ chat st,
        chatId = Some chat
        ∧ store (world (snd (prepareStep chatId n steps messages o))) !! chat
          = Some st
        ∧ status st ≠ idle
        ∧ written (snd (prepareStep chatId n steps messages o))
          = written o
            ++ DataAgentStatus (status st)
               :: match plan st with
                  | Some p => [DataAgentPlan p]
                  | None => []
                  end
        ∧ prepared
          = messages ++ [stateMessage n (formatStateContext (Some st))].
Proof.
  unfold prepareStep. destruct chatId as [[|c chat]|]; cbn [truthy].
  1, 3: by split.
  destruct (loadState_keeps (c :: chat) steps o) as (_ & Hw & _).
  pose proof (loadState_calls (c :: chat) steps o) as Hload.
  destruct (loadState (c :: chat) steps o) as [[st|] o1|o1];
    cbn [after] in Hw; [|by split|by split].
  destruct (Hload o1 (Some st) eq_refl) as (_ & _ & _ & Hget).
  cbv zeta.
  destruct (formatStateContext (Some st)) as [|u t] eqn:Hfmt.
  { destruct (status st); by split. }
  assert (∀ s, status st = s → s ≠ idle →
            (fst (Some (messages ++ [stateMessage n (u :: t)]),
                  match plan st with
                  | Some p => write (DataAgentPlan p)
                                (write (DataAgentStatus s) o1)
                  | None => write (DataAgentStatus s) o1
                  end) = None → False)
            ∧ ∃ chat0 st0,
                Some (c :: chat) = Some chat0
                ∧ store (world (match plan st with
                                | Some p => write (DataAgentPlan p)
                                              (write (DataAgentStatus s) o1)
                                | None => write (DataAgentStatus s) o1
                                end)) !! chat0 = Some st0
                ∧ status st0 ≠ idle
                ∧ written (match plan st with
                           | Some p => write (DataAgentPlan p)
                                         (write (DataAgentStatus s) o1)
                           | None => write (DataAgentStatus s) o1
                           end)
                  = written o
                    ++ DataAgentStatus (status st0)
                       :: match plan st0 with
                          | Some p => [DataAgentPlan p]
                          | None => []
                          end
                ∧ messages ++ [stateMessage n (u :: t)]
                  = messages ++ [stateMessage n (formatStateContext (Some st0))])
    as Hcase.
  { intros s Hs Hne. split; [done|]. exists (c :: chat), st.
    split; [done|]. rewrite Hfmt, Hs.
    destruct (plan st); cbn [write world written]; rewrite Hw;
      (split; [by rewrite Hget|]); (split; [done|]); split; try done.
    by rewrite <- app_assoc. }
  destruct (status st) eqn:Hs; [by split| | |];
    (destruct (Hcase _ eq_refl ltac:(done)) as [Hnone Hsome];
     split; [intros Hf; by destruct (Hnone Hf) | intros prepared Hp];
     cbn [fst] in Hp; injection Hp as <-; exact Hsome).
Qed.


End PrepareFacts.

Lemma prepareStep_keeps_witness :
  lit "chat-1" ≠ []
  ∧ progresses (lit "chat-1") (Agent.world AgentExamples.plannedStart)
      (Agent.world
         (snd (@Agent.prepareStep AsciiRuntime.runtime (Some (lit "chat-1")) 1
                 [AgentExamples.searchRound] [] AgentExamples.plannedStart)))
  ∧ @Agent.prepareStep AsciiRuntime.runtime None 1
      [AgentExamples.searchRound] [] AgentExamples.plannedStart
    = (None, AgentExamples.plannedStart).
Proof.
  assert (lit "chat-1" ≠ []) as Hchat by discriminate.
  split; [exact Hchat|]. split.
  - exact (proj1 (@prepareStep_keeps AsciiRuntime.runtime (Some (lit "chat-1"))
                    1 [AgentExamples.searchRound] []
                    AgentExamples.plannedStart)
             (lit "chat-1") eq_refl Hchat).
  - exact (proj2 (@prepareStep_keeps AsciiRuntime.runtime None 1
                    [AgentExamples.searchRound] []
                    AgentExamples.plannedStart)
             (or_introl eq_refl)).
Defined.

Lemma prepareStep_writes_when_injecting_witness :
  (fst (@Agent.prepareStep AsciiRuntime.runtime (Some (lit "chat-1")) 0 [] []
          (Agent.start (StateExamples.worldWith StateExamples.idleState)))
   = None
   ∧ Agent.written
       (snd (@Agent.prepareStep AsciiRuntime.runtime (Some (lit "chat-1")) 0
               [] []
               (Agent.start (StateExamples.worldWith StateExamples.idleState))))
     = [])
  ∧ Agent.written
      (snd (@Agent.prepareStep AsciiRuntime.runtime (Some (lit "chat-1")) 1
              [AgentExamples.searchRound] [] AgentExamples.unplannedStart))
    = [Agent.DataAgentStatus executing].
Proof.
  split.
  - assert (fst (@Agent.prepareStep AsciiRuntime.runtime (Some (lit "chat-1"))
                   0 [] []
                   (Agent.start
                      (StateExamples.worldWith StateExamples.idleState)))
            = None) as Hnone by (by vm_compute).
    split; [exact Hnone|].
    exact (proj1 (@prepareStep_writes_when_injecting AsciiRuntime.runtime
                    (Some (lit "chat-1")) 0 [] []
                    (Agent.start
                       (StateExamples.worldWith StateExamples.idleState)))
             Hnone).
  - destruct (fst (@Agent.prepareStep AsciiRuntime.runtime
                     (Some (lit "chat-1")) 1 [AgentExamples.searchRound] []
                     AgentExamples.unplannedStart)) as [prepared|] eqn:E.
    + destruct (proj2 (@prepareStep_writes_when_injecting AsciiRuntime.runtime
                         (Some (lit "chat-1")) 1 [AgentExamples.searchRound]
                         [] AgentExamples.unplannedStart) prepared E)
        as (chat & st & _ & _ & _ & Hw & _).
      by vm_compute.
    + by vm_compute in E.
Defined.


(** ** A whole run of the agent *)

Section RunFacts.

Import State Agent.
Context `{Runtime}.

Lemma round_parts {St} (cfg : Settings St) (engine : list Message → StepResult)
  (initial : list Message) (steps : list StepResult) (s : St) :
  ∃ r, round cfg engine initial steps s
       = (steps ++ [r],
          snd (Sdk.prepareStep cfg (length steps) steps
                 (stepInput initial steps) s)).
Proof.
  unfold round.
  destruct (Sdk.prepareStep cfg (length steps) steps (stepInput initial steps) s).
  eauto.
Qed.

Lemma recorded_round (chat : text) (w0 : World) (steps : list StepResult)
  (o : Orchestrator) (n : nat) (messages : list Message) (r : StepResult) :
  chat ≠ [] → noThrow (faults o) = true → recorded chat w0 steps o →
  recorded chat w0 (steps ++ [r])
    (snd (prepareStep (Some chat) n steps messages o))
  ∧ noThrow (faults (snd (prepareStep (Some chat) n steps messages o))) = true.
Proof.
  intros Hchat Hq (Hn & Hc & Hp & Hprog).
  destruct (prepareStep_tracker chat n steps messages o Hchat)
    as (Hc1 & Hw1 & Hn1 & Hf1).
  destruct (loadState_keeps chat steps o) as (Hprog' & _ & Hq' & _).
  destruct (Hq' Hq) as [Hq1 Hret].
  destruct (returned_Returns _ Hret) as (state & o0 & Hload).
  rewrite Hload in Hc1, Hw1, Hn1, Hf1, Hprog', Hq1.
  cbn [after] in Hc1, Hw1, Hn1, Hf1, Hprog', Hq1.
  destruct (loadState_calls chat steps o o0 state Hload)
    as (Hc' & Hp' & Hn' & _).
  split; [|by rewrite Hf1].
  unfold recorded. rewrite length_app. cbn [length].
  replace (pred (length steps + 1)) with (length steps) by lia.
  rewrite take_app_length.
  split; [rewrite Hn1, Hn'; lia|].
  split.
  { rewrite Hc1, Hc', Hc, Hp, Hn.
    transitivity (spec_trackerCalls (hasPlan chat w0) chat 0
                    (take (pred (length steps)) steps
                     ++ drop (pred (length steps)) steps));
      [|by rewrite take_drop].
    rewrite spec_trackerCalls_app. do 2 f_equal.
    rewrite length_take. lia. }
  split; [by rewrite Hw1, Hp'|].
  rewrite Hw1. by eapply progresses_trans.
Qed.

Lemma run_recorded (opts : CreateAgentOptions) (chat : text)
  (engine : list Message → StepResult) (initial : list Message) (w0 : World) :
  reasoningOnly opts = false → opt_chatId opts = Some chat → chat ≠ [] →
  ∀ fuel steps o rs o',
    noThrow (faults o) = true → recorded chat w0 steps o →
    run (createAgent opts) engine initial fuel steps o = Some (rs, o') →
    recorded chat w0 rs o'.
Proof.
  intros Htools Hid Hchat fuel.
  induction fuel as [|fuel IH]; intros steps o rs o' Hq Hrec Hrun; [done|].
  cbn [run] in Hrun.
  destruct (round_parts (createAgent opts) engine initial steps o) as [r Hr].
  rewrite Hr in Hrun.
  assert (recorded chat w0 (steps ++ [r])
            (snd (Sdk.prepareStep (createAgent opts) (length steps) steps
                    (stepInput initial steps) o))
          ∧ noThrow (faults (snd (Sdk.prepareStep (createAgent opts)
                                    (length steps) steps
                                    (stepInput initial steps) o))) = true)
    as [Hnext Hq'].
  { unfold createAgent. unfold reasoningOnly in Htools. rewrite Htools, Hid.
    cbn [Sdk.prepareStep]. by apply recorded_round. }
  destruct (halts (createAgent opts) (steps ++ [r])).
  - by injection Hrun as <- <-.
  - by eapply IH.
Qed.

(** Whether the store throws or not, a run keeps the stores in step. *)
Lemma run_progresses (opts : CreateAgentOptions) (chat : text)
  (engine : list Message → StepResult) (initial : list Message) (w0 : World) :
  reasoningOnly opts = false → opt_chatId opts = Some chat → chat ≠ [] →
  ∀ fuel steps o rs o',
    progresses chat w0 (world o) →
    run (createAgent opts) engine initial fuel steps o = Some (rs, o') →
    progresses chat w0 (world o').
Proof.
  intros Htools Hid Hchat fuel.
  induction fuel as [|fuel IH]; intros steps o rs o' Hprog Hrun; [done|].
  cbn [run] in Hrun.
  destruct (round_parts (createAgent opts) engine initial steps o) as [r Hr].
  rewrite Hr in Hrun.
  assert (progresses chat w0
            (world (snd (Sdk.prepareStep (createAgent opts) (length steps)
                           steps (stepInput initial steps) o)))) as Hnext.
  { unfold createAgent. unfold reasoningOnly in Htools. rewrite Htools, Hid.
    cbn [Sdk.prepareStep].
    destruct (prepareStep_tracker chat (length steps) steps
                (stepInput initial steps) o Hchat) as (_ & -> & _).
    eapply progresses_trans; [exact Hprog|].
    exact (proj1 (loadState_keeps chat steps o)). }
  destruct (halts (createAgent opts) (steps ++ [r])).
  - by injection Hrun as <- <-.
  - by eapply IH.
Qed.

(** X9. A run of the agent with tools on a bound conversation, with a bound of
    at least 1, ends within the bound, whether calls of the store throw or
    not, and over the whole run only the state of that conversation is
    touched, its plan keeps its steps and the cursor never moves back. If no
    call of the store throws, then, when the run has ended, the tracker has
    been called for every round but the last one, once for each and in
    order: the results of the last round are not recorded. For a
    reasoning-only model the run leaves the store, the counter, the calls
    and the stream as they were. *)
Theorem run_records_all_but_last (opts : CreateAgentOptions)
  (engine : list Message → StepResult) (initial : list Message)
  (w0 : World) (fs : Faults) (fuel : nat) :
  1 ≤ roundLimit opts → (Z.to_nat (roundLimit opts) ≤ fuel)%nat →
  ∃ rs o',
    run (createAgent opts) engine initial fuel [] (startWith fs w0)
    = Some (rs, o')
    ∧ 1 ≤ Z.of_nat (length rs) ≤ roundLimit opts
    ∧ (reasoningOnly opts = true → o' = startWith fs w0)
    ∧ ∀ chat,
        reasoningOnly opts = false → opt_chatId opts = Some chat →
        chat ≠ [] →
        progresses chat w0 (world o')
        ∧ (noThrow fs = true →
           lastProcessedStepCount o' = pred (length rs)
           ∧ calls o'
             = spec_trackerCalls (hasPlan chat w0) chat 0
                 (take (pred (length rs)) rs)).
Proof.
  intros Hpos Hfuel.
  destruct (run_bounded (createAgent opts) engine initial
              (Z.to_nat (roundLimit opts))
              (λ steps Hlen, createAgent_stops_at_limit opts steps Hlen Hpos)
              (Z.to_nat (roundLimit opts)) [] (startWith fs w0) fuel)
    as (rs & o' & Hrun & _ & Hb & _); [done | lia | done |].
  simpl in Hb. exists rs, o'. split; [done|]. split; [lia|]. split.
  - intros Hreason. clear Hb Hfuel. revert Hrun. generalize (@nil StepResult).
    induction fuel as [|fuel IH]; intros steps Hrun; [done|].
    cbn [run] in Hrun.
    destruct (round_parts (createAgent opts) engine initial steps
                (startWith fs w0)) as [r Hr].
    rewrite Hr in Hrun.
    assert (Sdk.prepareStep (createAgent opts) (length steps) steps
              (stepInput initial steps) (startWith fs w0)
            = (None, startWith fs w0)) as Hnop.
    { unfold createAgent. unfold reasoningOnly in Hreason. by rewrite Hreason. }
    rewrite Hnop in Hrun. cbn [snd] in Hrun.
    destruct (halts _ _); [by injection Hrun as _ <- | by eapply IH].
  - intros chat Htools Hid Hchat. split.
    + eapply (run_progresses opts chat engine initial w0 Htools Hid Hchat
                fuel [] (startWith fs w0) rs o'); [|done].
      apply progresses_refl.
    + intros Hq.
      destruct (run_recorded opts chat engine initial w0 Htools Hid Hchat
                  fuel [] (startWith fs w0) rs o') as (Hn & Hc & _);
        [done| |done|done].
      split; [done|]. split; [done|]. split; [done|]. apply progresses_refl.
Qed.

End RunFacts.

Lemma run_records_all_but_last_witness :
  Agent.noThrow [false; false] = true
  ∧ ∃ rs o',
      run (@Agent.createAgent AsciiRuntime.runtime
             {| Agent.systemPrompt := lit "You are a helpful agent.";
                Agent.opt_chatId := Some (lit "chat-1");
                Agent.isReasoningModel := None;
                Agent.maxSteps := Some 3 |})
        AgentExamples.searchForever [] 3 []
        (Agent.startWith [false; false]
           (StateExamples.worldWith
              (StateExamples.stateWith (Some StateExamples.testPlan)
                 executing [])))
      = Some (rs, o')
      ∧ Agent.lastProcessedStepCount o' = pred (length rs).
Proof.
  split; [reflexivity|].
  destruct (@run_records_all_but_last AsciiRuntime.runtime
              {| Agent.systemPrompt := lit "You are a helpful agent.";
                 Agent.opt_chatId := Some (lit "chat-1");
                 Agent.isReasoningModel := None;
                 Agent.maxSteps := Some 3 |}
              AgentExamples.searchForever []
              (StateExamples.worldWith
                 (StateExamples.stateWith (Some StateExamples.testPlan)
                    executing []))
              [false; false] 3%nat)
    as (rs & o' & Hrun & _ & _ & Hrec).
  - vm_compute. discriminate.
  - vm_compute. lia.
  - exists rs, o'. split; [exact Hrun|].
    destruct (Hrec (lit "chat-1")) as [_ Hquiet];
      [reflexivity | reflexivity | discriminate |].
    exact (proj1 (Hquiet eq_refl)).
Defined.

(** ** The life of a plan *)

Section LifecycleFacts.

Import State.

Lemma imap_complete (l : list PlanStep) (k : nat) (s : PlanStep)
  (result : text) :
  l !! k = Some s →
  imap (λ idx step,
          if Z.of_nat idx =? Z.of_nat k then completeStep result step
          else step) l
  = <[k := completeStep result s]> l.
Proof.
  intros Hk. apply list_eq. intros j. rewrite list_lookup_imap.
  destruct (decide (j = k)) as [->|Hne].
  - rewrite list_lookup_insert_eq by (by eapply lookup_lt_Some).
    rewrite Hk. simpl. by rewrite Z.eqb_refl.
  - rewrite list_lookup_insert_ne by done.
    destruct (l !! j); [|done]. simpl.
    by destruct (Z.eqb_spec (Z.of_nat j) (Z.of_nat k)); [lia|].
Qed.

(** One completion, for a cursor that is a valid index. *)
Lemma completeCurrentStep_at (chat result : text) (w : World)
  (st : AgentState) (p : AgentPlan) (k : nat) (s : PlanStep) :
  store w !! chat = Some st → plan st = Some p →
  currentStepIndex st = Some (Z.of_nat k) → steps p !! k = Some s →
  store (snd (completeCurrentStep chat result w))
  = <[chat :=
        {| chatId := chatId st;
           plan :=
             Some {| goal := goal p;
                     steps := <[k := completeStep result s]> (steps p);
                     reasoning := reasoning p |};
           currentStepIndex := Some (Z.of_nat (S k));
           completedSteps :=
             Some (default [] (completedSteps st)
                   ++ [logEntry (now w) s result]);
           context := context st;
           status :=
             (if decide (S k = length (steps p)) then completed
              else executing) |}]> (store w)
  ∧ now (snd (completeCurrentStep chat result w)) = now w.
Proof.
  intros Hst Hp Hidx Hs.
  unfold completeCurrentStep, dbGetAgentState, dbUpdateAgentState.
  rewrite Hst, Hp, Hidx.
  change (default 0 (Some (Z.of_nat k))) with (Z.of_nat k).
  unfold at_index. destruct (Z.ltb_spec (Z.of_nat k) 0); [lia|].
  rewrite Nat2Z.id, Hs. cbn [snd set_store store now]. split; [|done].
  f_equal. unfold apply_updates.
  cbn -[imap Z.of_nat Z.sub Z.leb]. f_equal.
  - by rewrite (imap_complete _ k s).
  - f_equal. lia.
  - pose proof (lookup_lt_Some _ _ _ Hs).
    destruct (decide _);
      destruct (Z.leb_spec (Z.of_nat (length (steps p)) - 1) (Z.of_nat k));
      done || lia.
Qed.

(** The state of the conversation after [updatePlan] and one completion per
    result, for as many results as fit the plan. *)
Lemma completeEach_state (chat : text) (p : AgentPlan) (w : World)
  (st0 : AgentState) (results : list text) :
  store w !! chat = Some st0 →
  (length results ≤ length (steps p))%nat →
  now (completeEach chat results (snd (updatePlan chat p w))) = now w
  ∧ (∀ c, c ≠ chat →
       store (completeEach chat results (snd (updatePlan chat p w))) !! c
       = store w !! c)
  ∧ store (completeEach chat results (snd (updatePlan chat p w))) !! chat
    = Some {| chatId := chatId st0;
              plan :=
                Some {| goal := goal p;
                        steps :=
                          zip_with (λ s r, completeStep r s)
                            (take (length results) (steps p)) results
                          ++ drop (length results) (steps p);
                        reasoning := reasoning p |};
              currentStepIndex := Some (Z.of_nat (length results));
              completedSteps :=
                (if decide (length results = 0%nat) then completedSteps st0
                 else Some (default [] (completedSteps st0)
                            ++ zip_with (logEntry (now w))
                                 (take (length results) (steps p)) results));
              context := context st0;
              status :=
                (if decide (length results ≠ 0%nat
                            ∧ length results = length (steps p))
                 then completed else executing) |}.
Proof.
  intros Hst0. induction results as [|r results IH] using rev_ind.
  - intros _. cbn [length completeEach foldl].
    unfold updatePlan, dbUpdateAgentState. rewrite Hst0.
    cbn [snd set_store store now].
    split; [done|]. split; [by intros; rewrite lookup_insert_ne|].
    rewrite lookup_insert_eq. unfold apply_updates. simpl.
    rewrite drop_0. by destruct p.
  - intros Hlen. rewrite length_app in *. cbn [length] in *.
    destruct IH as (Hnow & Hoth & Hcur); [lia|].
    unfold completeEach in *. rewrite foldl_snoc.
    set (wk := foldl _ (snd (updatePlan chat p w)) results) in *.
    destruct (lookup_lt_is_Some_2 (steps p) (length results)) as [s Hs];
      [lia|].
    assert (length (zip_with (λ s r, completeStep r s)
                      (take (length results) (steps p)) results)
            = length results) as Hzl.
    { rewrite length_zip_with, length_take. lia. }
    destruct (completeCurrentStep_at chat r wk _ _ (length results) s
                Hcur eq_refl eq_refl) as [Hstore ->].
    { cbn [steps]. rewrite lookup_app_r by lia.
      by rewrite Hzl, Nat.sub_diag, lookup_drop, Nat.add_0_r. }
    rewrite Hstore. split; [done|].
    split; [by intros; rewrite lookup_insert_ne, Hoth|].
    rewrite lookup_insert_eq.
    replace (length results + 1)%nat with (S (length results)) by lia.
    cbn [chatId plan currentStepIndex completedSteps context status goal
         steps reasoning].
    rewrite (take_S_r _ _ _ Hs), Hnow.
    rewrite !zip_with_app by (rewrite length_take; lia).
    cbn [zip_with]. f_equal. f_equal.
    + do 2 f_equal. rewrite insert_app_r_alt by lia.
      rewrite Hzl, Nat.sub_diag, (drop_S _ _ _ Hs). cbn [insert list_insert].
      by rewrite <- app_assoc.
    + rewrite (decide_False (P := S (length results) = 0%nat)) by lia. f_equal.
      destruct (decide (length results = 0%nat)) as [E|E].
      * apply nil_length_inv in E as ->. by simpl.
      * simpl. by rewrite <- app_assoc.
    + rewrite length_app, length_drop, Hzl.
      repeat case_decide; done || lia.
Qed.

End LifecycleFacts.

Section LifecycleTheorems.

Import State.

(** X4. After [updatePlan] and one [completeCurrentStep] per result, for no more
    results than the plan has steps: the cursor is the number of results;
    exactly the steps below the cursor are marked done, each with its own
    result, and the other steps are as given; the log has one more entry per
    result, in the order of the steps; the status is completed exactly when
    every step of a plan with at least one step has been completed, and
    executing before. The findings and the log of an earlier task are kept
    by [updatePlan]. Once every step is completed, a further
    [completeCurrentStep] returns nothing and changes nothing. *)
Theorem plan_life (chat : text) (p : AgentPlan) (w : World)
  (st0 : AgentState) (results : list text) :
  store w !! chat = Some st0 →
  (length results ≤ length (steps p))%nat →
  ∃ st p',
    store (completeEach chat results (snd (updatePlan chat p w))) !! chat
    = Some st
    ∧ plan st = Some p'
    ∧ goal p' = goal p ∧ reasoning p' = reasoning p
    ∧ length (steps p') = length (steps p)
    ∧ (∀ i s, steps p !! i = Some s →
         steps p' !! i
         = Some (match results !! i with
                 | Some r => completeStep r s
                 | None => s
                 end))
    ∧ currentStepIndex st = Some (Z.of_nat (length results))
    ∧ default [] (completedSteps st)
      = default [] (completedSteps st0)
        ++ zip_with (logEntry (now w)) (take (length results) (steps p))
             results
    ∧ status st
      = (if decide (length results ≠ 0%nat
                    ∧ length results = length (steps p))
         then completed else executing)
    ∧ context st = context st0
    ∧ (length results = length (steps p) →
       ∀ r, completeCurrentStep chat r
              (completeEach chat results (snd (updatePlan chat p w)))
            = (None, completeEach chat results (snd (updatePlan chat p w)))).
Proof.
  intros Hst0 Hlen.
  destruct (completeEach_state chat p w st0 results Hst0 Hlen)
    as (Hnow & Hoth & Hcur).
  assert (length (zip_with (λ s r, completeStep r s)
                    (take (length results) (steps p)) results)
          = length results) as Hzl.
  { rewrite length_zip_with, length_take. lia. }
  eexists _, _. split; [exact Hcur|]. cbn [plan].
  split; [done|]. cbn [goal reasoning steps currentStepIndex completedSteps
                       status context].
  split; [done|]. split; [done|].
  split; [rewrite length_app, length_drop, Hzl; lia|].
  split.
  { intros i s Hi. destruct (decide (i < length results)%nat) as [Hlt|Hge].
    - rewrite lookup_app_l by lia.
      destruct (lookup_lt_is_Some_2 results i Hlt) as [r Hr].
      rewrite lookup_zip_with, lookup_take_lt, Hi, Hr by done. done.
    - rewrite lookup_app_r by lia. rewrite Hzl, lookup_drop.
      replace (length results + (i - length results))%nat with i by lia.
      rewrite Hi. by rewrite (lookup_ge_None_2 results i) by lia. }
  split; [done|].
  split.
  { destruct (decide (length results = 0%nat)) as [E|E]; [|done].
    apply nil_length_inv in E as ->. simpl. by rewrite app_nil_r. }
  split; [done|]. split; [done|].
  intros Hall r. unfold completeCurrentStep, dbGetAgentState.
  rewrite Hcur. cbn [plan currentStepIndex steps].
  change (default 0 (Some (Z.of_nat (length results))))
    with (Z.of_nat (length results)).
  rewrite at_index_out_of_range; [done|].
  rewrite length_app, length_drop, Hzl. lia.
Qed.

(** X3. [initializeAgentState] always leaves the conversation with an idle
    state without a plan, with the cursor at 0 and an empty log and empty
    findings, whether a state existed or not; it returns that state, touches
    no other conversation, is idempotent, and the state it leaves formats to
    the empty text. *)
Theorem initializeAgentState_resets `{Runtime} (chat : text) (w : World) :
  ∃ st w',
    initializeAgentState chat w = (Some st, w')
    ∧ store w' = <[chat := st]> (store w)
    ∧ status st = idle ∧ plan st = None
    ∧ currentStepIndex st = Some 0
    ∧ completedSteps st = Some [] ∧ context st = Some []
    ∧ initializeAgentState chat w' = (Some st, w')
    ∧ formatStateContext (getAgentState chat w') = [].
Proof.
  unfold initializeAgentState, dbGetAgentState, getAgentState.
  destruct (store w !! chat) as [st0|] eqn:Hst.
  - unfold dbUpdateAgentState. rewrite Hst. eexists _, _.
    split; [reflexivity|]. cbn [store set_store].
    do 6 (split; [done|]). unfold dbGetAgentState. cbn [store set_store].
    rewrite !lookup_insert_eq. split; [|reflexivity].
    unfold apply_updates. cbn. by rewrite insert_insert_eq.
  - unfold saveAgentState. eexists _, _. split; [reflexivity|].
    cbn [store set_store]. do 6 (split; [done|]). unfold dbGetAgentState.
    cbn [store set_store]. rewrite !lookup_insert_eq. split; [|reflexivity].
    unfold dbUpdateAgentState. cbn [store set_store].
    rewrite lookup_insert_eq. unfold apply_updates. cbn.
    by rewrite insert_insert_eq.
Qed.

End LifecycleTheorems.

Lemma plan_life_witness :
  ∃ st,
    State.store
      (completeEach (lit "chat-1") [lit "found"; lit "read"; lit "written"]
         (snd (State.updatePlan (lit "chat-1") StateExamples.testPlan
                 (StateExamples.worldWith StateExamples.idleState))))
    !! lit "chat-1" = Some st
    ∧ currentStepIndex st = Some 3
    ∧ status st = completed.
Proof.
  destruct (plan_life (lit "chat-1") StateExamples.testPlan
              (StateExamples.worldWith StateExamples.idleState)
              StateExamples.idleState
              [lit "found"; lit "read"; lit "written"])
    as (st & p' & Hst & _ & _ & _ & _ & _ & Hidx & _ & Hstatus & _).
  - apply lookup_singleton_eq.
  - vm_compute. lia.
  - exists st. split; [exact Hst|]. split; [exact Hidx | exact Hstatus].
Defined.

(** ** What the injected text shows *)

Section ContentFacts.

Import State.
Context `{Runtime}.

Lemma occurs_in_part (x pre post : text) : occurs_in x (pre ++ x ++ post).
Proof. by exists pre, post. Qed.

Lemma occurs_in_trans (x y z : text) :
  occurs_in x y → occurs_in y z → occurs_in x z.
Proof.
  intros (a & b & ->) (c & d & ->). exists (c ++ a), (b ++ d).
  by rewrite <- !app_assoc.
Qed.

Lemma join_occurs (sep p : text) (l : list text) :
  p ∈ l → occurs_in p (join sep l).
Proof.
  induction l as [|q l IH]; intros Hin; [by apply elem_of_nil in Hin|].
  apply elem_of_cons in Hin as [->|Hin].
  - destruct l as [|r l]; [exists [], []; by rewrite app_nil_r|].
    rewrite join_cons_cons. by exists [], (sep ++ join sep (r :: l)).
  - destruct l as [|r l]; [by apply elem_of_nil in Hin|].
    rewrite join_cons_cons. destruct (IH Hin) as (a & b & ->).
    exists (q ++ sep ++ a), b. by rewrite <- !app_assoc.
Qed.

(** X2. Below the ceiling nothing is left out of the text injected for a state
    that is not idle: it shows the goal, every step with its number, its
    description and a marker that depends on the cursor alone (not on the
    step's own status), every finding with its key, and every entry of the
    log with its description and result. *)
Theorem formatStateContext_shows_everything (st : AgentState) :
  status st ≠ idle →
  Z.of_nat (length (formatted st)) ≤ 16000 →
  (∀ p, plan st = Some p →
     occurs_in (lit "Goal: " ++ goal p) (formatStateContext (Some st))
     ∧ ∀ i s, steps p !! i = Some s →
         occurs_in
           (decimal (i + 1) ++ lit ". "
            ++ (if Z.of_nat i <? cursor st then lit "[DONE]"
                else if Z.of_nat i =? cursor st then lit "[IN PROGRESS]"
                else lit "[PENDING]")
            ++ lit " " ++ description s)
           (formatStateContext (Some st)))
  ∧ (∀ key value, (key, value) ∈ default [] (context st) →
       occurs_in
         (key ++ lit ": "
          ++ match value with JStr s => s | _ => JSON_stringify value end)
         (formatStateContext (Some st)))
  ∧ (∀ c, c ∈ default [] (completedSteps st) →
       occurs_in (cs_description c ++ lit ": " ++ cs_result c)
         (formatStateContext (Some st))).
Proof.
  intros Hact Hfit. rewrite formatStateContext_active by done.
  unfold MAX_CONTEXT_CHARS.
  destruct (Z.ltb_spec 16000 (Z.of_nat (length (formatted st)))); [lia|].
  assert (∀ x line, line ∈ parts st → occurs_in x line →
            occurs_in x (formatted st)) as Hline.
  { intros x line Hin Hx. eapply occurs_in_trans; [exact Hx|].
    by apply join_occurs. }
  split; [|split].
  - intros p Hp. split.
    + apply (Hline _ (lit "    Goal: " ++ goal p)).
      * unfold parts, planSection. rewrite Hp. rewrite !elem_of_app, !elem_of_cons. tauto.
      * exists (lit "    "), []. rewrite app_nil_r. reflexivity.
    + intros i s Hs. apply (Hline _ (stepLine (cursor st) i s)).
      * unfold parts, planSection. rewrite Hp.
        pose proof (elem_of_lookup_imap_2
                      (stepLine (default 0 (currentStepIndex st)))
                      (steps p) s i Hs).
        unfold cursor. rewrite !elem_of_app, !elem_of_cons. tauto.
      * unfold stepLine. eexists (lit "    "), _.
        by rewrite <- !app_assoc.
  - intros key value Hin. apply (Hline _ (contextLine (key, value))).
    + unfold parts, contextSection.
      destruct (context st) as [[|e o]|]; [by apply elem_of_nil in Hin| |
                                           by apply elem_of_nil in Hin].
      pose proof (list_elem_of_fmap_2 contextLine _ _ Hin).
      rewrite !elem_of_app. tauto.
    + unfold contextLine. exists (lit "    "), [].
      by rewrite <- !app_assoc, app_nil_r.
  - intros c Hin. apply (Hline _ (completedLine c)).
    + unfold parts, completedSection.
      destruct (completedSteps st) as [[|e o]|]; [by apply elem_of_nil in Hin| |
                                                  by apply elem_of_nil in Hin].
      pose proof (list_elem_of_fmap_2 completedLine _ _ Hin).
      rewrite !elem_of_app. tauto.
    + unfold completedLine. exists (lit "    - "), [].
      by rewrite <- !app_assoc, app_nil_r.
Qed.

End ContentFacts.

Lemma formatStateContext_shows_everything_witness :
  status (StateExamples.stateWith (Some StateExamples.testPlan) executing [])
  ≠ idle
  ∧ Z.of_nat (length (@State.formatted AsciiRuntime.runtime
                        (StateExamples.stateWith (Some StateExamples.testPlan)
                           executing []))) ≤ 16000
  ∧ occurs_in (lit "Goal: " ++ goal StateExamples.testPlan)
      (@State.formatStateContext AsciiRuntime.runtime
         (Some (StateExamples.stateWith (Some StateExamples.testPlan)
                  executing []))).
Proof.
  assert (status (StateExamples.stateWith (Some StateExamples.testPlan)
                    executing []) ≠ idle) as Hact by discriminate.
  assert (Z.of_nat (length (@State.formatted AsciiRuntime.runtime
                              (StateExamples.stateWith
                                 (Some StateExamples.testPlan) executing [])))
          ≤ 16000) as Hfit by (vm_compute; discriminate).
  split; [exact Hact|]. split; [exact Hfit|].
  exact (proj1 (proj1 (@formatStateContext_shows_everything
                         AsciiRuntime.runtime _ Hact Hfit)
                  StateExamples.testPlan eq_refl)).
Defined.

(** ** The keys of the findings *)

Section KeyFacts.

Import State Agent.
Context `{Runtime}.

Lemma lit_String (a : ascii) (s : string) :
  lit (String a s) = N_of_ascii a :: lit s.
Proof. reflexivity. Qed.

Lemma lit_inj (s t : string) : lit s = lit t → s = t.
Proof.
  revert t. induction s as [|a s IH]; intros [|b t] Heq; try done.
  rewrite !lit_String in Heq. injection Heq as Ha Hs.
  f_equal; [|by apply IH].
  by rewrite <- (ascii_N_embedding a), <- (ascii_N_embedding b), Ha.
Qed.

Lemma pretty_N_char_digit (x : N) : digit (N_of_ascii (pretty_N_char x)).
Proof.
  unfold pretty_N_char, digit. repeat case_match; vm_compute; by split.
Qed.

Lemma pretty_N_go_digits (x : N) :
  ∀ s, Forall digit (lit s) → Forall digit (lit (pretty_N_go x s)).
Proof.
  induction (N.lt_wf_0 x) as [x _ IH]. intros s Hs.
  destruct (decide (0 < x)%N) as [Hpos|Hzero].
  - rewrite pretty_N_go_step by done. apply IH.
    + apply N.div_lt; lia.
    + rewrite lit_String. constructor; [apply pretty_N_char_digit | done].
  - assert (x = 0%N) as -> by lia. by rewrite pretty_N_go_0.
Qed.

Lemma decimal_digits (n : nat) : Forall digit (decimal n).
Proof.
  unfold decimal, pretty, pretty_N. case_decide.
  - change (lit "0") with [48%N].
    constructor; [unfold digit; lia | constructor].
  - apply pretty_N_go_digits. constructor.
Qed.

Lemma decimal_inj (n m : nat) : decimal n = decimal m → n = m.
Proof.
  unfold decimal. intros Heq. apply lit_inj in Heq.
  apply (inj pretty) in Heq. lia.
Qed.

Lemma digits_then_underscore (d1 d2 n1 n2 : text) :
  Forall digit d1 → Forall digit d2 →
  d1 ++ 95%N :: n1 = d2 ++ 95%N :: n2 → d1 = d2 ∧ n1 = n2.
Proof.
  intros Hd1. revert d2. induction Hd1 as [|c d1 Hc Hd1 IH];
    intros d2 Hd2 Heq.
  - destruct Hd2 as [|c' d2 Hc' Hd2]; simpl in Heq.
    + by injection Heq as ->.
    + injection Heq as <- _. unfold digit in Hc'. lia.
  - destruct Hd2 as [|c' d2 Hc' Hd2]; simpl in Heq.
    + injection Heq as -> _. unfold digit in Hc. lia.
    + injection Heq as -> Heq. destruct (IH d2 Hd2 Heq) as [-> ->]. done.
Qed.

(** X7. The key of a finding determines the round and the tool name, and
    nothing else: two keys are equal exactly when round and tool name are.
    So findings of different rounds or tools never overwrite each other,
    whatever characters the tool name has. *)
Theorem contextKey_unique (i j : nat) (tr tr' : ToolResult) :
  contextKey i tr = contextKey j tr'
  ↔ i = j ∧ toolName tr = toolName tr'.
Proof.
  split; [|intros [-> Hn]; unfold contextKey; by rewrite Hn].
  unfold contextKey. intros Heq. apply app_inv_head in Heq.
  change (lit "_") with [95%N] in Heq. cbn [app] in Heq.
  apply digits_then_underscore in Heq as [Hd Hn];
    [|apply decimal_digits..].
  apply decimal_inj in Hd. split; [lia | done].
Qed.


End KeyFacts.


(** ** Plans: their shape, and when to replan *)

Section PlanShapeFacts.

Import Planning Replanning.
Context `{Runtime}.

Variable generateUUID : nat → text.

Lemma map_imap_proj {A B C} (f : nat → A → B) (proj : B → C) (g : A → C)
  (l : list A) :
  (∀ k x, proj (f k x) = g x) → map proj (imap f l) = map g l.
Proof.
  intros Hf. apply list_eq. intros i.
  change (map ?h) with (fmap (M:=list) h).
  rewrite !list_lookup_fmap, list_lookup_imap.
  destruct (l !! i); simpl; [by rewrite Hf | done].
Qed.

Lemma convertSteps_shape (l : list StepOutput) :
  ∀ n,
    fst (convertSteps generateUUID n l)
    = imap (λ k s, {| id := generateUUID (n + k);
                      description := out_description s;
                      tool := out_tool s;
                      step_status := pending;
                      step_result := None |}) l
    ∧ snd (convertSteps generateUUID n l) = (n + length l)%nat.
Proof.
  induction l as [|s l IH]; intros n; cbn [convertSteps].
  - split; [done | simpl; lia].
  - destruct (IH (S n)) as [Hf Hs].
    destruct (convertSteps generateUUID (S n) l) as [rest n'].
    cbn [fst snd] in *. subst. split.
    + rewrite imap_cons. rewrite Nat.add_0_r. f_equal.
      apply imap_ext. intros k x _. simpl.
      by replace (n + S k)%nat with (S (n + k)) by lia.
    + simpl. lia.
Qed.

(** X10. The steps of a plan from [createPlan] are the steps of the validated
    reply in their order, with the same descriptions and tools, or the two
    fallback steps; all are pending and without result. The identifiers are
    the next ones of the generator, one per step, so they are distinct
    within the plan when the generator does not repeat itself, and the next
    plan starts after them. *)
Theorem createPlan_shape (n : nat) (task : text) (g : Generation) :
  let p := fst (createPlan generateUUID n task g) in
  Forall (λ s, step_status s = pending ∧ step_result s = None) (steps p)
  ∧ map id (steps p) = map generateUUID (seq n (length (steps p)))
  ∧ snd (createPlan generateUUID n task g) = (n + length (steps p))%nat
  ∧ (Inj (=) (=) generateUUID → NoDup (map id (steps p)))
  ∧ (∀ o, generateObject g = Some o →
       goal p = out_goal o ∧ reasoning p = out_reasoning o
       ∧ map description (steps p) = map out_description (out_steps o)
       ∧ map tool (steps p) = map out_tool (out_steps o))
  ∧ (generateObject g = None → goal p = task).
Proof.
  unfold createPlan. destruct (generateObject g) as [o|] eqn:Hg; cbv zeta.
  - unfold convertToPlan.
    destruct (convertSteps_shape (out_steps o) n) as [Hf Hs].
    destruct (convertSteps generateUUID n (out_steps o)) as [sts n'].
    cbn [fst snd steps goal reasoning] in *. subst sts n'.
    assert (map id (imap (λ k s, {| id := generateUUID (n + k);
                                    description := out_description s;
                                    tool := out_tool s;
                                    step_status := pending;
                                    step_result := None |}) (out_steps o))
            = map generateUUID (seq n (length (out_steps o)))) as Hids.
    { apply list_eq. intros k.
      change (map ?f) with (fmap (M:=list) f).
      rewrite !list_lookup_fmap, list_lookup_imap.
      destruct (out_steps o !! k) eqn:Hk; simpl.
      - apply lookup_lt_Some in Hk. by rewrite lookup_seq_lt by lia.
      - apply lookup_ge_None in Hk. by rewrite lookup_seq_ge by lia. }
    rewrite length_imap.
    split.
    { apply Forall_forall. intros s Hs.
      apply elem_of_lookup_imap_1 in Hs as (k & x & -> & _). done. }
    split; [exact Hids|]. split; [done|].
    split.
    { intros Hinj. rewrite Hids. apply (NoDup_fmap_2 generateUUID), NoDup_seq. }
    split; [|done]. intros o' [= <-]. split; [done|]. split; [done|].
    split; by apply map_imap_proj.
  - cbn [createFallbackPlan fst snd steps goal length map seq].
    split; [by repeat constructor|]. split; [done|]. split; [lia|].
    split.
    { intros Hinj. apply (NoDup_fmap_2 generateUUID (seq n 2)), NoDup_seq. }
    split; [done|done].
Qed.

End PlanShapeFacts.

Section ReplanFacts.

Import Planning Replanning.
Context `{Runtime}.

Lemma createPlan_fallback_size_aux (generateUUID : nat → text) (n : nat)
  (task : text) (g : Generation) :
  (1 ≤ length (steps (fst (createPlan generateUUID n task g))) ≤ 7)%nat.
Proof.
  unfold createPlan. destruct g as [|o]; simpl; [lia|].
  destruct (PlanSchema o) eqn:Hs; [|simpl; lia].
  rewrite convertToPlan_steps, convertSteps_length.
  by apply PlanSchema_inv in Hs as [? _].
Qed.

Lemma createPlan_pending_aux (generateUUID : nat → text) (n : nat)
  (task : text) (g : Generation) :
  Forall (λ s, step_status s = pending)
    (steps (fst (createPlan generateUUID n task g))).
Proof.
  unfold createPlan. destruct (generateObject g) as [o|].
  - rewrite convertToPlan_steps.
    destruct (convertSteps_shape generateUUID (out_steps o) n) as [-> _].
    apply Forall_forall. intros s Hs.
    by apply elem_of_lookup_imap_1 in Hs as (k & x & -> & _).
  - by repeat constructor.
Qed.

Lemma pending_steps (l : list PlanStep) :
  (0 <? length (List.filter isPending l))%nat = true
  ↔ ∃ s, s ∈ l ∧ step_status s = pending.
Proof.
  rewrite Nat.ltb_lt. split.
  - intros Hlen. destruct (List.filter isPending l) as [|s l'] eqn:Hf;
      [simpl in Hlen; lia|].
    assert (In s (List.filter isPending l)) as Hin by (rewrite Hf; by left).
    apply filter_In in Hin as [Hin Hp]. exists s.
    split; [by apply list_elem_of_In|].
    unfold isPending in Hp. by destruct (step_status s).
  - intros (s & Hin & Hs).
    assert (In s (List.filter isPending l)) as Hin'.
    { apply filter_In. split; [by apply list_elem_of_In|].
      unfold isPending. by rewrite Hs. }
    destruct (List.filter isPending l); [done | simpl; lia].
Qed.

(** X11. [shouldReplan] asks for a new plan exactly when the lower-cased result
    contains one of the failure indicators and some step is still pending.
    For a plan fresh from [createPlan] the result alone decides; once every
    step is done it never asks, whatever the result says. *)
Theorem shouldReplan_policy (generateUUID : nat → text) (p : AgentPlan)
  (stepResult : text) :
  (shouldReplan p stepResult = true
   ↔ (∃ indicator, indicator ∈ failureIndicators
                   ∧ occurs_in indicator (toLowerCase stepResult))
     ∧ ∃ s, s ∈ steps p ∧ step_status s = pending)
  ∧ (∀ n task g,
       shouldReplan (fst (createPlan generateUUID n task g)) stepResult = true
       ↔ ∃ indicator, indicator ∈ failureIndicators
                      ∧ occurs_in indicator (toLowerCase stepResult))
  ∧ (Forall (λ s, step_status s = done) (steps p) →
     shouldReplan p stepResult = false).
Proof.
  assert (∀ q,
            shouldReplan q stepResult = true
            ↔ (∃ indicator, indicator ∈ failureIndicators
                            ∧ occurs_in indicator (toLowerCase stepResult))
              ∧ ∃ s, s ∈ steps q ∧ step_status s = pending) as Hspec.
  { intros q. unfold shouldReplan.
    destruct (existsb _ failureIndicators) eqn:Hfail.
    - rewrite pending_steps. apply existsb_exists in Hfail as (ind & Hin & Hi).
      apply includes_occurs in Hi. split; [|tauto]. intros Hs. split; [|done].
      exists ind. split; [by apply list_elem_of_In | done].
    - split; [done|]. intros [(ind & Hin & Hocc) _].
      assert (existsb (λ indicator, includes (toLowerCase stepResult) indicator)
                failureIndicators = true) as Ht; [|congruence].
      apply existsb_exists. exists ind.
      split; [by apply list_elem_of_In | by apply includes_occurs]. }
  split; [apply Hspec|]. split.
  - intros n task g. rewrite Hspec. split; [tauto|]. intros Hind.
    split; [done|].
    pose proof (createPlan_pending_aux generateUUID n task g) as Hall.
    pose proof (proj1 (createPlan_fallback_size_aux generateUUID n task g))
      as Hpos.
    destruct (steps (fst (createPlan generateUUID n task g))) as [|s l];
      [simpl in Hpos; lia|].
    exists s. split; [by left|]. by apply Forall_cons in Hall as [? _].
  - intros Hdone. destruct (shouldReplan p stepResult) eqn:Hr; [|done].
    apply Hspec in Hr as [_ (s & Hin & Hs)].
    rewrite Forall_forall in Hdone. specialize (Hdone s Hin). congruence.
Qed.

End ReplanFacts.

Lemma sample_uuid_inj : Inj (=) (=) PlanningExamples.sample_uuid.
Proof.
  intros n m Heq. unfold PlanningExamples.sample_uuid in Heq.
  apply app_inv_head in Heq. by apply decimal_inj.
Qed.

Lemma createPlan_shape_witness :
  NoDup (map id (steps (fst (Planning.createPlan PlanningExamples.sample_uuid
                               0 (lit "collect the pages")
                               PlanningExamples.reply_webExtract))))
  ∧ map description
      (steps (fst (Planning.createPlan PlanningExamples.sample_uuid 0
                     (lit "collect the pages")
                     PlanningExamples.reply_webExtract)))
    = [lit "Extract the pages"].
Proof.
  destruct (createPlan_shape PlanningExamples.sample_uuid 0
              (lit "collect the pages") PlanningExamples.reply_webExtract)
    as (_ & _ & _ & Hnodup & Hreply & _).
  split; [exact (Hnodup sample_uuid_inj)|].
  destruct (Hreply _ eq_refl) as (_ & _ & Hdesc & _). exact Hdesc.
Defined.

Lemma shouldReplan_policy_witness :
  Forall (λ s, step_status s = done)
    (steps {| goal := lit "g";
              steps := [ {| id := lit "s1"; description := lit "d";
                            tool := None; step_status := done;
                            step_result := Some (lit "ok") |} ];
              reasoning := lit "r" |})
  ∧ @Replanning.shouldReplan AsciiRuntime.runtime
      {| goal := lit "g";
         steps := [ {| id := lit "s1"; description := lit "d";
                       tool := None; step_status := done;
                       step_result := Some (lit "ok") |} ];
         reasoning := lit "r" |}
      (lit "Error: page not found") = false.
Proof.
  assert (Forall (λ s, step_status s = done)
            (steps {| goal := lit "g";
                      steps := [ {| id := lit "s1"; description := lit "d";
                                    tool := None; step_status := done;
                                    step_result := Some (lit "ok") |} ];
                      reasoning := lit "r" |})) as Hdone
    by (repeat constructor).
  split; [exact Hdone|].
  exact (proj2 (proj2 (@shouldReplan_policy AsciiRuntime.runtime
                         PlanningExamples.sample_uuid _
                         (lit "Error: page not found"))) Hdone).
Defined.

(** ** The tools *)

Section FinalAnswerFacts.

Import Tools Tools.FinalAnswer.
Context `{Platform}.

Lemma appendSources_prefix (l : list text) :
  ∀ index acc, acc `prefix_of` appendSources index acc l.
Proof.
  induction l as [|s l IH]; intros index acc; cbn [appendSources]; [done|].
  etrans; [|apply IH]. by apply prefix_app_r.
Qed.

Lemma appendSources_lines (l : list text) :
  ∀ index acc i s,
    l !! i = Some s →
    occurs_in (decimal (index + i + 1) ++ lit ". " ++ s ++ [10%N])
      (appendSources index acc l).
Proof.
  induction l as [|s0 l IH]; intros index acc i s Hi; [done|].
  cbn [appendSources]. destruct i as [|i].
  - injection Hi as ->. rewrite Nat.add_0_r.
    destruct (appendSources_prefix l (S index)
                (acc ++ decimal (index + 1) ++ lit ". " ++ s ++ [10%N]))
      as [rest ->].
    exists acc, rest. by rewrite <- !app_assoc.
  - replace (index + S i + 1)%nat with (S index + i + 1)%nat by lia.
    by apply IH.
Qed.

(** X12. [finalAnswer] never alters the answer it is given, it only extends it.
    The sources it returns are the given sources that parse as URLs, in
    their order; when none does, no sources are returned, and otherwise each
    returned source has its numbered line in the answer. The confidence is
    high unless given, the result is always marked completed, and with no
    valid source and high confidence the answer comes back as it was. *)
Theorem finalAnswer_execute_spec (given : text)
  (givenSources : option (list text)) (givenConfidence : option Confidence) :
  let out := execute given givenSources givenConfidence in
  given `prefix_of` answer out
  ∧ completed out = true
  ∧ confidence out = default high givenConfidence
  ∧ (sources out = None
     ↔ List.filter validURL (default [] givenSources) = [])
  ∧ (∀ l, sources out = Some l →
       l = List.filter validURL (default [] givenSources)
       ∧ ∀ i s, l !! i = Some s →
           validURL s = true
           ∧ occurs_in (decimal (i + 1) ++ lit ". " ++ s ++ [10%N])
               (answer out))
  ∧ (sources out = None → default high givenConfidence = high →
     answer out = given).
Proof.
  cbv zeta. unfold execute.
  assert (match givenSources with
          | Some l => List.filter validURL l
          | None => []
          end = List.filter validURL (default [] givenSources)) as ->
    by (by destruct givenSources).
  set (valid := List.filter validURL (default [] givenSources)).
  cbn [answer sources confidence completed].
  split.
  { assert (given `prefix_of`
              match valid with
              | [] => given
              | _ :: _ =>
                  appendSources 0
                    (given ++ [10%N; 10%N] ++ lit "**Sources:**" ++ [10%N])
                    valid
              end) as Hpre.
    { destruct valid; [done|]. etrans; [|apply appendSources_prefix].
      by apply prefix_app_r. }
    destruct (default high givenConfidence); [done|..];
      by apply prefix_app_r. }
  split; [done|]. split; [done|].
  split; [by destruct valid|].
  split.
  { intros l Hl. destruct valid as [|v valid'] eqn:Hv; [done|].
    injection Hl as <-. split; [done|]. intros i s Hi. split.
    - assert (In s valid) as Hin.
      { rewrite Hv. apply list_elem_of_In. by eapply list_elem_of_lookup_2. }
      by apply filter_In in Hin as [_ ?].
    - pose proof (appendSources_lines (v :: valid') 0
                    (given ++ [10%N; 10%N] ++ lit "**Sources:**" ++ [10%N])
                    i s Hi) as Hocc.
      destruct (default high givenConfidence); [done|..];
        (eapply occurs_in_trans; [exact Hocc|]; by eexists [], _). }
  intros Hnone ->. by destruct valid.
Qed.

End FinalAnswerFacts.

Section FetchUrlFacts.

Import Tools Tools.FetchUrl.
Context `{Platform} `{Net}.

(** X13. A URL whose path contains /admin, /login, /.env or /config is refused
    with the code FORBIDDEN_PATH, whatever the network would answer. *)
Theorem fetchUrl_forbidden_path (url : text) (urlObj : URL) (path : text)
  (shouldExtractMain : option bool) (now : text) :
  newURL url = inr urlObj →
  path ∈ suspiciousPaths →
  occurs_in path (pathname urlObj) →
  execute url shouldExtractMain now
  = Failure (lit "Cannot fetch URLs from potentially sensitive paths")
      (lit "FORBIDDEN_PATH") None.
Proof.
  intros Hurl Hin Hocc. unfold execute. rewrite Hurl.
  assert (existsb (λ path, includes (pathname urlObj) path) suspiciousPaths
          = true) as ->; [|done].
  apply existsb_exists. exists path.
  split; [by apply list_elem_of_In | by apply includes_occurs].
Qed.

(** X14. [fetchUrl] returns a failure with one of seven codes,
    with a status code exactly for the HTTP failures, or a page. A page is
    returned only for a URL that parses, has no forbidden path, and was
    answered with an OK response of type text/html or text/plain; its
    content is the extracted text if that has at most 10,000 characters,
    and its first 10,000 characters followed by the truncation note
    otherwise, so never more than 10,024 characters; the content length
    reported is the length of that content, the URL is the one asked for. *)
Theorem fetchUrl_result (url : text) (shouldExtractMain : option bool)
  (now : text) :
  match execute url shouldExtractMain now with
  | Failure _ code statusCode =>
      code ∈ fetchCodes
      ∧ (is_Some statusCode ↔ code = lit "NOT_FOUND" ∨ code = lit "HTTP_ERROR")
      ∧ (code = lit "NOT_FOUND" ↔ statusCode = Some 404%nat)
  | Success _ content url' extractedAt contentLength =>
      url' = url ∧ extractedAt = now
      ∧ contentLength = length content
      ∧ (contentLength ≤ maxLength + 24)%nat
      ∧ ∃ urlObj response html,
          newURL url = inr urlObj
          ∧ (∀ path, path ∈ suspiciousPaths →
               ¬ occurs_in path (pathname urlObj))
          ∧ fetch url = inr response
          ∧ ok response = true
          ∧ (occurs_in (lit "text/html") (default [] (contentType response))
             ∨ occurs_in (lit "text/plain")
                 (default [] (contentType response)))
          ∧ body response = inr html
          ∧ let extracted :=
              if default true shouldExtractMain then extractMainContent html
              else htmlToText html in
            content
            = if (maxLength <? length extracted)%nat
              then take maxLength extracted ++ truncationNote
              else extracted
  end.
Proof.
  assert (∀ error,
            match caught error with
            | Failure _ code statusCode =>
                code ∈ fetchCodes
                ∧ (is_Some statusCode
                   ↔ code = lit "NOT_FOUND" ∨ code = lit "HTTP_ERROR")
                ∧ (code = lit "NOT_FOUND" ↔ statusCode = Some 404%nat)
            | Success _ _ _ _ _ => False
            end) as Hcaught.
  { intros [name message|]; unfold caught; [case_bool_decide|];
      (split; [unfold fetchCodes; rewrite !elem_of_cons; tauto|]);
      (split; split; try done; try (intros [? ?]; done);
       intros [?|?]; done). }
  unfold execute. destruct (newURL url) as [message|urlObj] eqn:Hurl.
  { specialize (Hcaught (Err (lit "TypeError") message)).
    by destruct (caught _). }
  destruct (existsb _ suspiciousPaths) eqn:Hsus.
  { split; [unfold fetchCodes; rewrite !elem_of_cons; tauto|].
    split; split; try done; try (intros [? ?]; done). intros [?|?]; done. }
  destruct (fetch url) as [error|response] eqn:Hfetch;
    [specialize (Hcaught error); by destruct (caught _)|].
  destruct (ok response) eqn:Hok; cbn [negb].
  2:{ destruct (Nat.eqb_spec (status response) 404) as [->|Hne].
      - split; [unfold fetchCodes; rewrite !elem_of_cons; tauto|].
        split; split; try done; eauto.
      - split; [unfold fetchCodes; rewrite !elem_of_cons; tauto|].
        split; split; try done; eauto. intros [= ?]. done. }
  destruct (negb (includes _ (lit "text/html")) && negb (includes _ (lit "text/plain")))
    eqn:Htype.
  { split; [unfold fetchCodes; rewrite !elem_of_cons; tauto|].
    split; split; try done; try (intros [? ?]; done). intros [?|?]; done. }
  destruct (body response) as [error|html] eqn:Hbody;
    [specialize (Hcaught error); by destruct (caught _)|].
  cbv zeta. split; [done|]. split; [done|]. split; [done|].
  split.
  { destruct (Nat.ltb_spec maxLength
                (length (if default true shouldExtractMain
                         then extractMainContent html else htmlToText html))).
    - rewrite length_app, length_take. change (length truncationNote) with 24%nat.
      lia.
    - lia. }
  exists urlObj, response, html. split; [done|]. split.
  { intros path Hin Hocc.
    assert (existsb (λ path, includes (pathname urlObj) path) suspiciousPaths
            = true) as Ht; [|congruence].
    apply existsb_exists. exists path.
    split; [by apply list_elem_of_In | by apply includes_occurs]. }
  split; [done|]. split; [done|]. split; [|done].
  apply andb_false_iff in Htype as [Ht|Ht]; apply negb_false_iff in Ht;
    apply includes_occurs in Ht; [by left | by right].
Qed.

End FetchUrlFacts.

Section WebSearchFacts.

Import Tools Tools.WebSearch.
Context `{Net}.

(** X15. Without an API key (absent or empty) [webSearch] reports
    MISSING_API_KEY whatever the network would answer. The request it sends
    never asks for more than 10 results, and asks for the given number when
    that is at most 10. When it reports results they are the results of the
    API, all of them and in order, with their titles, URLs, snippets and
    dates; there is at least one, the count is their number and the query is
    the one asked. *)
Theorem webSearch_execute_spec (env_TAVILY_API_KEY : option text)
  (asked : text) (maxResults : option Z) :
  (env_TAVILY_API_KEY = None ∨ env_TAVILY_API_KEY = Some [] →
   ∃ e, execute env_TAVILY_API_KEY asked maxResults
        = Failure e (lit "MISSING_API_KEY") None)
  ∧ (∀ apiKey,
       max_results (request apiKey asked (default 5 maxResults)) ≤ 10
       ∧ (default 5 maxResults ≤ 10 →
          max_results (request apiKey asked (default 5 maxResults))
          = default 5 maxResults))
  ∧ (∀ results q n,
       execute env_TAVILY_API_KEY asked maxResults = Found results q n →
       q = asked ∧ n = length results ∧ (1 ≤ n)%nat
       ∧ ∃ apiKey response data,
           env_TAVILY_API_KEY = Some apiKey ∧ apiKey ≠ []
           ∧ fetch (request apiKey asked (default 5 maxResults))
             = inr response
           ∧ ok response = true
           ∧ json response = inr (Some data)
           ∧ results
             = map (λ r, {| hit_title := title r; hit_url := url r;
                            snippet := content r;
                            publishedDate := published_date r |}) data).
Proof.
  split; [|split].
  - intros [-> | ->]; by eexists.
  - intros apiKey. unfold request. cbn [max_results]. lia.
  - intros results q n. unfold execute. cbv zeta.
    destruct env_TAVILY_API_KEY as [[|c k]|]; cbn [State.truthy]; [done| |done].
    destruct (fetch _) as [error|response] eqn:Hfetch; [done|].
    destruct (ok response) eqn:Hok; cbn [negb];
      [|by destruct (responseText response)].
    destruct (json response) as [error|[[|r data]|]] eqn:Hjson; try done.
    intros [= <- <- <-]. split; [done|]. split; [done|].
    split; [cbn [map length]; lia|].
    exists (c :: k), response, (r :: data). by repeat split.
Qed.

End WebSearchFacts.

Section AnalyzeContentFacts.

Import Tools Tools.AnalyzeContent.
Context `{Model}.

Lemma splitLines_cons (s : text) : ∃ line rest, splitLines s = line :: rest.
Proof.
  destruct s as [|c s]; cbn [splitLines]; [by eexists _, _|].
  destruct (c =? 10)%N; [by eexists _, _|].
  destruct (splitLines s); by eexists _, _.
Qed.

(** Splitting at the line feeds and joining again gives the text back. *)
Lemma splitLines_join (s : text) : join [10%N] (splitLines s) = s.
Proof.
  induction s as [|c s IH]; [done|]. cbn [splitLines].
  destruct (N.eqb_spec c 10) as [->|Hne].
  - destruct (splitLines_cons s) as (line & rest & Hs). rewrite Hs in *.
    by rewrite join_cons_cons, IH.
  - destruct (splitLines s) as [|line rest]; [simpl in *; by subst|].
    destruct rest as [|l2 rest].
    + simpl in *. by subst.
    + rewrite join_cons_cons in *. by rewrite <- IH.
Qed.

Lemma splitLines_no_feed (s : text) :
  Forall (λ line, 10%N ∉ line) (splitLines s).
Proof.
  induction s as [|c s IH]; cbn [splitLines].
  - constructor; [apply not_elem_of_nil | constructor].
  - destruct (N.eqb_spec c 10) as [->|Hne].
    + constructor; [apply not_elem_of_nil | done].
    + destruct (splitLines s) as [|line rest].
      * constructor; [|constructor]. rewrite list_elem_of_singleton. congruence.
      * apply Forall_cons in IH as [Hl Hr]. constructor; [|done].
        rewrite elem_of_cons. intros [?|?]; [congruence | done].
Qed.

Lemma trimStart_nil (s : text) :
  trimStart s = [] ↔ Forall (λ c, isWhiteSpace c = true) s.
Proof.
  induction s as [|c s IH]; cbn [trimStart]; [by split; [constructor|]|].
  destruct (isWhiteSpace c) eqn:Hc.
  - rewrite IH. split; [by constructor | by intros [_ ?]%Forall_cons].
  - split; [done|]. intros [? _]%Forall_cons. congruence.
Qed.

Lemma trimStart_head (s : text) :
  trimStart s ≠ [] →
  ∃ c t, trimStart s = c :: t ∧ isWhiteSpace c = false ∧ c ∈ s.
Proof.
  induction s as [|c s IH]; cbn [trimStart]; [done|].
  destruct (isWhiteSpace c) eqn:Hc.
  - intros Hne. destruct (IH Hne) as (d & t & -> & Hd & Hin).
    exists d, t. split; [done|]. split; [done|]. by right.
  - intros _. exists c, s. split; [done|]. split; [done|]. by left.
Qed.

(** A line survives [trim] exactly when it has a character that is not
    white space. *)
Lemma trim_nonempty (s : text) :
  (0 <? length (trim s))%nat = true
  ↔ ∃ c, c ∈ s ∧ isWhiteSpace c = false.
Proof.
  rewrite Nat.ltb_lt. unfold trim. rewrite length_rev. split.
  - intros Hlen. destruct (trimStart s) as [|c t] eqn:Hs;
      [simpl in Hlen; lia|].
    destruct (trimStart_head s) as (d & t' & Hd & Hws & Hin);
      [by rewrite Hs|].
    by exists d.
  - intros (c & Hin & Hc).
    assert (trimStart s ≠ []) as Hne.
    { rewrite trimStart_nil, Forall_forall. intros Hall.
      specialize (Hall c Hin). congruence. }
    destruct (trimStart_head s Hne) as (d & t & Hd & Hws & _).
    assert (trimStart (rev (trimStart s)) ≠ []) as Hne'.
    { rewrite trimStart_nil, Forall_forall. intros Hall.
      specialize (Hall d). rewrite Hall in Hws; [done|].
      apply list_elem_of_In, in_rev. rewrite rev_involutive, Hd. by left. }
    destruct (trimStart (rev (trimStart s))); [done | simpl; lia].
Qed.

(** X16. [analyzeContent] refuses to look for answers without a query (absent
    or empty) and does so whatever the model would say. When it succeeds,
    the analysis is the model's text as it came; the key points, when there
    are any, are between one and five lines of that text, in their order,
    none of them blank; they are absent exactly when every line is blank. *)
Theorem analyzeContent_execute_spec (content : text) (type : AnalysisType)
  (asked : option text) :
  (asked = None ∨ asked = Some [] →
   ∃ e, execute content find_answers asked
        = Failure e (lit "MISSING_QUERY"))
  ∧ ∀ a, execute content type asked = Done a →
      generateText (systemPrompt type)
        (userPrompt type content (default (lit "undefined") asked))
      = inr (analysis a)
      ∧ analysisType a = type
      ∧ join [10%N] (splitLines (analysis a)) = analysis a
      ∧ match keyPoints a with
        | Some points =>
            (1 ≤ length points ≤ 5)%nat
            ∧ points `sublist_of` splitLines (analysis a)
            ∧ Forall (λ line, (10%N ∉ line)
                              ∧ ∃ c, c ∈ line ∧ isWhiteSpace c = false)
                points
        | None =>
            Forall (Forall (λ c, isWhiteSpace c = true))
              (splitLines (analysis a))
        end.
Proof.
  split.
  - intros [-> | ->]; by eexists.
  - intros a. unfold execute.
    assert (∀ t,
              match generateText (systemPrompt type)
                      (userPrompt type content (default (lit "undefined") asked))
              with
              | inl error =>
                  Failure
                    (lit "Failed to analyze content: "
                     ++ match error with
                        | Err _ message => message
                        | NotAnError => lit "Unknown error"
                        end)
                    (lit "ANALYSIS_FAILED")
              | inr result_text =>
                  let keyPoints :=
                    take 5
                      (List.filter (λ line, (0 <? length (trim line))%nat)
                         (splitLines result_text)) in
                  Done {| analysis := result_text;
                          keyPoints :=
                            match keyPoints with
                            | [] => None
                            | _ :: _ => Some keyPoints
                            end;
                          analysisType := type;
                          query := t;
                          confidence := lit "high" |}
              end = Done a →
              generateText (systemPrompt type)
                (userPrompt type content (default (lit "undefined") asked))
              = inr (analysis a)
              ∧ analysisType a = type
              ∧ join [10%N] (splitLines (analysis a)) = analysis a
              ∧ match keyPoints a with
                | Some points =>
                    (1 ≤ length points ≤ 5)%nat
                    ∧ points `sublist_of` splitLines (analysis a)
                    ∧ Forall (λ line, (10%N ∉ line)
                                      ∧ ∃ c, c ∈ line
                                             ∧ isWhiteSpace c = false)
                        points
                | None =>
                    Forall (Forall (λ c, isWhiteSpace c = true))
                      (splitLines (analysis a))
                end) as Hmain.
    { intros t. destruct (generateText _ _) as [error|txt]; [done|].
      cbv zeta. intros [= <-]. cbn [analysis analysisType keyPoints].
      split; [done|]. split; [done|]. split; [apply splitLines_join|].
      set (kept := List.filter (λ line, (0 <? length (trim line))%nat)
                     (splitLines txt)).
      assert (kept = filter (λ line, (0 <? length (trim line))%nat = true)
                       (splitLines txt)) as Hkept.
      { unfold kept. induction (splitLines txt) as [|l ls IH]; [done|].
        cbn [List.filter]. rewrite filter_cons, IH.
        destruct (0 <? length (trim l))%nat; by case_decide. }
      destruct (take 5 kept) as [|p ps] eqn:Htake.
      - assert (kept = []) as Hnil by (by destruct kept).
        apply Forall_forall. intros line Hin.
        apply trimStart_nil.
        destruct (trimStart line) eqn:Ht; [done|]. exfalso.
        assert (line ∈ kept) as Hk; [|rewrite Hnil in Hk; by apply elem_of_nil in Hk].
        rewrite Hkept. apply list_elem_of_filter. split; [|done].
        apply trim_nonempty.
        destruct (trimStart_head line) as (d & t' & _ & Hd & Hdin);
          [by rewrite Ht|].
        by exists d.
      - rewrite <- Htake. split.
        + rewrite length_take. assert (length kept ≠ 0%nat); [|lia].
          by destruct kept.
        + split.
          * etrans; [apply sublist_take|]. rewrite Hkept. apply sublist_filter.
          * apply Forall_take. rewrite Hkept. apply Forall_forall.
            intros line [Hne Hin]%list_elem_of_filter. split.
            -- pose proof (splitLines_no_feed txt) as Hall.
               rewrite Forall_forall in Hall. by apply Hall.
            -- by apply trim_nonempty. }
    destruct type; try apply Hmain.
    destruct (State.truthy asked); [apply Hmain | done].
Qed.

End AnalyzeContentFacts.

(** ** The chat route *)

Section RouteFacts.

Import State Agent Route.
Context `{Runtime}.
Variable generateUUID : nat → text.

Lemma prepareStep_injects_aux (chat : text) (n : nat)
  (steps : list StepResult) (messages : list Message) (o o1 : Orchestrator)
  (st : AgentState) :
  chat ≠ [] →
  loadState chat steps o = Returns (Some st) o1 →
  status st ≠ idle →
  fst (prepareStep (Some chat) n steps messages o)
  = Some (messages ++ [stateMessage n (formatStateContext (Some st))]).
Proof.
  intros Hchat Hload Hact. unfold prepareStep.
  destruct chat as [|c chat]; [done|]. cbn [truthy]. rewrite Hload. cbv zeta.
  pose proof (formatStateContext_nonempty st Hact) as Hne.
  destruct (formatStateContext (Some st)) as [|u t]; [done|].
  destruct (status st); [done| | |]; by destruct (plan st).
Qed.

(** The first state read of a new agent, before any round. *)
Lemma loadState_first (chat : text) (fs : Faults) (w : World) :
  loadState chat [] (startWith fs w)
  = if throwsNext fs then Throws (startWith (tail fs) w)
    else Returns (getAgentState chat w) (startWith (tail fs) w).
Proof.
  unfold loadState, recordNewSteps, call_getAgentState, await. cbn.
  by destruct (throwsNext fs).
Qed.

(** X17. The planning part of [POST] does nothing (store, stream and
    identifiers as before) for a model whose name contains "reasoning" or
    "thinking", without a message, for a message that is not the user's, in
    a tool approval flow, and for a user text shorter than 50 characters.
    When it does plan, the plan has 1 to 7 steps and the states of the other
    conversations are as before. If [updatePlan] throws, the stream has got
    the status planning and nothing else, and the store is as it was. If it
    does not throw, the stream gets the status planning, the plan and the
    status executing; an existing state of the conversation gets the plan,
    the cursor 0 and the status executing and keeps its log and findings,
    and the first [prepareStep] of the agent then appends the state message
    if its own read of the state does not throw, and nothing if it does. If
    the conversation has no state, the plan is announced on the stream all
    the same, but nothing is stored. *)
Theorem planIfNeeded_spec (id selectedChatModel : text)
  (message : option UserMessage) (isToolApprovalFlow : bool)
  (g : Planning.Generation) (sv : Server) :
  (isReasoningModel selectedChatModel = true ∨ message = None
   ∨ isToolApprovalFlow = true
   ∨ (∃ m, message = Some m
           ∧ (message_role m = otherRole
              ∨ (length (userContent m) < 50)%nat)) →
   planIfNeeded generateUUID id selectedChatModel message isToolApprovalFlow
     g sv = sv)
  ∧ ∀ m,
      message = Some m → message_role m = userRole →
      isReasoningModel selectedChatModel = false →
      isToolApprovalFlow = false →
      Planning.shouldCreatePlan (userContent m) = true →
      let p := fst (Planning.createPlan generateUUID (server_ids sv)
                      (userContent m) g) in
      let sv' := planIfNeeded generateUUID id selectedChatModel message
                   isToolApprovalFlow g sv in
      (1 ≤ length (steps p) ≤ 7)%nat
      ∧ server_ids sv' = (server_ids sv + length (steps p))%nat
      ∧ server_faults sv' = tail (server_faults sv)
      ∧ (∀ c, c ≠ id →
           store (server_world sv') !! c = store (server_world sv) !! c)
      ∧ (store (server_world sv) !! id = None →
         server_world sv' = server_world sv)
      ∧ (throwsNext (server_faults sv) = true →
         server_written sv'
         = server_written sv ++ [DataAgentStatus planning]
         ∧ server_world sv' = server_world sv)
      ∧ (throwsNext (server_faults sv) = false →
         server_written sv'
         = server_written sv
           ++ [DataAgentStatus planning; DataAgentPlan p;
               DataAgentStatus executing]
         ∧ ∀ st, store (server_world sv) !! id = Some st →
             store (server_world sv') !! id
             = Some {| chatId := chatId st; plan := Some p;
                       currentStepIndex := Some 0;
                       completedSteps := completedSteps st;
                       context := context st; status := executing |}
             ∧ ∀ messages,
                 id ≠ [] →
                 fst (prepareStep (Some id) 0 [] messages (agentStart sv'))
                 = if throwsNext (server_faults sv') then None
                   else
                     Some (messages
                           ++ [stateMessage 0
                                 (formatStateContext
                                    (Some {| chatId := chatId st;
                                             plan := Some p;
                                             currentStepIndex := Some 0;
                                             completedSteps :=
                                               completedSteps st;
                                             context := context st;
                                             status := executing |}))])).
Proof.
  split.
  - unfold planIfNeeded.
    intros [-> | [-> | [-> | (m & -> & [-> | Hshort])]]]; try done.
    + by destruct message as [m|]; [destruct (message_role m)|].
    + destruct message as [m|]; [|done].
      by rewrite andb_false_r.
    + by rewrite andb_false_r.
    + destruct (_ && _); [|done]. unfold Planning.shouldCreatePlan.
      apply Nat.ltb_lt in Hshort. by rewrite Hshort.
  - intros m -> Hrole Hmodel -> Hplan p sv'. subst p sv'.
    unfold planIfNeeded. rewrite Hrole, Hmodel, Hplan. cbn [negb andb].
    pose proof (createPlan_fallback_size_aux generateUUID (server_ids sv)
                  (userContent m) g) as Hsize.
    assert (snd (Planning.createPlan generateUUID (server_ids sv)
                   (userContent m) g)
            = (server_ids sv
               + length (steps (fst (Planning.createPlan generateUUID
                                       (server_ids sv) (userContent m) g))))%nat)
      as Hids.
    { unfold Planning.createPlan.
      destruct (Planning.generateObject g) as [o|]; [|simpl; lia].
      unfold Planning.convertToPlan.
      destruct (convertSteps_shape generateUUID (Planning.out_steps o)
                  (server_ids sv)) as [Hf Hs].
      destruct (Planning.convertSteps _ _ _) as [sts n'].
      cbn [fst snd steps] in *. subst. by rewrite length_imap. }
    unfold tryPlan. cbn [server_write server_ids server_faults
                           server_world server_written].
    destruct (Planning.createPlan generateUUID (server_ids sv)
                (userContent m) g) as [p ids].
    cbn [fst snd] in *.
    split; [done|].
    destruct (throwsNext (server_faults sv)) eqn:Hthrow;
      cbn [server_write server_written server_ids server_world
             server_faults].
    { do 4 (split; [done|]). split; [done|]. by intros. }
    split; [done|]. split; [done|].
    unfold updatePlan, dbUpdateAgentState.
    destruct (store (server_world sv) !! id) as [st|] eqn:Hst.
    + cbn [snd set_store store]. split.
      { intros c Hc. by rewrite lookup_insert_ne. }
      split; [done|]. split; [done|]. intros _.
      split; [by rewrite <- !app_assoc|]. intros st' [= <-].
      assert (<[id:=apply_updates
                      {| u_plan := Some (Some p);
                         u_currentStepIndex := Some (Some 0);
                         u_completedSteps := None; u_context := None;
                         u_status := Some executing |} st]>
                (store (server_world sv)) !! id
              = Some {| chatId := chatId st; plan := Some p;
                        currentStepIndex := Some 0;
                        completedSteps := completedSteps st;
                        context := context st; status := executing |})
        as Hnew by (by rewrite lookup_insert_eq).
      split; [exact Hnew|]. intros messages Hid.
      unfold agentStart. cbn [server_write server_faults server_world].
      destruct (throwsNext (tail (server_faults sv))) eqn:Hnext.
      * unfold prepareStep. destruct id as [|c id]; [done|]. cbn [truthy].
        by rewrite loadState_first, Hnext.
      * eapply prepareStep_injects_aux; [done| |done].
        rewrite loadState_first, Hnext.
        unfold getAgentState, dbGetAgentState. cbn [store set_store].
        by rewrite Hnew.
    + cbn [snd]. split; [done|]. split; [done|]. split; [done|]. intros _.
      split; [by rewrite <- !app_assoc|]. intros st. by rewrite Hst.
Qed.

(** X18. The agent [POST] creates stops after at most 5 rounds, whatever the
    engine does; it has no tools exactly for a model whose name contains
    "reasoning" or "thinking", and is bound to the conversation. *)
Theorem route_agent_rounds (id selectedChatModel prompt : text)
  (engine : list Message → StepResult) (initial : list Message)
  (w : World) (fuel : nat) :
  (5 ≤ fuel)%nat →
  (tools (createAgent (agentOptions id selectedChatModel prompt)) = None
   ↔ isReasoningModel selectedChatModel = true)
  ∧ ∃ rs o',
      run (createAgent (agentOptions id selectedChatModel prompt)) engine
        initial fuel [] (start w) = Some (rs, o')
      ∧ (1 ≤ length rs ≤ 5)%nat
      ∧ halts (createAgent (agentOptions id selectedChatModel prompt)) rs
        = true.
Proof.
  intros Hfuel. split.
  - unfold createAgent, agentOptions. cbn.
    by destruct (isReasoningModel selectedChatModel).
  - assert (1 ≤ roundLimit (agentOptions id selectedChatModel prompt)) as Hpos
      by (by vm_compute).
    destruct (run_bounded (createAgent (agentOptions id selectedChatModel prompt))
                engine initial 5
                (λ steps Hlen,
                   createAgent_stops_at_limit
                     (agentOptions id selectedChatModel prompt) steps Hlen Hpos)
                5 [] (start w) fuel)
      as (rs & o' & Hrun & _ & Hb & Hhalt & _); [done | lia | done |].
    exists rs, o'. simpl in Hb. split; [done|]. split; [lia | done].
Qed.

End RouteFacts.

(** ** Instances of the further properties *)

Lemma initializeAgentState_resets_witness :
  ∃ st w',
    State.initializeAgentState (lit "chat-1")
      (StateExamples.worldWith
         (StateExamples.stateWith (Some StateExamples.testPlan) executing []))
    = (Some st, w')
    ∧ status st = idle ∧ plan st = None.
Proof.
  destruct (@initializeAgentState_resets AsciiRuntime.runtime (lit "chat-1")
              (StateExamples.worldWith
                 (StateExamples.stateWith (Some StateExamples.testPlan)
                    executing [])))
    as (st & w' & Hinit & _ & Hidle & Hplan & _).
  exists st, w'. split; [exact Hinit|]. split; [exact Hidle | exact Hplan].
Defined.

Lemma contextKey_unique_witness :
  @Agent.contextKey 0
    {| toolName := lit "webSearch"; result := None; asJson := JNull |}
  = @Agent.contextKey 0
      {| toolName := lit "webSearch"; result := Some JNull; asJson := JNull |}.
Proof.
  apply (proj2 (contextKey_unique 0 0
                  {| toolName := lit "webSearch"; result := None;
                     asJson := JNull |}
                  {| toolName := lit "webSearch"; result := Some JNull;
                     asJson := JNull |})).
  split; reflexivity.
Defined.

Lemma finalAnswer_execute_spec_witness :
  Tools.FinalAnswer.sources
    (@Tools.FinalAnswer.execute ToolExamples.platform (lit "Done.")
       (Some [lit "https://example.com/a"; lit "not a url"]) None)
  = Some [lit "https://example.com/a"]
  ∧ occurs_in (decimal (0 + 1) ++ lit ". " ++ lit "https://example.com/a"
               ++ [10%N])
      (Tools.FinalAnswer.answer
         (@Tools.FinalAnswer.execute ToolExamples.platform (lit "Done.")
            (Some [lit "https://example.com/a"; lit "not a url"]) None)).
Proof.
  assert (Tools.FinalAnswer.sources
            (@Tools.FinalAnswer.execute ToolExamples.platform (lit "Done.")
               (Some [lit "https://example.com/a"; lit "not a url"]) None)
          = Some [lit "https://example.com/a"]) as Hsrc by (by vm_compute).
  split; [exact Hsrc|].
  destruct (@finalAnswer_execute_spec ToolExamples.platform (lit "Done.")
              (Some [lit "https://example.com/a"; lit "not a url"]) None)
    as (_ & _ & _ & _ & Hsome & _).
  destruct (Hsome _ Hsrc) as [_ Hlines].
  exact (proj2 (Hlines 0%nat (lit "https://example.com/a") eq_refl)).
Defined.

Lemma fetchUrl_forbidden_path_witness :
  @Tools.FetchUrl.execute ToolExamples.platform ToolExamples.pages
    (lit "https://example.com/admin/users") None
    (lit "2025-01-01T00:00:00.000Z")
  = Tools.FetchUrl.Failure
      (lit "Cannot fetch URLs from potentially sensitive paths")
      (lit "FORBIDDEN_PATH") None.
Proof.
  apply (@fetchUrl_forbidden_path ToolExamples.platform ToolExamples.pages
           (lit "https://example.com/admin/users")
           {| Tools.pathname := lit "/admin/users" |} (lit "/admin")).
  - reflexivity.
  - vm_compute. apply list_elem_of_here.
  - by exists [], (lit "/users").
Defined.

Lemma fetchUrl_result_witness :
  ∃ title content,
    @Tools.FetchUrl.execute ToolExamples.platform ToolExamples.pages
      (lit "https://example.com/page") None (lit "2025-01-01T00:00:00.000Z")
    = Tools.FetchUrl.Success title content (lit "https://example.com/page")
        (lit "2025-01-01T00:00:00.000Z") (length content).
Proof.
  pose proof (@fetchUrl_result ToolExamples.platform ToolExamples.pages
                (lit "https://example.com/page") None
                (lit "2025-01-01T00:00:00.000Z")) as Hres.
  destruct (@Tools.FetchUrl.execute ToolExamples.platform ToolExamples.pages
              (lit "https://example.com/page") None
              (lit "2025-01-01T00:00:00.000Z"))
    as [e code sc|title content url' at' n] eqn:E.
  - by vm_compute in E.
  - destruct Hres as (-> & -> & -> & _). by exists title, content.
Defined.

Lemma webSearch_execute_spec_witness :
  (∃ e, @Tools.WebSearch.execute ToolExamples.search None (lit "rocq") None
        = Tools.WebSearch.Failure e (lit "MISSING_API_KEY") None)
  ∧ Tools.WebSearch.max_results
      (Tools.WebSearch.request (lit "key") (lit "rocq") (default 5 (Some 50)))
    ≤ 10.
Proof.
  split.
  - exact (proj1 (@webSearch_execute_spec ToolExamples.search None
                    (lit "rocq") None) (or_introl eq_refl)).
  - exact (proj1 (proj1 (proj2 (@webSearch_execute_spec ToolExamples.search
                                  None (lit "rocq") (Some 50)))
                    (lit "key"))).
Defined.

Lemma analyzeContent_execute_spec_witness :
  (∃ e, @Tools.AnalyzeContent.execute ToolExamples.model (lit "text")
          Tools.AnalyzeContent.find_answers (Some [])
        = Tools.AnalyzeContent.Failure e (lit "MISSING_QUERY"))
  ∧ ∃ a,
      @Tools.AnalyzeContent.execute ToolExamples.model (lit "text")
        Tools.AnalyzeContent.summarize None
      = Tools.AnalyzeContent.Done a
      ∧ Tools.AnalyzeContent.analysisType a = Tools.AnalyzeContent.summarize.
Proof.
  split.
  - exact (proj1 (@analyzeContent_execute_spec ToolExamples.model (lit "text")
                    Tools.AnalyzeContent.summarize (Some []))
             (or_intror eq_refl)).
  - eexists. split; [reflexivity|].
    exact (proj1 (proj2 (proj2 (@analyzeContent_execute_spec
                                  ToolExamples.model (lit "text")
                                  Tools.AnalyzeContent.summarize None)
                           _ eq_refl))).
Defined.

Lemma planIfNeeded_spec_witness :
  (50 ≤ length (Route.userContent RouteExamples.longRequest))%nat
  ∧ Route.server_written
      (@Route.planIfNeeded AsciiRuntime.runtime PlanningExamples.sample_uuid
         (lit "chat-1") (lit "chat-model") (Some RouteExamples.longRequest)
         false Planning.GenError RouteExamples.server)
    = [ Agent.DataAgentStatus planning;
        Agent.DataAgentPlan
          (fst (Planning.createPlan PlanningExamples.sample_uuid 0
                  (Route.userContent RouteExamples.longRequest)
                  Planning.GenError));
        Agent.DataAgentStatus executing ]
  ∧ (Route.server_written
       (@Route.planIfNeeded AsciiRuntime.runtime PlanningExamples.sample_uuid
          (lit "chat-1") (lit "chat-model") (Some RouteExamples.longRequest)
          false Planning.GenError RouteExamples.failingServer)
     = [ Agent.DataAgentStatus planning ]
     ∧ Route.server_world
         (@Route.planIfNeeded AsciiRuntime.runtime
            PlanningExamples.sample_uuid (lit "chat-1") (lit "chat-model")
            (Some RouteExamples.longRequest) false Planning.GenError
            RouteExamples.failingServer)
       = Route.server_world RouteExamples.failingServer)
  ∧ @Route.planIfNeeded AsciiRuntime.runtime PlanningExamples.sample_uuid
      (lit "chat-1") (lit "chat-model-reasoning")
      (Some RouteExamples.longRequest) false Planning.GenError
      RouteExamples.server
    = RouteExamples.server.
Proof.
  assert (Route.isReasoningModel (lit "chat-model") = false) as Hmodel
    by (by vm_compute).
  assert (@Planning.shouldCreatePlan AsciiRuntime.runtime
            (Route.userContent RouteExamples.longRequest) = true) as Hplan
    by (by vm_compute).
  split; [vm_compute; lia|]. split; [|split].
  - destruct (proj2 (@planIfNeeded_spec AsciiRuntime.runtime
                       PlanningExamples.sample_uuid (lit "chat-1")
                       (lit "chat-model")
                       (Some RouteExamples.longRequest) false
                       Planning.GenError RouteExamples.server)
                RouteExamples.longRequest eq_refl eq_refl Hmodel eq_refl
                Hplan)
      as (_ & _ & _ & _ & _ & _ & Hreturns).
    exact (proj1 (Hreturns eq_refl)).
  - destruct (proj2 (@planIfNeeded_spec AsciiRuntime.runtime
                       PlanningExamples.sample_uuid (lit "chat-1")
                       (lit "chat-model")
                       (Some RouteExamples.longRequest) false
                       Planning.GenError RouteExamples.failingServer)
                RouteExamples.longRequest eq_refl eq_refl Hmodel eq_refl
                Hplan)
      as (_ & _ & _ & _ & _ & Hthrows & _).
    exact (Hthrows eq_refl).
  - apply (proj1 (@planIfNeeded_spec AsciiRuntime.runtime
                    PlanningExamples.sample_uuid (lit "chat-1")
                    (lit "chat-model-reasoning")
                    (Some RouteExamples.longRequest) false
                    Planning.GenError RouteExamples.server)).
    left. by vm_compute.
Defined.

Lemma route_agent_rounds_witness :
  (5 ≤ 5)%nat
  ∧ ∃ rs o',
      run (@Agent.createAgent AsciiRuntime.runtime
             (Route.agentOptions (lit "chat-1") (lit "chat-model")
                (lit "You are a helpful agent.")))
        AgentExamples.searchForever [] 5 []
        (Agent.start (StateExamples.worldWith StateExamples.idleState))
      = Some (rs, o')
      ∧ (1 ≤ length rs ≤ 5)%nat.
Proof.
  assert (5 ≤ 5)%nat as Hfuel by lia.
  split; [exact Hfuel|].
  destruct (proj2 (@route_agent_rounds AsciiRuntime.runtime (lit "chat-1")
                     (lit "chat-model") (lit "You are a helpful agent.")
                     AgentExamples.searchForever []
                     (StateExamples.worldWith StateExamples.idleState)
                     5%nat Hfuel))
    as (rs & o' & Hrun & Hlen & _).
  exists rs, o'. split; [exact Hrun | exact Hlen].
Defined.

(** ** The two tracker operations together *)

Section CommuteFacts.

Import State.

(** X19. [addToContext] and [completeCurrentStep] on one conversation can
    be called in either order: the store is the same afterwards, whether the
    conversation has a state, a plan, a cursor within the plan, or not. *)
Theorem tracker_operations_commute (chat key result : text) (value : json)
  (w : World) :
  snd (completeCurrentStep chat result (snd (addToContext chat key value w)))
  = snd (addToContext chat key value (snd (completeCurrentStep chat result w))).
Proof.
  destruct (store w !! chat) as [st|] eqn:Hst.
  2:{ unfold addToContext, completeCurrentStep, dbGetAgentState.
      rewrite Hst. cbn [snd]. by rewrite Hst. }
  rewrite (addToContext_present _ _ _ _ _ Hst). cbn [snd].
  unfold completeCurrentStep at 1. unfold dbGetAgentState.
  cbn [store set_store]. rewrite lookup_insert_eq. cbn [plan currentStepIndex].
  unfold completeCurrentStep, dbGetAgentState. rewrite Hst.
  destruct (plan st) as [p|] eqn:Hp;
    [|cbn [snd]; rewrite (addToContext_present _ _ _ _ _ Hst); cbn [snd];
      by rewrite Hp].
  destruct (at_index (steps p) (default 0 (currentStepIndex st)))
    as [step|] eqn:Hstep;
    [|cbn [snd]; rewrite (addToContext_present _ _ _ _ _ Hst); cbn [snd];
      by rewrite Hp].
  unfold dbUpdateAgentState. cbn [store set_store now]. rewrite Hst.
  rewrite lookup_insert_eq. cbn [snd].
  erewrite addToContext_present by (cbn [store set_store]; apply lookup_insert_eq).
  cbn [snd store set_store now]. unfold set_store. cbn [store now].
  f_equal. rewrite !insert_insert_eq. f_equal.
Qed.

End CommuteFacts.

Lemma tracker_operations_commute_witness :
  State.store
    (snd (State.completeCurrentStep (lit "chat-1") (lit "found")
            (snd (State.addToContext (lit "chat-1") (lit "topic")
                    (JStr (lit "proofs"))
                    (StateExamples.worldWith
                       (StateExamples.stateWith (Some StateExamples.testPlan)
                          executing []))))))
  = State.store
      (snd (State.addToContext (lit "chat-1") (lit "topic")
              (JStr (lit "proofs"))
              (snd (State.completeCurrentStep (lit "chat-1") (lit "found")
                      (StateExamples.worldWith
                         (StateExamples.stateWith
                            (Some StateExamples.testPlan) executing [])))))).
Proof.
  by rewrite (tracker_operations_commute (lit "chat-1") (lit "topic")
                (lit "found") (JStr (lit "proofs"))).
Defined.
